(** * Transport registry (main.py): a shallow embedding and its properties

    The program keeps routes, vehicles, passengers and schedules in
    memory and saves them to JSON.  Its objects are mutable and shared:
    a route put twice into a registry is one object, [update_route]
    changes it in place, and [list.remove] compares by identity because
    no class defines [__eq__].  The embedding therefore keeps one store
    per class, addresses objects by reference, and threads the stores and
    the disk through a state-and-exception monad.

    Python values are dynamically typed.  Constructors check nothing,
    [from_dict] stores whatever the JSON document holds and
    [update_route] assigns arbitrary values, so every field is a
    [value].

    What is left out:
    - values other than [None], booleans, integers, strings, lists, dicts
      keyed by strings and instances of the five classes; in particular
      floating-point numbers, and with them values that differ from
      themselves;
    - the text of a JSON file: a file is the document that [json.load]
      returns for it, or the exception that reading it raises, and
      [json.dump] followed by [json.load] gives back the data written;
    - the attributes that every object inherits from [object]
      ([__class__], [__dict__], [__doc__] and so on, a set that depends on
      the version of Python): [hasattr] answers for the names that
      [__init__] binds and for those that the class body defines, and the
      statements about [update_route] exclude the other names that begin
      with two underscores ([Route.special]);
    - [save_to_xml], which needs the XML libraries, and [main], which
      calls it. *)

From Stdlib Require Import ZArith String List Bool Lia.
From stdpp Require Import base option list strings gmap.

Set Warnings "-register-all".
Local Open Scope string_scope.
Local Open Scope list_scope.

(** ** Values *)

Inductive class_name : Type :=
| CVehicle | CRoute | CPassenger | CSchedule | CTransportSystem.

(** A reference is the position of the instance in the store of its class. *)
Abbreviation ref := nat.

(** [VObj c r] is a reference to the instance number [r] of class [c]. An
    instance never changes its class, so the class travels with the
    reference and [isinstance] reads it off. *)
Inductive value : Type :=
| VNone
| VBool (b : bool)
| VInt (n : Z)
| VStr (s : string)
| VList (xs : list value)
| VDict (kvs : list (string * value))
| VObj (c : class_name) (r : ref).

Definition class_name_eqb (a b : class_name) : bool :=
  match a, b with
  | CVehicle, CVehicle | CRoute, CRoute | CPassenger, CPassenger
  | CSchedule, CSchedule | CTransportSystem, CTransportSystem => true
  | _, _ => false
  end.

Definition isinstance (v : value) (c : class_name) : bool :=
  match v with
  | VObj c' _ => class_name_eqb c' c
  | _ => false
  end.

Definition class_str (c : class_name) : string :=
  match c with
  | CVehicle => "Vehicle"
  | CRoute => "Route"
  | CPassenger => "Passenger"
  | CSchedule => "Schedule"
  | CTransportSystem => "TransportSystem"
  end.

(** [type(v).__name__] *)
Definition type_name (v : value) : string :=
  match v with
  | VNone => "NoneType"
  | VBool _ => "bool"
  | VInt _ => "int"
  | VStr _ => "str"
  | VList _ => "list"
  | VDict _ => "dict"
  | VObj c _ => class_str c
  end.

(** First binding of a key, as [d[k]] finds it. *)
Fixpoint assoc (k : string) (kvs : list (string * value)) : option value :=
  match kvs with
  | [] => None
  | (k', v) :: rest => if String.eqb k k' then Some v else assoc k rest
  end.

(** Python's [==].  [bool] is a subtype of [int], so [True == 1]; lists
    compare element by element, dicts as finite maps; instances compare
    by identity, since the classes define no [__eq__]. *)
Definition as_int (v : value) : option Z :=
  match v with
  | VBool b => Some (if b then 1 else 0)%Z
  | VInt n => Some n
  | _ => None
  end.

(** [xs == ys] on lists, given the equality of elements. *)
Definition all2 (eq : value → value → bool) : list value → list value → bool :=
  fix go (xs ys : list value) {struct xs} : bool :=
    match xs, ys with
    | [], [] => true
    | x :: xs', y :: ys' => eq x y && go xs' ys'
    | _, _ => false
    end.

(** Every binding of [l] has an equal value under the same key in [kvs]. *)
Definition included (eq : value → value → bool) (kvs : list (string * value))
    : list (string * value) → bool :=
  fix go (l : list (string * value)) {struct l} : bool :=
    match l with
    | [] => true
    | (k, v) :: l' =>
        match assoc k kvs with
        | Some v' => eq v v'
        | None => false
        end && go l'
    end.

Fixpoint py_eq (a b : value) {struct a} : bool :=
  match a with
  | VNone => match b with VNone => true | _ => false end
  | VBool x => match as_int b with
               | Some n => Z.eqb (if x then 1 else 0) n
               | None => false
               end
  | VInt x => match as_int b with Some n => Z.eqb x n | None => false end
  | VStr x => match b with VStr y => String.eqb x y | _ => false end
  | VList xs => match b with VList ys => all2 py_eq xs ys | _ => false end
  | VDict kvs =>
      match b with
      | VDict kvs' => Nat.eqb (length kvs) (length kvs') && included py_eq kvs' kvs
      | _ => false
      end
  | VObj c r =>
      match b with
      | VObj c' r' => class_name_eqb c c' && Nat.eqb r r'
      | _ => false
      end
  end.

(** A dict has each key once, at every depth: the shape of every value
    that Python can build. *)
Fixpoint distinct (ks : list string) : bool :=
  match ks with
  | [] => true
  | k :: ks' => negb (existsb (String.eqb k) ks') && distinct ks'
  end.

Fixpoint unique_keys (v : value) : bool :=
  match v with
  | VList xs => forallb unique_keys xs
  | VDict kvs =>
      distinct (map fst kvs) &&
      (fix go (l : list (string * value)) : bool :=
         match l with
         | [] => true
         | (_, x) :: l' => unique_keys x && go l'
         end) kvs
  | _ => true
  end.

(** Truth value, as [if x:] tests it.  Instances are always true: no
    class defines [__bool__] or [__len__]. *)
Definition truthy (v : value) : bool :=
  match v with
  | VNone => false
  | VBool b => b
  | VInt n => negb (Z.eqb n 0)
  | VStr s => negb (String.eqb s "")
  | VList xs => match xs with [] => false | _ => true end
  | VDict kvs => match kvs with [] => false | _ => true end
  | VObj _ _ => true
  end.

(** ** Exceptions *)

(** A message is kept as the f-string that builds it: literal pieces and
    the values interpolated with [str()] or [repr()]. *)
Inductive frag : Type :=
| Lit (s : string)
| Str (v : value)
| Repr (v : value)
| Cut (v : value).  (* the decoder's complaint about a dump of [v] that
                       stopped at the first instance in it *)

Definition text := list frag.

Inductive exn_class : Type :=
(* defined in main.py *)
| TransportError
| VehicleNotFoundError
| InvalidDataError
| FileOperationError
| RouteNotFoundError
(* raised by the interpreter and the json module *)
| KeyError
| TypeError
| AttributeError
| ValueError
| RecursionError
| FileNotFoundError
| OSError
| JSONDecodeError.

Record exn : Type := Raise { exn_type : exn_class; exn_msg : text }.

(** [issubclass(c, TransportError)] *)
Definition is_transport_error (c : exn_class) : bool :=
  match c with
  | TransportError | VehicleNotFoundError | InvalidDataError
  | FileOperationError | RouteNotFoundError => true
  | _ => false
  end.

(** [str(e)]: the message; for [KeyError] it is the [repr] of the key, and
    the raise sites below store it in that form. *)
Definition str_exn (e : exn) : text := exn_msg e.

Definition res (A : Type) : Type := exn + A.

Definition no_attribute {A} (v : value) (name : string) : res A :=
  inl (Raise AttributeError
         [Lit "'"; Lit (type_name v); Lit "' object has no attribute '";
          Lit name; Lit "'"]).

Definition not_callable {A} (v : value) : res A :=
  inl (Raise TypeError [Lit "'"; Lit (type_name v); Lit "' object is not callable"]).

(** ** Operations of the interpreter on values *)

(** [data[key]] with a string key. *)
Definition subscript (data : value) (key : string) : res value :=
  match data with
  | VDict kvs =>
      match assoc key kvs with
      | Some v => inr v
      | None => inl (Raise KeyError [Repr (VStr key)])
      end
  | VList _ =>
      inl (Raise TypeError [Lit "list indices must be integers or slices, not str"])
  | VStr _ =>
      inl (Raise TypeError [Lit "string indices must be integers, not 'str'"])
  | _ =>
      inl (Raise TypeError [Lit "'"; Lit (type_name data); Lit "' object is not subscriptable"])
  end.

(** [data.get(key, default)] *)
Definition dict_get (data : value) (key : string) (default : value) : res value :=
  match data with
  | VDict kvs =>
      match assoc key kvs with
      | Some v => inr v
      | None => inr default
      end
  | _ => no_attribute data "get"
  end.

Fixpoint chars (s : string) : list value :=
  match s with
  | EmptyString => []
  | String c s' => VStr (String c EmptyString) :: chars s'
  end.

(** The elements a [for] loop or a comprehension visits. *)
Definition iter (v : value) : res (list value) :=
  match v with
  | VList xs => inr xs
  | VStr s => inr (chars s)
  | VDict kvs => inr (map (fun kv => VStr (fst kv)) kvs)
  | _ => inl (Raise TypeError [Lit "'"; Lit (type_name v); Lit "' object is not iterable"])
  end.

(** [xs.remove(x)] on a list: drops the first element equal to [x]. *)
Fixpoint list_remove (x : value) (xs : list value) : option (list value) :=
  match xs with
  | [] => None
  | y :: ys =>
      if py_eq y x then Some ys
      else match list_remove x ys with
           | Some ys' => Some (y :: ys')
           | None => None
           end
  end.

(** The same on a list of references, where equality is identity. *)
Fixpoint remove_ref (r : ref) (rs : list ref) : option (list ref) :=
  match rs with
  | [] => None
  | r' :: rs' =>
      if Nat.eqb r' r then Some rs'
      else match remove_ref r rs' with
           | Some rs'' => Some (r' :: rs'')
           | None => None
           end
  end.

(** [sep.join(parts)] on texts. *)
Fixpoint join (sep : text) (parts : list text) : text :=
  match parts with
  | [] => []
  | p :: rest =>
      match rest with
      | [] => p
      | _ :: _ => p ++ sep ++ join sep rest
      end
  end.

(** ** Instances *)

(** An instance holds the attributes its [__init__] creates.  Nothing in
    the program deletes an attribute, so they are record fields. *)
Record vehicle : Type := Vehicle_ {
  vehicle_id : value;
  model : value;
  capacity : value;
  type : value
}.

(** [setattr] on a route with the name of a method stores an instance
    attribute that hides the method; [shadowed] holds those. *)
Record route : Type := Route_ {
  route_id : value;
  number : value;
  start_point : value;
  end_point : value;
  vehicles : value;
  shadowed : gmap string value
}.

Record passenger : Type := Passenger_ {
  passenger_id : value;
  name : value;
  card_number : value
}.

(** The field [route_id] of a schedule is [of_route] here, the record
    [route] having taken the name. *)
Record schedule : Type := Schedule_ {
  schedule_id : value;
  of_route : value;
  departure_time : value;
  arrival_time : value
}.

(** The three collections hold instances of their class only:
    [create_route] and [create_passenger] check it, [load_from_json]
    builds them with [from_dict]. *)
Record transport_system : Type := TransportSystem_ {
  routes : list ref;
  passengers : list ref;
  schedules : list ref
}.

(** ** The world: object stores and the disk *)

Inductive file : Type :=
| Document (doc : value)   (* text that json.load parses to [doc] *)
| Malformed (e : exn)      (* text that json.load rejects with [e] *)
| Locked (e : exn).        (* [open] itself raises [e] *)

Record world : Type := World {
  vehicle_store : list vehicle;
  route_store : list route;
  passenger_store : list passenger;
  schedule_store : list schedule;
  system_store : list transport_system;
  disk : gmap string file
}.

Definition set_vehicle_store (f : list vehicle → list vehicle) (w : world) : world :=
  World (f (vehicle_store w)) (route_store w) (passenger_store w)
        (schedule_store w) (system_store w) (disk w).
Definition set_route_store (f : list route → list route) (w : world) : world :=
  World (vehicle_store w) (f (route_store w)) (passenger_store w)
        (schedule_store w) (system_store w) (disk w).
Definition set_passenger_store (f : list passenger → list passenger) (w : world) : world :=
  World (vehicle_store w) (route_store w) (f (passenger_store w))
        (schedule_store w) (system_store w) (disk w).
Definition set_schedule_store (f : list schedule → list schedule) (w : world) : world :=
  World (vehicle_store w) (route_store w) (passenger_store w)
        (f (schedule_store w)) (system_store w) (disk w).
Definition set_system_store (f : list transport_system → list transport_system)
    (w : world) : world :=
  World (vehicle_store w) (route_store w) (passenger_store w)
        (schedule_store w) (f (system_store w)) (disk w).
Definition set_disk (f : gmap string file → gmap string file) (w : world) : world :=
  World (vehicle_store w) (route_store w) (passenger_store w)
        (schedule_store w) (system_store w) (f (disk w)).

(** ** The monad: state and exceptions *)

Definition M (A : Type) : Type := world → res A * world.

Definition ret {A} (a : A) : M A := fun w => (inr a, w).
Definition raise {A} (e : exn) : M A := fun w => (inl e, w).
Definition bind {A B} (m : M A) (k : A → M B) : M B :=
  fun w =>
    match m w with
    | (inr a, w') => k a w'
    | (inl e, w') => (inl e, w')
    end.
Definition lift {A} (r : res A) : M A := fun w => (r, w).

(** [try: m  except Exception as e: h e].  Every exception of the model
    derives from [Exception]. *)
Definition try_except {A} (m : M A) (h : exn → M A) : M A :=
  fun w =>
    match m w with
    | (inr a, w') => (inr a, w')
    | (inl e, w') => h e w'
    end.

Notation "'let*' x ':=' m 'in' k" := (bind m (fun x => k))
  (at level 10, x name, m at level 100, k at level 200).

Fixpoint for_each {A} (xs : list A) (body : A → M unit) : M unit :=
  match xs with
  | [] => ret tt
  | x :: xs' => let* _ := body x in for_each xs' body
  end.

(** A list comprehension [[f x for x in xs]]. *)
Fixpoint comprehension {A B} (f : A → M B) (xs : list A) : M (list B) :=
  match xs with
  | [] => ret []
  | x :: xs' =>
      let* y := f x in
      let* ys := comprehension f xs' in
      ret (y :: ys)
  end.

Fixpoint map_res {A B} (f : A → res B) (xs : list A) : res (list B) :=
  match xs with
  | [] => inr []
  | x :: xs' =>
      match f x with
      | inl e => inl e
      | inr y => match map_res f xs' with
                 | inl e => inl e
                 | inr ys => inr (y :: ys)
                 end
      end
  end.

(** Reading and writing an instance.  A reference outside its store has
    no counterpart in Python; reading through one fails. *)
Definition deref {A} (c : class_name) (store : world → list A) (r : ref) : M A :=
  fun w =>
    match store w !! r with
    | Some x => (inr x, w)
    | None => (no_attribute (VObj c r) "__dict__", w)
    end.

Definition get_vehicle := deref CVehicle vehicle_store.
Definition get_route := deref CRoute route_store.
Definition get_passenger := deref CPassenger passenger_store.
Definition get_schedule := deref CSchedule schedule_store.
Definition get_system := deref CTransportSystem system_store.

(** The world in which the instance at [r] has become [x]. *)
Definition with_route (r : ref) (x : route) (w : world) : world :=
  set_route_store (fun s => <[r := x]> s) w.
Definition with_system (r : ref) (x : transport_system) (w : world) : world :=
  set_system_store (fun s => <[r := x]> s) w.

Definition put_route (r : ref) (x : route) : M unit :=
  fun w => (inr tt, with_route r x w).
Definition put_system (r : ref) (x : transport_system) : M unit :=
  fun w => (inr tt, with_system r x w).

Definition new_vehicle (x : vehicle) : M ref :=
  fun w => (inr (length (vehicle_store w)), set_vehicle_store (fun s => (s ++ [x])) w).
Definition new_route (x : route) : M ref :=
  fun w => (inr (length (route_store w)), set_route_store (fun s => (s ++ [x])) w).
Definition new_passenger (x : passenger) : M ref :=
  fun w => (inr (length (passenger_store w)), set_passenger_store (fun s => (s ++ [x])) w).
Definition new_schedule (x : schedule) : M ref :=
  fun w => (inr (length (schedule_store w)), set_schedule_store (fun s => (s ++ [x])) w).
Definition new_system (x : transport_system) : M ref :=
  fun w => (inr (length (system_store w)), set_system_store (fun s => (s ++ [x])) w).

(** The instance attribute [attr] of each class, if there is one. *)
Definition vehicle_attr (x : vehicle) (attr : string) : option value :=
  if String.eqb attr "vehicle_id" then Some (vehicle_id x)
  else if String.eqb attr "model" then Some (model x)
  else if String.eqb attr "capacity" then Some (capacity x)
  else if String.eqb attr "type" then Some (type x)
  else None.

Definition route_attr (x : route) (attr : string) : option value :=
  if String.eqb attr "route_id" then Some (route_id x)
  else if String.eqb attr "number" then Some (number x)
  else if String.eqb attr "start_point" then Some (start_point x)
  else if String.eqb attr "end_point" then Some (end_point x)
  else if String.eqb attr "vehicles" then Some (vehicles x)
  else shadowed x !! attr.

Definition passenger_attr (x : passenger) (attr : string) : option value :=
  if String.eqb attr "passenger_id" then Some (passenger_id x)
  else if String.eqb attr "name" then Some (name x)
  else if String.eqb attr "card_number" then Some (card_number x)
  else None.

Definition schedule_attr (x : schedule) (attr : string) : option value :=
  if String.eqb attr "schedule_id" then Some (schedule_id x)
  else if String.eqb attr "route_id" then Some (of_route x)
  else if String.eqb attr "departure_time" then Some (departure_time x)
  else if String.eqb attr "arrival_time" then Some (arrival_time x)
  else None.

(** [v.attr], reading a data attribute of a vehicle, a route, a passenger
    or a schedule.  (The lists of a registry are read with [get_system].) *)
Definition getattr (v : value) (attr : string) : M value :=
  fun w =>
    let found :=
      match v with
      | VObj CVehicle r => x ← vehicle_store w !! r; vehicle_attr x attr
      | VObj CRoute r => x ← route_store w !! r; route_attr x attr
      | VObj CPassenger r => x ← passenger_store w !! r; passenger_attr x attr
      | VObj CSchedule r => x ← schedule_store w !! r; schedule_attr x attr
      | _ => None
      end in
    match found with
    | Some x => (inr x, w)
    | None => (no_attribute v attr, w)
    end.

(** [self.name(...)]: an instance attribute of that name hides the method,
    and calling the value it holds fails. *)
Definition method {A} (self : ref) (name : string) (body : M A) : M A :=
  let* x := get_route self in
  match shadowed x !! name with
  | Some v => lift (not_callable v)
  | None => body
  end.

(** ** class Vehicle *)

Module Vehicle.

(** [Vehicle(vehicle_id, model, capacity, vehicle_type)] *)
Definition init (vehicle_id model capacity vehicle_type : value) : M ref :=
  new_vehicle (Vehicle_ vehicle_id model capacity vehicle_type).

Definition to_dict (x : vehicle) : value :=
  VDict [("vehicle_id", vehicle_id x);
         ("model", model x);
         ("capacity", capacity x);
         ("type", type x)].

Definition from_dict (data : value) : M ref :=
  let* vehicle_id := lift (subscript data "vehicle_id") in
  let* model := lift (subscript data "model") in
  let* capacity := lift (subscript data "capacity") in
  let* vehicle_type := lift (subscript data "type") in
  init vehicle_id model capacity vehicle_type.

End Vehicle.

(** ** class Route *)

Module Route.

(** [Route(route_id, number, start_point, end_point)] *)
Definition init (route_id number start_point end_point : value) : M ref :=
  new_route (Route_ route_id number start_point end_point (VList []) ∅).

Definition add_vehicle (self : ref) (vehicle : value) : M unit :=
  if negb (isinstance vehicle CVehicle) then
    raise (Raise InvalidDataError [Lit "Можно добавить только объект Vehicle"])
  else
    let* x := get_route self in
    match vehicles x with
    | VList vs =>
        put_route self
          (Route_ (route_id x) (number x) (start_point x) (end_point x)
                  (VList (vs ++ [vehicle])) (shadowed x))
    | other => lift (no_attribute other "append")
    end.

(** The loop of [find_vehicle] over the elements still to visit. *)
Fixpoint find_vehicle_in (vs : list value) (vehicle_id : value) : M value :=
  match vs with
  | [] => ret VNone
  | vehicle :: rest =>
      let* id := getattr vehicle "vehicle_id" in
      if py_eq id vehicle_id then ret vehicle
      else find_vehicle_in rest vehicle_id
  end.

Definition find_vehicle (self : ref) (vehicle_id : value) : M value :=
  let* x := get_route self in
  let* vs := lift (iter (vehicles x)) in
  find_vehicle_in vs vehicle_id.

(** [remove_vehicle]; [fmt] is the interpolation [{...}] of a value into
    an f-string, which asks the value for its [str] (given by [str] below)
    and can fail before the error is built. *)
Definition remove_vehicle (fmt : value → M text) (self : ref) (vehicle_id : value)
    : M unit :=
  let* vehicle := method self "find_vehicle" (find_vehicle self vehicle_id) in
  if truthy vehicle then
    let* x := get_route self in
    match vehicles x with
    | VList vs =>
        match list_remove vehicle vs with
        | Some vs' =>
            put_route self
              (Route_ (route_id x) (number x) (start_point x) (end_point x)
                      (VList vs') (shadowed x))
        | None => raise (Raise ValueError [Lit "list.remove(x): x not in list"])
        end
    | other => lift (no_attribute other "remove")
    end
  else
    let* shown := fmt vehicle_id in
    raise (Raise VehicleNotFoundError
             ([Lit "Транспортное средство с ID "] ++ shown ++
              [Lit " не найдено в маршруте"])).

(** [to_dict]; [call] is [vehicle.to_dict()] on an element of the list,
    whatever its class turns out to be. *)
Definition to_dict (call : value → res value) (x : route) : res value :=
  match iter (vehicles x) with
  | inl e => inl e
  | inr vs =>
      match map_res call vs with
      | inl e => inl e
      | inr ds =>
          inr (VDict [("route_id", route_id x);
                      ("number", number x);
                      ("start_point", start_point x);
                      ("end_point", end_point x);
                      ("vehicles", VList ds)])
      end
  end.

(** The loop of [from_dict] over the nested mappings. *)
Definition add_vehicles (route : ref) (items : list value) : M unit :=
  for_each items (fun vehicle_data =>
    let* v := Vehicle.from_dict vehicle_data in
    add_vehicle route (VObj CVehicle v)).

Definition from_dict (data : value) : M ref :=
  let* route_id := lift (subscript data "route_id") in
  let* number := lift (subscript data "number") in
  let* start_point := lift (subscript data "start_point") in
  let* end_point := lift (subscript data "end_point") in
  let* route := init route_id number start_point end_point in
  let* vs := lift (dict_get data "vehicles" (VList [])) in
  let* items := lift (iter vs) in
  let* _ := add_vehicles route items in
  ret route.

(** Names that begin with two underscores and that the class body does
    not define: [__class__], [__dict__], [__doc__], [__eq__] and the
    others that an instance gets from [object] and from the class
    machinery.  Which of them exist, and what assigning to one does,
    depends on the interpreter; the model does not cover them, and every
    statement about an update with arbitrary keywords leaves them out. *)
Definition special (key : string) : bool :=
  String.prefix "__" key &&
  negb (String.eqb key "__init__" || String.eqb key "__str__").

(** Names the class body defines; [hasattr] finds them on every route. *)
Definition class_attrs : list string :=
  ["__init__"; "add_vehicle"; "remove_vehicle"; "find_vehicle";
   "to_dict"; "from_dict"; "__str__"].

(** Names [__init__] binds on the instance. *)
Definition instance_attrs : list string :=
  ["route_id"; "number"; "start_point"; "end_point"; "vehicles"].

(** [hasattr(route, key)] for a [key] that is not [special]. *)
Definition hasattr (key : string) : bool :=
  existsb (String.eqb key) instance_attrs || existsb (String.eqb key) class_attrs.

(** [setattr(route, key, value)] for a key that [hasattr] accepts. *)
Definition setattr (x : route) (key : string) (v : value) : route :=
  if String.eqb key "route_id" then
    Route_ v (number x) (start_point x) (end_point x) (vehicles x) (shadowed x)
  else if String.eqb key "number" then
    Route_ (route_id x) v (start_point x) (end_point x) (vehicles x) (shadowed x)
  else if String.eqb key "start_point" then
    Route_ (route_id x) (number x) v (end_point x) (vehicles x) (shadowed x)
  else if String.eqb key "end_point" then
    Route_ (route_id x) (number x) (start_point x) v (vehicles x) (shadowed x)
  else if String.eqb key "vehicles" then
    Route_ (route_id x) (number x) (start_point x) (end_point x) v (shadowed x)
  else
    Route_ (route_id x) (number x) (start_point x) (end_point x) (vehicles x)
           (<[key := v]> (shadowed x)).

(** [__str__]; [fmt] is the interpolation [{...}] of a value into an
    f-string, which asks the value for its [str]. *)
Definition __str__ (fmt : value → M text) (self : ref) : M text :=
  let* x := get_route self in
  let* vs := lift (iter (vehicles x)) in
  let* parts :=
    comprehension (fun v =>
      let* model := getattr v "model" in
      let* m := fmt model in
      let* vehicle_id := getattr v "vehicle_id" in
      let* i := fmt vehicle_id in
      ret (m ++ [Lit "(ID:"] ++ i ++ [Lit ")"])) vs in
  let vehicles_info := join [Lit ", "] parts in
  let* number := fmt (number x) in
  let* start_point := fmt (start_point x) in
  let* end_point := fmt (end_point x) in
  ret ([Lit "Маршрут "] ++ number ++ [Lit ": "] ++ start_point ++ [Lit " - "] ++
       end_point ++ [Lit " | Транспорт: ["] ++ vehicles_info ++ [Lit "]"]).

End Route.

(** ** class Passenger *)

Module Passenger.

Definition init (passenger_id name card_number : value) : M ref :=
  new_passenger (Passenger_ passenger_id name card_number).

Definition to_dict (x : passenger) : value :=
  VDict [("passenger_id", passenger_id x);
         ("name", name x);
         ("card_number", card_number x)].

Definition from_dict (data : value) : M ref :=
  let* passenger_id := lift (subscript data "passenger_id") in
  let* name := lift (subscript data "name") in
  let* card_number := lift (subscript data "card_number") in
  init passenger_id name card_number.

Definition __str__ (fmt : value → M text) (self : ref) : M text :=
  let* x := get_passenger self in
  let* name := fmt (name x) in
  let* card_number := fmt (card_number x) in
  let* passenger_id := fmt (passenger_id x) in
  ret ([Lit "Пассажир: "] ++ name ++ [Lit " (Карта: "] ++ card_number ++
       [Lit ", ID: "] ++ passenger_id ++ [Lit ")"]).

End Passenger.

(** ** class Schedule *)

Module Schedule.

Definition init (schedule_id route_id departure_time arrival_time : value) : M ref :=
  new_schedule (Schedule_ schedule_id route_id departure_time arrival_time).

Definition to_dict (x : schedule) : value :=
  VDict [("schedule_id", schedule_id x);
         ("route_id", of_route x);
         ("departure_time", departure_time x);
         ("arrival_time", arrival_time x)].

Definition from_dict (data : value) : M ref :=
  let* schedule_id := lift (subscript data "schedule_id") in
  let* route_id := lift (subscript data "route_id") in
  let* departure_time := lift (subscript data "departure_time") in
  let* arrival_time := lift (subscript data "arrival_time") in
  init schedule_id route_id departure_time arrival_time.

Definition __str__ (fmt : value → M text) (self : ref) : M text :=
  let* x := get_schedule self in
  let* schedule_id := fmt (schedule_id x) in
  let* departure_time := fmt (departure_time x) in
  let* arrival_time := fmt (arrival_time x) in
  let* route_id := fmt (of_route x) in
  ret ([Lit "Расписание ID "] ++ schedule_id ++ [Lit ": "] ++ departure_time ++
       [Lit " - "] ++ arrival_time ++ [Lit " (Маршрут ID: "] ++ route_id ++ [Lit ")"]).

End Schedule.

(** ** Method dispatch for [to_dict] *)

(** The default of [sys.getrecursionlimit()]. *)
Definition recursion_limit : nat := 1000.

(** [v.to_dict()] with [depth] nested calls left.  A route asks each
    element of its list in turn, so a list that holds routes nests, and a
    route that holds itself ends in [RecursionError]. *)
Fixpoint call_to_dict (depth : nat) (w : world) (v : value) : res value :=
  match depth with
  | O => inl (Raise RecursionError [Lit "maximum recursion depth exceeded"])
  | S depth' =>
      match v with
      | VObj CVehicle r =>
          match vehicle_store w !! r with
          | Some x => inr (Vehicle.to_dict x)
          | None => no_attribute v "to_dict"
          end
      | VObj CRoute r =>
          match route_store w !! r with
          | Some x =>
              match shadowed x !! "to_dict" with
              | Some f => not_callable f
              | None => Route.to_dict (call_to_dict depth' w) x
              end
          | None => no_attribute v "to_dict"
          end
      | VObj CPassenger r =>
          match passenger_store w !! r with
          | Some x => inr (Passenger.to_dict x)
          | None => no_attribute v "to_dict"
          end
      | VObj CSchedule r =>
          match schedule_store w !! r with
          | Some x => inr (Schedule.to_dict x)
          | None => no_attribute v "to_dict"
          end
      | _ => no_attribute v "to_dict"
      end
  end.

(** ** [str] and standard output *)

(** [str(v)], as an f-string interpolates it, with [depth] nested calls
    left.  A route, a passenger and a schedule answer with their
    [__str__], which interpolates their fields in turn; every other value
    has a text of its own, kept as [Str v] (for a vehicle and a registry
    the default of [object], for a list or a dict the [repr] of the
    elements). *)
Fixpoint str (depth : nat) (v : value) : M text :=
  match depth, v with
  | S depth', VObj CRoute r => Route.__str__ (str depth') r
  | S depth', VObj CPassenger r => Passenger.__str__ (str depth') r
  | S depth', VObj CSchedule r => Schedule.__str__ (str depth') r
  | O, VObj CRoute _ | O, VObj CPassenger _ | O, VObj CSchedule _ =>
      raise (Raise RecursionError [Lit "maximum recursion depth exceeded"])
  | _, _ => ret [Str v]
  end.

Arguments str : simpl never.

(** What a run has printed, one text for each call of [print], and how
    it ended.  The stream is taken to accept every text. *)
Definition printed : Type := list text * res unit.

Definition then_print (a b : printed) : printed :=
  match snd a with
  | inl e => (fst a, inl e)
  | inr _ => (fst a ++ fst b, snd b)
  end.

(** [for x in xs: print(f"  {x}")] over instances of class [c]. *)
Fixpoint print_each (c : class_name) (xs : list ref) (w : world) : printed :=
  match xs with
  | [] => ([], inr tt)
  | x :: xs' =>
      match fst (str recursion_limit (VObj c x) w) with
      | inl e => ([], inl e)
      | inr t => then_print ([Lit "  " :: t], inr tt) (print_each c xs' w)
      end
  end.

(** The newline of ["\n"]. *)
Definition nl : string := String (Ascii.ascii_of_nat 10) EmptyString.

(** ["=" * 50] *)
Definition rule : string := "==================================================".

(** ** The json module and the files *)

(** The first instance that [json.dump] meets; it cannot serialise one. *)
Fixpoint first_instance (v : value) : option class_name :=
  match v with
  | VObj c _ => Some c
  | VList xs =>
      (fix go (l : list value) : option class_name :=
         match l with
         | [] => None
         | x :: l' =>
             match first_instance x with
             | Some c => Some c
             | None => go l'
             end
         end) xs
  | VDict kvs =>
      (fix go (l : list (string * value)) : option class_name :=
         match l with
         | [] => None
         | (_, x) :: l' =>
             match first_instance x with
             | Some c => Some c
             | None => go l'
             end
         end) kvs
  | _ => None
  end.

(** [with open(filename, 'w') as f: json.dump(data, f, ...)].  The file is
    the document it will parse back to: on data without instances
    [json.load] returns what [json.dump] was given.  A dump that fails
    has already written the beginning of the text. *)
Definition json_dump (data : value) (filename : string) : M unit :=
  fun w =>
    match disk w !! filename with
    | Some (Locked e) => (inl e, w)
    | _ =>
        match first_instance data with
        | Some c =>
            (inl (Raise TypeError
                    [Lit "Object of type "; Lit (class_str c);
                     Lit " is not JSON serializable"]),
             set_disk (fun d => <[filename := Malformed (Raise JSONDecodeError [Cut data])]> d) w)
        | None =>
            (inr tt, set_disk (fun d => <[filename := Document data]> d) w)
        end
    end.

(** [with open(filename, 'r') as f: data = json.load(f)] *)
Definition json_load (filename : string) : M value :=
  fun w =>
    match disk w !! filename with
    | None =>
        (inl (Raise FileNotFoundError
                [Lit "[Errno 2] No such file or directory: "; Repr (VStr filename)]), w)
    | Some (Locked e) => (inl e, w)
    | Some (Malformed e) => (inl e, w)
    | Some (Document doc) => (inr doc, w)
    end.

(** ** class TransportSystem *)

Module TransportSystem.

(** [TransportSystem()] *)
Definition init : M ref :=
  new_system (TransportSystem_ [] [] []).

(** [isinstance(route, Route)] holds of the references of class [Route]
    and of nothing else. *)
Definition create_route (self : ref) (route : value) : M unit :=
  match route with
  | VObj CRoute r =>
      let* s := get_system self in
      put_system self
        (TransportSystem_ (routes s ++ [r]) (passengers s) (schedules s))
  | _ => raise (Raise InvalidDataError [Lit "Можно добавить только объект Route"])
  end.

(** The loop of [find_route] over the routes still to visit. *)
Fixpoint find_route_in (rs : list ref) (route_id' : value) : M (option ref) :=
  match rs with
  | [] => ret None
  | route :: rest =>
      let* x := get_route route in
      if py_eq (route_id x) route_id' then ret (Some route)
      else find_route_in rest route_id'
  end.

Definition find_route (self : ref) (route_id : value) : M (option ref) :=
  let* s := get_system self in
  find_route_in (routes s) route_id.

(** [if route:] holds of every instance, so it tells [None] apart.  The
    f-string of the error formats the id first, which runs the [__str__]
    of an id that is a route, a passenger or a schedule. *)
Definition read_route (self : ref) (route_id : value) : M ref :=
  let* found := find_route self route_id in
  match found with
  | Some route => ret route
  | None =>
      let* shown := str recursion_limit route_id in
      raise (Raise RouteNotFoundError
               ([Lit "Маршрут с ID "] ++ shown ++ [Lit " не найден"]))
  end.

(** The parameters of [update_route].  A call cannot pass one of them
    again among the keywords: binding the arguments fails before the body
    runs. *)
Definition parameters : list string := ["self"; "route_id"].

(** [self.update_route(route_id, **kwargs)] *)
Definition update_route (self : ref) (route_id : value)
    (kwargs : list (string * value)) : M unit :=
  match List.find (fun kv => existsb (String.eqb (fst kv)) parameters) kwargs with
  | Some kv =>
      raise (Raise TypeError
               [Lit "TransportSystem.update_route() got multiple values for argument '";
                Lit (fst kv); Lit "'"])
  | None =>
      let* route := read_route self route_id in
      for_each kwargs (fun kv =>
        if Route.hasattr (fst kv) then
          let* x := get_route route in
          put_route route (Route.setattr x (fst kv) (snd kv))
        else ret tt)
  end.

Definition delete_route (self : ref) (route_id : value) : M unit :=
  let* route := read_route self route_id in
  let* s := get_system self in
  match remove_ref route (routes s) with
  | Some rs => put_system self (TransportSystem_ rs (passengers s) (schedules s))
  | None => raise (Raise ValueError [Lit "list.remove(x): x not in list"])
  end.

Definition create_passenger (self : ref) (passenger : value) : M unit :=
  match passenger with
  | VObj CPassenger r =>
      let* s := get_system self in
      put_system self
        (TransportSystem_ (routes s) (passengers s ++ [r]) (schedules s))
  | _ => raise (Raise InvalidDataError [Lit "Можно добавить только объект Passenger"])
  end.

Fixpoint read_passenger_in (ps : list ref) (passenger_id' : value) : M ref :=
  match ps with
  | [] =>
      let* shown := str recursion_limit passenger_id' in
      raise (Raise TransportError
               ([Lit "Пассажир с ID "] ++ shown ++ [Lit " не найден"]))
  | passenger :: rest =>
      let* x := get_passenger passenger in
      if py_eq (passenger_id x) passenger_id' then ret passenger
      else read_passenger_in rest passenger_id'
  end.

Definition read_passenger (self : ref) (passenger_id : value) : M ref :=
  let* s := get_system self in
  read_passenger_in (passengers s) passenger_id.

(** [[x.to_dict() for x in xs]] over one of the collections. *)
Definition to_dicts (c : class_name) (xs : list ref) : M (list value) :=
  fun w => (map_res (fun r => call_to_dict recursion_limit w (VObj c r)) xs, w).

(** The body of the [try] in [save_to_json]. *)
Definition save_to_json_try (self : ref) (filename : string) : M unit :=
  let* s := get_system self in
  let* rs := to_dicts CRoute (routes s) in
  let* ps := to_dicts CPassenger (passengers s) in
  let* ss := to_dicts CSchedule (schedules s) in
  let data := VDict [("routes", VList rs);
                     ("passengers", VList ps);
                     ("schedules", VList ss)] in
  json_dump data filename.

Definition save_to_json (self : ref) (filename : string) : M unit :=
  try_except
    (save_to_json_try self filename)
    (fun e => raise (Raise FileOperationError
                       (Lit "Ошибка сохранения JSON: " :: str_exn e))).

(** [[cls.from_dict(d) for d in data.get(key, [])]] *)
Definition load_list (from_dict : value → M ref) (data : value) (key : string)
    : M (list ref) :=
  let* xs := lift (dict_get data key (VList [])) in
  let* items := lift (iter xs) in
  comprehension from_dict items.

(** The three assignments of [load_from_json], in order. *)
Definition assign_collections (self : ref) (data : value) : M unit :=
  let* rs := load_list Route.from_dict data "routes" in
  let* s := get_system self in
  let* _ := put_system self (TransportSystem_ rs (passengers s) (schedules s)) in
  let* ps := load_list Passenger.from_dict data "passengers" in
  let* s := get_system self in
  let* _ := put_system self (TransportSystem_ (routes s) ps (schedules s)) in
  let* ss := load_list Schedule.from_dict data "schedules" in
  let* s := get_system self in
  put_system self (TransportSystem_ (routes s) (passengers s) ss).

(** The body of the [try] in [load_from_json]. *)
Definition load_from_json_try (self : ref) (filename : string) : M unit :=
  let* data := json_load filename in
  assign_collections self data.

Definition load_from_json (self : ref) (filename : string) : M unit :=
  try_except
    (load_from_json_try self filename)
    (fun e => raise (Raise FileOperationError
                       (Lit "Ошибка загрузки JSON: " :: str_exn e))).

(** The registry is read once the heading of the routes is out. *)
Definition display_all_data (self : ref) (w : world) : printed :=
  then_print
    ([[Lit (nl ++ rule)]; [Lit "ДАННЫЕ ТРАНСПОРТНОЙ СИСТЕМЫ"]; [Lit rule];
      [Lit (nl ++ "МАРШРУТЫ:")]], inr tt)
    match fst (get_system self w) with
    | inl e => ([], inl e)
    | inr s =>
        then_print (print_each CRoute (routes s) w)
          (then_print ([[Lit (nl ++ "ПАССАЖИРЫ:")]], inr tt)
             (then_print (print_each CPassenger (passengers s) w)
                (then_print ([[Lit (nl ++ "РАСПИСАНИЯ:")]], inr tt)
                   (print_each CSchedule (schedules s) w))))
    end.

End TransportSystem.

(** ** Vocabulary of the statements *)

(** The route at [r] exists and its id compares to [id] as [b] says. *)
Definition route_has_id (w : world) (id : value) (b : bool) (r : ref) : Prop :=
  ∃ x, route_store w !! r = Some x ∧ py_eq (route_id x) id = b.

Definition passenger_has_id (w : world) (id : value) (b : bool) (r : ref) : Prop :=
  ∃ x, passenger_store w !! r = Some x ∧ py_eq (passenger_id x) id = b.

(** The element [v] of a vehicle list has a [vehicle_id], which compares
    to [id] as [b] says. *)
Definition vehicle_has_id (w : world) (id : value) (b : bool) (v : value) : Prop :=
  ∃ i, getattr v "vehicle_id" w = (inr i, w) ∧ py_eq i id = b.

(** [x] is the first element of [l] that satisfies [hit]; those before it
    satisfy [miss]. *)
Definition first_such {A} (miss hit : A → Prop) (l : list A) (x : A) : Prop :=
  ∃ pre post, l = (pre ++ x :: post) ∧ Forall miss pre ∧ hit x.

(** [str(v)] is a text of [v]'s own: [v] is not a route, a passenger or
    a schedule, whose [__str__] runs code that can fail. *)
Definition own_text (v : value) : bool :=
  match v with
  | VObj CRoute _ | VObj CPassenger _ | VObj CSchedule _ => false
  | _ => true
  end.

(** Keywords that a call of [update_route] can pass and that the model
    covers: no parameter of the method and no [special] name. *)
Definition keyword (key : string) : bool :=
  negb (existsb (String.eqb key) TransportSystem.parameters) &&
  negb (Route.special key).

Definition keywords (kwargs : list (string * value)) : Prop :=
  Forall (fun kv => keyword (fst kv) = true) kwargs.

(** The route that the loop of [update_route] leaves behind. *)
Definition apply_kwargs (x : route) (kwargs : list (string * value)) : route :=
  fold_left
    (fun y kv => if Route.hasattr (fst kv) then Route.setattr y (fst kv) (snd kv) else y)
    kwargs x.

(** ** What a mapping describes *)

(** Keys that [from_dict] reads with [data[key]]. *)
Definition vehicle_keys : list string := ["vehicle_id"; "model"; "capacity"; "type"].
Definition route_keys : list string := ["route_id"; "number"; "start_point"; "end_point"].
Definition passenger_keys : list string := ["passenger_id"; "name"; "card_number"].
Definition schedule_keys : list string :=
  ["schedule_id"; "route_id"; "departure_time"; "arrival_time"].

(** The first of [keys] that the mapping lacks. *)
Fixpoint first_missing (keys : list string) (kvs : list (string * value)) : option string :=
  match keys with
  | [] => None
  | k :: keys' =>
      match assoc k kvs with
      | None => Some k
      | Some _ => first_missing keys' kvs
      end
  end.

Definition res_bind {A B} (r : res A) (k : A → res B) : res B :=
  match r with
  | inl e => inl e
  | inr a => k a
  end.

Notation "'let+' x ':=' r 'in' k" := (res_bind r (fun x => k))
  (at level 10, x name, r at level 100, k at level 200).

(** The records that [from_dict] builds, before they are given a place in
    the store. *)
Definition vehicle_of_dict (data : value) : res vehicle :=
  let+ vehicle_id := subscript data "vehicle_id" in
  let+ model := subscript data "model" in
  let+ capacity := subscript data "capacity" in
  let+ vehicle_type := subscript data "type" in
  inr (Vehicle_ vehicle_id model capacity vehicle_type).

Definition passenger_of_dict (data : value) : res passenger :=
  let+ passenger_id := subscript data "passenger_id" in
  let+ name := subscript data "name" in
  let+ card_number := subscript data "card_number" in
  inr (Passenger_ passenger_id name card_number).

Definition schedule_of_dict (data : value) : res schedule :=
  let+ schedule_id := subscript data "schedule_id" in
  let+ route_id := subscript data "route_id" in
  let+ departure_time := subscript data "departure_time" in
  let+ arrival_time := subscript data "arrival_time" in
  inr (Schedule_ schedule_id route_id departure_time arrival_time).

(** A route before its vehicles are added. *)
Definition route_of_dict (data : value) : res route :=
  let+ route_id := subscript data "route_id" in
  let+ number := subscript data "number" in
  let+ start_point := subscript data "start_point" in
  let+ end_point := subscript data "end_point" in
  inr (Route_ route_id number start_point end_point (VList []) ∅).

(** The nested mappings under ["vehicles"]. *)
Definition vehicle_items (data : value) : res (list value) :=
  let+ vs := dict_get data "vehicles" (VList []) in
  iter vs.

(** A route and the vehicles under it, as a mapping describes them. *)
Definition route_entry (data : value) : res (route * list vehicle) :=
  let+ x := route_of_dict data in
  let+ items := vehicle_items data in
  let+ vs := map_res vehicle_of_dict items in
  inr (x, vs).

(** The entries of one collection of the document; a missing key stands
    for the empty list. *)
Definition entries {A} (decode : value → res A) (data : value) (key : string)
    : res (list A) :=
  let+ xs := dict_get data key (VList []) in
  let+ items := iter xs in
  map_res decode items.

(** The three collections of a document, in the order in which
    [load_from_json] rebuilds them; the first failure wins. *)
Definition decode (data : value)
    : res (list (route * list vehicle) * list passenger * list schedule) :=
  let+ es := entries route_entry data "routes" in
  let+ ps := entries passenger_of_dict data "passengers" in
  let+ ss := entries schedule_of_dict data "schedules" in
  inr (es, ps, ss).

(** What [load_from_json] raises when [e] is raised inside its [try]. *)
Definition load_failure (e : exn) : exn :=
  Raise FileOperationError (Lit "Ошибка загрузки JSON: " :: str_exn e).

(** What [open] raises on a name that is not on the disk. *)
Definition no_such_file (filename : string) : exn :=
  Raise FileNotFoundError
    [Lit "[Errno 2] No such file or directory: "; Repr (VStr filename)].

(** ** Worlds compared *)

(** References to the [n] instances allocated from [base] on. *)
Definition fresh (c : class_name) (base n : nat) : list value :=
  map (VObj c) (seq base n).

Definition with_vehicles (x : route) (vs : value) : route :=
  Route_ (route_id x) (number x) (start_point x) (end_point x) vs (shadowed x).

(** The routes as they end up in the store: each refers to its own
    vehicles, which are allocated from [base] on in document order. *)
Fixpoint placed (base : nat) (es : list (route * list vehicle)) : list route :=
  match es with
  | [] => []
  | (x, vs) :: es' =>
      with_vehicles x (VList (fresh CVehicle base (length vs)))
        :: placed (base + length vs) es'
  end.

Definition all_vehicles (es : list (route * list vehicle)) : list vehicle :=
  concat (map snd es).

(** The world after a load that went through: the new instances follow
    those of [w], and the registry [self] refers to them and to nothing
    else. *)
Definition loaded (w : world) (self : ref) (es : list (route * list vehicle))
    (ps : list passenger) (ss : list schedule) : world :=
  World (vehicle_store w ++ all_vehicles es)
        (route_store w ++ placed (length (vehicle_store w)) es)
        (passenger_store w ++ ps)
        (schedule_store w ++ ss)
        (<[self := TransportSystem_
                     (seq (length (route_store w)) (length es))
                     (seq (length (passenger_store w)) (length ps))
                     (seq (length (schedule_store w)) (length ss))]>
           (system_store w))
        (disk w).

(** [w'] is [w] with more instances: those of [w] are where they were and
    as they were, the registries and the disk are the same. *)
Definition grows (w w' : world) : Prop :=
  vehicle_store w `prefix_of` vehicle_store w' ∧
  route_store w `prefix_of` route_store w' ∧
  passenger_store w `prefix_of` passenger_store w' ∧
  schedule_store w `prefix_of` schedule_store w' ∧
  system_store w' = system_store w ∧
  disk w' = disk w.

(** [w'] has the instances of [w], unchanged, and the same disk; the
    registries may differ. *)
Definition keeps_instances (w w' : world) : Prop :=
  vehicle_store w `prefix_of` vehicle_store w' ∧
  route_store w `prefix_of` route_store w' ∧
  passenger_store w `prefix_of` passenger_store w' ∧
  schedule_store w `prefix_of` schedule_store w' ∧
  disk w' = disk w.

(** The instances and the registries of [w'] are those of [w]. *)
Definition same_objects (w w' : world) : Prop :=
  vehicle_store w' = vehicle_store w ∧
  route_store w' = route_store w ∧
  passenger_store w' = passenger_store w ∧
  schedule_store w' = schedule_store w ∧
  system_store w' = system_store w.

(** ** What a registry holds, field by field *)

(** The vehicle behind an element of a route's list. *)
Definition vehicle_at (w : world) (v : value) : option vehicle :=
  match v with
  | VObj CVehicle r => vehicle_store w !! r
  | _ => None
  end.

(** A route as a comparison field by field sees it: its four fields and,
    in order, the vehicles of its list.  The route of the pair carries the
    fields; its own list is empty. *)
Definition view_route (w : world) (r : ref) : option (route * list vehicle) :=
  x ← route_store w !! r;
  match vehicles x with
  | VList vs =>
      vs' ← mapM (vehicle_at w) vs;
      Some (Route_ (route_id x) (number x) (start_point x) (end_point x) (VList []) ∅, vs')
  | _ => None
  end.

(** The route of a pair carries fields only. *)
Definition fields_only (e : route * list vehicle) : Prop :=
  vehicles (fst e) = VList [] ∧ shadowed (fst e) = ∅.

(** The contents of the three collections of a registry, in order. *)
Definition snapshot (w : world) (self : ref)
    : option (list (route * list vehicle) * list passenger * list schedule) :=
  s ← system_store w !! self;
  es ← mapM (view_route w) (routes s);
  ps ← mapM (fun r => passenger_store w !! r) (passengers s);
  ss ← mapM (fun r => schedule_store w !! r) (schedules s);
  Some (es, ps, ss).

(** The dict forms, on contents. *)
Definition route_doc (e : route * list vehicle) : value :=
  VDict [("route_id", route_id (fst e));
         ("number", number (fst e));
         ("start_point", start_point (fst e));
         ("end_point", end_point (fst e));
         ("vehicles", VList (map Vehicle.to_dict (snd e)))].

Definition document
    (snap : list (route * list vehicle) * list passenger * list schedule) : value :=
  VDict [("routes", VList (map route_doc (fst (fst snap))));
         ("passengers", VList (map Passenger.to_dict (snd (fst snap))));
         ("schedules", VList (map Schedule.to_dict (snd snap)))].

(** The route at [r] exists and its method [name] is not hidden. *)
Definition unshadowed (w : world) (name : string) (r : ref) : bool :=
  match route_store w !! r with
  | Some x => match shadowed x !! name with None => true | Some _ => false end
  | None => false
  end.

(** The registry can be written out: its collections hold what their
    annotations say (routes whose lists hold vehicles, passengers,
    schedules), no field holds an instance, and no route hides [to_dict]. *)
Definition saveable (w : world) (self : ref) : bool :=
  match system_store w !! self, snapshot w self with
  | Some s, Some snap =>
      forallb (unshadowed w "to_dict") (routes s) &&
      match first_instance (document snap) with None => true | Some _ => false end
  | _, _ => false
  end.

(** [open(filename, 'w')] succeeds. *)
Definition writable (w : world) (filename : string) : bool :=
  match disk w !! filename with
  | Some (Locked _) => false
  | _ => true
  end.

(** The lines that stand for the contents on the screen. *)
Definition route_line (e : route * list vehicle) : text :=
  [Lit "  "; Lit "Маршрут "; Str (number (fst e)); Lit ": ";
   Str (start_point (fst e)); Lit " - "; Str (end_point (fst e));
   Lit " | Транспорт: ["] ++
  join [Lit ", "]
       (map (fun v => [Str (model v); Lit "(ID:"; Str (vehicle_id v); Lit ")"]) (snd e)) ++
  [Lit "]"].

Definition passenger_line (x : passenger) : text :=
  [Lit "  "; Lit "Пассажир: "; Str (name x); Lit " (Карта: "; Str (card_number x);
   Lit ", ID: "; Str (passenger_id x); Lit ")"].

Definition schedule_line (x : schedule) : text :=
  [Lit "  "; Lit "Расписание ID "; Str (schedule_id x); Lit ": ";
   Str (departure_time x); Lit " - "; Str (arrival_time x);
   Lit " (Маршрут ID: "; Str (of_route x); Lit ")"].

Definition screen
    (snap : list (route * list vehicle) * list passenger * list schedule)
    : list text :=
  [[Lit (nl ++ rule)]; [Lit "ДАННЫЕ ТРАНСПОРТНОЙ СИСТЕМЫ"]; [Lit rule];
   [Lit (nl ++ "МАРШРУТЫ:")]] ++
  map route_line (fst (fst snap)) ++
  [[Lit (nl ++ "ПАССАЖИРЫ:")]] ++
  map passenger_line (snd (fst snap)) ++
  [[Lit (nl ++ "РАСПИСАНИЯ:")]] ++
  map schedule_line (snd snap).

(** ** Sample data *)

(** Two registries over the same objects and a fresh one.  Routes 0 and 2
    carry the same id; route 2 holds vehicle 1 twice. *)
Definition sample : world :=
  World
    [Vehicle_ (VInt 1) (VStr "NefAZ 5299") (VInt 77) (VStr "bus");
     Vehicle_ (VInt 2) (VStr "MAZ-203") (VInt 80) (VStr "bus")]
    [Route_ (VInt 1) (VStr "t77") (VStr "Ivanovskoe") (VStr "Perovo")
            (VList [VObj CVehicle 0; VObj CVehicle 1]) ∅;
     Route_ (VInt 2) (VStr "37") (VStr "Kursky") (VStr "Vladimirskaya")
            (VList []) ∅;
     Route_ (VInt 1) (VStr "141") (VStr "Molostovykh") (VStr "Semyonovskaya")
            (VList [VObj CVehicle 1; VObj CVehicle 1]) ∅]
    [Passenger_ (VInt 1) (VStr "Ivan") (VStr "0021095222");
     Passenger_ (VInt 1) (VStr "Maria") (VStr "0022112312")]
    [Schedule_ (VInt 1) (VInt 1) (VStr "08:00") (VStr "08:45")]
    [TransportSystem_ [0; 1] [0; 1] [0];
     TransportSystem_ [0; 1; 2] [0] [0];
     TransportSystem_ [] [] []]
    ∅.

(** A document with one route, its vehicle, one passenger and one
    schedule; one whose passenger lacks a field; a file that is not JSON. *)
Definition good_document : value :=
  VDict
    [("routes",
      VList [VDict [("route_id", VInt 1); ("number", VStr "t77");
                    ("start_point", VStr "A"); ("end_point", VStr "C");
                    ("vehicles",
                     VList [VDict [("vehicle_id", VInt 1); ("model", VStr "Bus");
                                   ("capacity", VInt 50); ("type", VStr "Bus")]])]]);
     ("passengers",
      VList [VDict [("passenger_id", VInt 1); ("name", VStr "Ivan");
                    ("card_number", VStr "0021095222")]]);
     ("schedules",
      VList [VDict [("schedule_id", VInt 1); ("route_id", VInt 1);
                    ("departure_time", VStr "08:00"); ("arrival_time", VStr "08:45")]])].

Definition broken_document : value :=
  VDict
    [("routes",
      VList [VDict [("route_id", VInt 9); ("number", VStr "9");
                    ("start_point", VStr "X"); ("end_point", VStr "Y")]]);
     ("passengers",
      VList [VDict [("passenger_id", VInt 1); ("name", VStr "Ivan")]])].

Definition on_disk : world :=
  set_disk
    (fun _ =>
       <["good.json" := Document good_document]>
         (<["broken.json" := Document broken_document]>
            (<["junk.json" := Malformed (Raise JSONDecodeError [Lit "Expecting value"])]> ∅)))
    sample.

(** The scenario of the specification: a route with one vehicle is
    registered, its end point is updated, and the registry is saved and
    loaded into a second one. *)
Definition scenario : M (ref * ref) :=
  let* ts := TransportSystem.init in
  let* r := Route.init (VInt 1) (VStr "t77") (VStr "A") (VStr "B") in
  let* v := Vehicle.init (VInt 1) (VStr "Bus") (VInt 50) (VStr "Bus") in
  let* _ := Route.add_vehicle r (VObj CVehicle v) in
  let* _ := TransportSystem.create_route ts (VObj CRoute r) in
  let* _ := TransportSystem.update_route ts (VInt 1) [("end_point", VStr "C")] in
  let* _ := TransportSystem.save_to_json ts "transport_data.json" in
  let* reloaded := TransportSystem.init in
  let* _ := TransportSystem.load_from_json reloaded "transport_data.json" in
  ret (ts, reloaded).


(** ** Statements that the code does not satisfy *)

(** "create_route(r) followed by read_route(r.route_id) returns an entity
    equal to r", for every registry and every route. *)
Definition read_returns_created : Prop :=
  ∀ w self s r x,
    system_store w !! self = Some s →
    route_store w !! r = Some x →
    ∃ w1 found w2,
      TransportSystem.create_route self (VObj CRoute r) w = (inr tt, w1) ∧
      TransportSystem.read_route self (route_id x) w1 = (inr found, w2) ∧
      route_store w2 !! found = Some x.

(** "delete_route(id) removes one route and a following read_route(id)
    fails with the route-not-found error", for every registry that holds
    a route with that id. *)
Definition read_fails_after_delete : Prop :=
  ∀ w self s id r,
    system_store w !! self = Some s →
    TransportSystem.find_route self id w = (inr (Some r), w) →
    ∃ w1 s1 e,
      TransportSystem.delete_route self id w = (inr tt, w1) ∧
      system_store w1 !! self = Some s1 ∧
      S (length (routes s1)) = length (routes s) ∧
      TransportSystem.read_route self id w1 = (inl e, w1) ∧
      exn_type e = RouteNotFoundError.



(** "update_route overwrites every key that names an attribute of the
    route, the identity field route_id included", for every registry that
    holds a route with the given id. *)
Definition update_overwrites_route_id : Prop :=
  ∀ w self id r x v,
    TransportSystem.find_route self id w = (inr (Some r), w) →
    route_store w !! r = Some x →
    ∃ w' x',
      TransportSystem.update_route self id [("route_id", v)] w = (inr tt, w') ∧
      route_store w' !! r = Some x' ∧
      route_id x' = v.

(** "When load_from_json raises, the registry is as it was." *)
Definition load_is_atomic : Prop :=
  ∀ w self s filename e w',
    system_store w !! self = Some s →
    TransportSystem.load_from_json self filename w = (inl e, w') →
    system_store w' !! self = Some s.

(** * Properties *)

(** ** The scenario of the specification *)

Example scenario_runs :
  ∃ w,
    scenario (World [] [] [] [] [] ∅) = (inr (0, 1), w) ∧
    snapshot w 0 =
      Some ([(Route_ (VInt 1) (VStr "t77") (VStr "A") (VStr "C") (VList []) ∅,
              [Vehicle_ (VInt 1) (VStr "Bus") (VInt 50) (VStr "Bus")])], [], []) ∧
    snapshot w 1 = snapshot w 0 ∧
    disk w !! "transport_data.json" =
      Some (Document
              (VDict
                 [("routes",
                   VList [VDict [("route_id", VInt 1); ("number", VStr "t77");
                                 ("start_point", VStr "A"); ("end_point", VStr "C");
                                 ("vehicles",
                                  VList [VDict [("vehicle_id", VInt 1);
                                                ("model", VStr "Bus");
                                                ("capacity", VInt 50);
                                                ("type", VStr "Bus")]])]]);
                  ("passengers", VList []);
                  ("schedules", VList [])])).
Proof.
  eexists. split; [vm_compute; reflexivity|]. repeat split.
Qed.

(** ** Running the monad *)

Lemma bind_ok {A B} (m : M A) (k : A → M B) w a w' :
  m w = (inr a, w') → bind m k w = k a w'.
Proof. intros H. unfold bind. now rewrite H. Qed.

Lemma bind_err {A B} (m : M A) (k : A → M B) w e w' :
  m w = (inl e, w') → bind m k w = (inl e, w').
Proof. intros H. unfold bind. now rewrite H. Qed.

Lemma bind_inv_ok {A B} (m : M A) (k : A → M B) w b w' :
  bind m k w = (inr b, w') →
  ∃ a w1, m w = (inr a, w1) ∧ k a w1 = (inr b, w').
Proof.
  unfold bind. destruct (m w) as [[e|a] w1]; intros H.
  - discriminate.
  - eauto.
Qed.

Lemma bind_inv_err {A B} (m : M A) (k : A → M B) w e w' :
  bind m k w = (inl e, w') →
  m w = (inl e, w') ∨ ∃ a w1, m w = (inr a, w1) ∧ k a w1 = (inl e, w').
Proof.
  unfold bind. destruct (m w) as [[e0|a] w1]; intros H.
  - left. inversion H. reflexivity.
  - right. eauto.
Qed.

Lemma deref_some {A} c (store : world → list A) r w x :
  store w !! r = Some x → deref c store r w = (inr x, w).
Proof. intros H. unfold deref. now rewrite H. Qed.

Lemma deref_state {A} c (store : world → list A) r w :
  snd (deref c store r w) = w.
Proof. unfold deref. now destruct (store w !! r). Qed.

Lemma deref_inv {A} c (store : world → list A) r w x w' :
  deref c store r w = (inr x, w') → store w !! r = Some x ∧ w' = w.
Proof.
  unfold deref, no_attribute. destruct (store w !! r); intros H; inversion H; auto.
Qed.

(** ** Equality of values *)

Lemma value_ind' (P : value → Prop) :
  P VNone →
  (∀ b, P (VBool b)) →
  (∀ n, P (VInt n)) →
  (∀ s, P (VStr s)) →
  (∀ xs, Forall P xs → P (VList xs)) →
  (∀ kvs, Forall (fun kv => P (snd kv)) kvs → P (VDict kvs)) →
  (∀ c r, P (VObj c r)) →
  ∀ v, P v.
Proof.
  intros HN HB HI HS HL HD HO.
  fix IH 1. intros [| b | n | s | xs | kvs | c r].
  - exact HN.
  - apply HB.
  - apply HI.
  - apply HS.
  - apply HL. induction xs as [|x xs IHxs]; constructor; [apply IH|exact IHxs].
  - apply HD. induction kvs as [|[k x] kvs IHkvs]; constructor; [apply IH|exact IHkvs].
  - apply HO.
Qed.

Lemma assoc_distinct k v kvs :
  distinct (map fst kvs) = true → In (k, v) kvs → assoc k kvs = Some v.
Proof.
  induction kvs as [|[k0 v0] kvs IH]; simpl; intros Hd Hin; [contradiction|].
  apply andb_true_iff in Hd as [Hfresh Hd].
  destruct Hin as [[= -> ->]|Hin].
  - now rewrite String.eqb_refl.
  - destruct (String.eqb_spec k k0) as [->|_]; [|now apply IH].
    apply negb_true_iff in Hfresh.
    assert (existsb (String.eqb k0) (map fst kvs) = true); [|congruence].
    apply existsb_exists. exists k0. split; [|apply String.eqb_refl].
    apply in_map_iff. now exists (k0, v).
Qed.

Lemma included_refl kvs l :
  (∀ k v, In (k, v) l → assoc k kvs = Some v ∧ py_eq v v = true) →
  included py_eq kvs l = true.
Proof.
  induction l as [|[k v] l IH]; intros H; simpl; [reflexivity|].
  destruct (H k v (or_introl eq_refl)) as [-> ->]. simpl.
  apply IH. intros k' v' Hin. apply H. now right.
Qed.

(** Without floating point every well-formed value equals itself. *)
Lemma py_eq_refl v : unique_keys v = true → py_eq v v = true.
Proof.
  induction v as [| b | n | s | xs IH | kvs IH | c r] using value_ind'; intros Hu.
  - reflexivity.
  - now destruct b.
  - simpl. apply Z.eqb_refl.
  - simpl. apply String.eqb_refl.
  - simpl in *. induction IH as [|x xs Hx _ IHxs]; [reflexivity|].
    simpl in Hu. apply andb_true_iff in Hu as [Hu1 Hu2].
    simpl. now rewrite (Hx Hu1), (IHxs Hu2).
  - simpl in Hu. apply andb_true_iff in Hu as [Hd Hu].
    simpl. rewrite Nat.eqb_refl. simpl.
    apply included_refl. intros k v Hin. split; [now apply assoc_distinct|].
    clear Hd. induction IH as [|[k0 x0] kvs Hx _ IHkvs]; [contradiction|].
    apply andb_true_iff in Hu as [Hu1 Hu2].
    destruct Hin as [[= -> ->]|Hin]; [exact (Hx Hu1)|exact (IHkvs Hu2 Hin)].
  - simpl. rewrite Nat.eqb_refl. now destruct c.
Qed.

(** ** Formatting a value *)

Lemma getattr_state v a w : snd (getattr v a w) = w.
Proof.
  unfold getattr.
  match goal with
  | |- snd (match ?o with Some _ => _ | None => _ end) = _ => destruct o
  end; reflexivity.
Qed.

Lemma bind_state {A B} (m : M A) (k : A → M B) w :
  snd (m w) = w → (∀ a, snd (k a w) = w) → snd (bind m k w) = w.
Proof.
  unfold bind. intros Hm Hk. destruct (m w) as [[e|a] w1]; simpl in *; subst; auto.
Qed.

Lemma comprehension_state {A B} (f : A → M B) xs w :
  (∀ x, snd (f x w) = w) → snd (comprehension f xs w) = w.
Proof.
  intros Hf. induction xs as [|x xs IH]; [reflexivity|].
  cbn [comprehension]. apply bind_state; [apply Hf|].
  intros y. apply bind_state; [exact IH|reflexivity].
Qed.

Lemma str_route_eq d r : str (S d) (VObj CRoute r) = Route.__str__ (str d) r.
Proof. reflexivity. Qed.

Lemma str_passenger_eq d r : str (S d) (VObj CPassenger r) = Passenger.__str__ (str d) r.
Proof. reflexivity. Qed.

Lemma str_schedule_eq d r : str (S d) (VObj CSchedule r) = Schedule.__str__ (str d) r.
Proof. reflexivity. Qed.

(** Formatting reads the stores and changes nothing. *)
Lemma str_state d : ∀ v w, snd (str d v w) = w.
Proof.
  induction d as [|d IH]; intros v w.
  - destruct v as [| | | | | |[] r]; reflexivity.
  - destruct v as [| | | | | |[] r]; try reflexivity.
    + rewrite str_route_eq. unfold Route.__str__.
      apply bind_state; [apply deref_state|]. intros x.
      apply bind_state; [reflexivity|]. intros vs.
      apply bind_state.
      { apply comprehension_state. intros v.
        apply bind_state; [apply getattr_state|]. intros m.
        apply bind_state; [apply IH|]. intros m'.
        apply bind_state; [apply getattr_state|]. intros i.
        apply bind_state; [apply IH|]. reflexivity. }
      intros parts.
      apply bind_state; [apply IH|]. intros a.
      apply bind_state; [apply IH|]. intros b.
      apply bind_state; [apply IH|]. reflexivity.
    + rewrite str_passenger_eq. unfold Passenger.__str__.
      apply bind_state; [apply deref_state|]. intros x.
      apply bind_state; [apply IH|]. intros a.
      apply bind_state; [apply IH|]. intros b.
      apply bind_state; [apply IH|]. reflexivity.
    + rewrite str_schedule_eq. unfold Schedule.__str__.
      apply bind_state; [apply deref_state|]. intros x.
      apply bind_state; [apply IH|]. intros a.
      apply bind_state; [apply IH|]. intros b.
      apply bind_state; [apply IH|]. intros c.
      apply bind_state; [apply IH|]. reflexivity.
Qed.

Lemma str_own_text d v w : own_text v = true → str d v w = (inr [Str v], w).
Proof. destruct d, v as [| | | | | |[] r]; try reflexivity; discriminate. Qed.

(** A formatted value in an f-string between two literals: the error is
    built when the value has a text, and the failure comes out when it
    has not. *)
Lemma raise_formatted {A} d v c pre post w t :
  str d v w = (inr t, w) →
  (let* shown := str d v in
   raise (A := A) (Raise c ([Lit pre] ++ shown ++ [Lit post]))) w =
    (inl (Raise c ([Lit pre] ++ t ++ [Lit post])), w).
Proof. intros H. now rewrite (bind_ok _ _ _ _ _ H). Qed.


Lemma formatted_state {A} d v c pre post w :
  snd ((let* shown := str d v in
        raise (A := A) (Raise c ([Lit pre] ++ shown ++ [Lit post]))) w) = w.
Proof. apply bind_state; [apply str_state|reflexivity]. Qed.

(** ** Lookups *)

Lemma find_route_in_state rs id w :
  snd (TransportSystem.find_route_in rs id w) = w.
Proof.
  induction rs as [|r rs IH]; simpl; [reflexivity|].
  unfold bind, get_route, deref.
  destruct (route_store w !! r) as [x|]; simpl; [|reflexivity].
  destruct (py_eq (route_id x) id); [reflexivity|apply IH].
Qed.

Lemma find_route_in_miss rs id w :
  Forall (route_has_id w id false) rs →
  TransportSystem.find_route_in rs id w = (inr None, w).
Proof.
  induction 1 as [|r rs (x & Hx & Hid) _ IH]; simpl; [reflexivity|].
  rewrite (bind_ok _ _ _ _ _ (deref_some CRoute route_store r w x Hx)).
  now rewrite Hid.
Qed.

Lemma find_route_in_hit pre r post id w :
  Forall (route_has_id w id false) pre →
  route_has_id w id true r →
  TransportSystem.find_route_in (pre ++ r :: post) id w = (inr (Some r), w).
Proof.
  intros Hpre (x & Hx & Hid).
  induction Hpre as [|r0 pre (x0 & Hx0 & Hid0) _ IH]; simpl.
  - rewrite (bind_ok _ _ _ _ _ (deref_some CRoute route_store r w x Hx)).
    now rewrite Hid.
  - rewrite (bind_ok _ _ _ _ _ (deref_some CRoute route_store r0 w x0 Hx0)).
    now rewrite Hid0.
Qed.

Lemma find_route_in_some rs id w r w' :
  TransportSystem.find_route_in rs id w = (inr (Some r), w') →
  first_such (route_has_id w id false) (route_has_id w id true) rs r.
Proof.
  induction rs as [|r0 rs IH]; simpl; intros H.
  - discriminate.
  - apply bind_inv_ok in H as (x & w1 & Hget & H).
    apply deref_inv in Hget as [Hx ->].
    destruct (py_eq (route_id x) id) eqn:Hid.
    + inversion H; subst. exists [], rs. repeat split; eauto. exists x; auto.
    + destruct (IH H) as (pre & post & -> & Hpre & Hhit).
      exists (r0 :: pre), post. repeat split; auto.
      constructor; [exists x; auto|assumption].
Qed.

Lemma find_route_in_none rs id w w' :
  TransportSystem.find_route_in rs id w = (inr None, w') →
  Forall (route_has_id w id false) rs.
Proof.
  induction rs as [|r0 rs IH]; simpl; intros H; [constructor|].
  apply bind_inv_ok in H as (x & w1 & Hget & H).
  apply deref_inv in Hget as [Hx ->].
  destruct (py_eq (route_id x) id) eqn:Hid; [discriminate|].
  constructor; [exists x; auto|eauto].
Qed.

Lemma find_route_unfold self s id w :
  system_store w !! self = Some s →
  TransportSystem.find_route self id w = TransportSystem.find_route_in (routes s) id w.
Proof.
  intros Hs. unfold TransportSystem.find_route.
  now rewrite (bind_ok _ _ _ _ _ (deref_some CTransportSystem system_store self w s Hs)).
Qed.

Lemma find_route_state self id w :
  snd (TransportSystem.find_route self id w) = w.
Proof.
  unfold TransportSystem.find_route, bind, get_system, deref.
  destruct (system_store w !! self); simpl; [apply find_route_in_state|reflexivity].
Qed.

Lemma read_route_state self id w :
  snd (TransportSystem.read_route self id w) = w.
Proof.
  unfold TransportSystem.read_route.
  apply bind_state; [apply find_route_state|].
  intros [r|]; [reflexivity|apply formatted_state].
Qed.

Lemma read_route_found self id w r :
  TransportSystem.find_route self id w = (inr (Some r), w) →
  TransportSystem.read_route self id w = (inr r, w).
Proof. intros H. unfold TransportSystem.read_route. now rewrite (bind_ok _ _ _ _ _ H). Qed.

Lemma read_route_missing self id w t :
  TransportSystem.find_route self id w = (inr None, w) →
  str recursion_limit id w = (inr t, w) →
  TransportSystem.read_route self id w =
    (inl (Raise RouteNotFoundError ([Lit "Маршрут с ID "] ++ t ++ [Lit " не найден"])), w).
Proof.
  intros H Ht. unfold TransportSystem.read_route. rewrite (bind_ok _ _ _ _ _ H).
  now apply raise_formatted.
Qed.


Lemma read_route_missing_own self id w :
  TransportSystem.find_route self id w = (inr None, w) →
  own_text id = true →
  TransportSystem.read_route self id w =
    (inl (Raise RouteNotFoundError [Lit "Маршрут с ID "; Str id; Lit " не найден"]), w).
Proof.
  intros H Hid.
  exact (read_route_missing self id w [Str id] H (str_own_text _ id w Hid)).
Qed.

Lemma read_route_inv self id w r w' :
  TransportSystem.read_route self id w = (inr r, w') →
  TransportSystem.find_route self id w = (inr (Some r), w) ∧ w' = w.
Proof.
  intros H. pose proof (read_route_state self id w) as Hst. rewrite H in Hst. simpl in Hst.
  subst w'. split; [|reflexivity].
  unfold TransportSystem.read_route in H.
  apply bind_inv_ok in H as ([r'|] & w1 & Hf & H).
  - inversion H; subst. exact Hf.
  - apply bind_inv_ok in H as (t & w2 & _ & H). discriminate.
Qed.

Lemma read_passenger_in_state ps id w :
  snd (TransportSystem.read_passenger_in ps id w) = w.
Proof.
  induction ps as [|p ps IH]; cbn [TransportSystem.read_passenger_in].
  - apply formatted_state.
  - apply bind_state; [apply deref_state|]. intros x.
    destruct (py_eq (passenger_id x) id); [reflexivity|apply IH].
Qed.

Lemma read_passenger_in_hit pre p post id w :
  Forall (passenger_has_id w id false) pre →
  passenger_has_id w id true p →
  TransportSystem.read_passenger_in (pre ++ p :: post) id w = (inr p, w).
Proof.
  intros Hpre (x & Hx & Hid).
  induction Hpre as [|p0 pre (x0 & Hx0 & Hid0) _ IH]; simpl.
  - rewrite (bind_ok _ _ _ _ _ (deref_some CPassenger passenger_store p w x Hx)).
    now rewrite Hid.
  - rewrite (bind_ok _ _ _ _ _ (deref_some CPassenger passenger_store p0 w x0 Hx0)).
    now rewrite Hid0.
Qed.

Lemma read_passenger_in_some ps id w p w' :
  TransportSystem.read_passenger_in ps id w = (inr p, w') →
  first_such (passenger_has_id w id false) (passenger_has_id w id true) ps p.
Proof.
  induction ps as [|p0 ps IH]; cbn [TransportSystem.read_passenger_in]; intros H.
  - apply bind_inv_ok in H as (t & w2 & _ & H). discriminate.
  - apply bind_inv_ok in H as (x & w1 & Hget & H).
    apply deref_inv in Hget as [Hx ->].
    destruct (py_eq (passenger_id x) id) eqn:Hid.
    + inversion H; subst. exists [], ps. repeat split; eauto. exists x; auto.
    + destruct (IH H) as (pre & post & -> & Hpre & Hhit).
      exists (p0 :: pre), post. repeat split; auto.
      constructor; [exists x; auto|assumption].
Qed.



Lemma read_passenger_state self id w :
  snd (TransportSystem.read_passenger self id w) = w.
Proof.
  unfold TransportSystem.read_passenger, bind, get_system, deref.
  destruct (system_store w !! self); simpl; [apply read_passenger_in_state|reflexivity].
Qed.

Lemma find_vehicle_in_state vs id w :
  snd (Route.find_vehicle_in vs id w) = w.
Proof.
  induction vs as [|v vs IH]; simpl; [reflexivity|].
  unfold bind. pose proof (getattr_state v "vehicle_id" w) as Hg.
  destruct (getattr v "vehicle_id" w) as [[e|i] w1]; simpl in *; subst; [reflexivity|].
  destruct (py_eq i id); [reflexivity|apply IH].
Qed.

Lemma find_vehicle_in_hit pre v post id w :
  Forall (vehicle_has_id w id false) pre →
  vehicle_has_id w id true v →
  Route.find_vehicle_in (pre ++ v :: post) id w = (inr v, w).
Proof.
  intros Hpre (i & Hi & Hid).
  induction Hpre as [|v0 pre (i0 & Hi0 & Hid0) _ IH]; simpl.
  - rewrite (bind_ok _ _ _ _ _ Hi). now rewrite Hid.
  - rewrite (bind_ok _ _ _ _ _ Hi0). now rewrite Hid0.
Qed.


Lemma getattr_inv v a w i w' :
  getattr v a w = (inr i, w') → w' = w ∧ ∃ c r, v = VObj c r.
Proof.
  intros H. pose proof (getattr_state v a w) as Hs. rewrite H in Hs. simpl in Hs.
  split; [assumption|].
  destruct v; try (unfold getattr, no_attribute in H; discriminate). eauto.
Qed.

(** What the loop returns is [None] or the first element that matches. *)
Lemma find_vehicle_in_inv vs id w v w' :
  Route.find_vehicle_in vs id w = (inr v, w') →
  (v = VNone ∧ Forall (vehicle_has_id w id false) vs) ∨
  (truthy v = true ∧
   first_such (vehicle_has_id w id false) (vehicle_has_id w id true) vs v).
Proof.
  induction vs as [|v0 vs IH]; simpl; intros H.
  - inversion H. left. split; [reflexivity|constructor].
  - apply bind_inv_ok in H as (i & w1 & Hg & H).
    destruct (getattr_inv _ _ _ _ _ Hg) as [-> (c & r & ->)].
    destruct (py_eq i id) eqn:Hid.
    + inversion H; subst. right. split; [reflexivity|].
      exists [], vs. repeat split; auto. exists i; auto.
    + destruct (IH H) as [[-> Hall]|[Ht (pre & post & -> & Hpre & Hhit)]].
      * left. split; [reflexivity|]. constructor; [exists i; auto|assumption].
      * right. split; [assumption|].
        exists (VObj c r :: pre), post. repeat split; auto.
        constructor; [exists i; auto|assumption].
Qed.

Lemma find_vehicle_state self id w :
  snd (Route.find_vehicle self id w) = w.
Proof.
  unfold Route.find_vehicle, bind, get_route, deref, lift.
  destruct (route_store w !! self) as [x|]; simpl; [|reflexivity].
  destruct (iter (vehicles x)); simpl; [reflexivity|apply find_vehicle_in_state].
Qed.

Lemma find_vehicle_unfold self x vs id w :
  route_store w !! self = Some x → vehicles x = VList vs →
  Route.find_vehicle self id w = Route.find_vehicle_in vs id w.
Proof.
  intros Hx Hvs. unfold Route.find_vehicle.
  rewrite (bind_ok _ _ _ _ _ (deref_some CRoute route_store self w x Hx)).
  rewrite Hvs. reflexivity.
Qed.

(** ** Stores *)

Lemma with_system_lookup self x w s :
  system_store w !! self = Some s →
  system_store (with_system self x w) !! self = Some x.
Proof.
  intros H. simpl. apply list_lookup_insert_eq. eapply lookup_lt_Some; eauto.
Qed.

Lemma with_route_lookup r x w y :
  route_store w !! r = Some y →
  route_store (with_route r x w) !! r = Some x.
Proof.
  intros H. simpl. apply list_lookup_insert_eq. eapply lookup_lt_Some; eauto.
Qed.


Lemma create_route_ok w self s r :
  system_store w !! self = Some s →
  TransportSystem.create_route self (VObj CRoute r) w =
    (inr tt, with_system self
               (TransportSystem_ (routes s ++ [r]) (passengers s) (schedules s)) w).
Proof.
  intros Hs. unfold TransportSystem.create_route.
  now rewrite (bind_ok _ _ _ _ _ (deref_some CTransportSystem system_store self w s Hs)).
Qed.

Lemma create_passenger_ok w self s p :
  system_store w !! self = Some s →
  TransportSystem.create_passenger self (VObj CPassenger p) w =
    (inr tt, with_system self
               (TransportSystem_ (routes s) (passengers s ++ [p]) (schedules s)) w).
Proof.
  intros Hs. unfold TransportSystem.create_passenger.
  now rewrite (bind_ok _ _ _ _ _ (deref_some CTransportSystem system_store self w s Hs)).
Qed.

Lemma add_vehicle_ok w self x vs v :
  route_store w !! self = Some x → vehicles x = VList vs →
  Route.add_vehicle self (VObj CVehicle v) w =
    (inr tt, with_route self
               (Route_ (route_id x) (number x) (start_point x) (end_point x)
                       (VList (vs ++ [VObj CVehicle v])) (shadowed x)) w).
Proof.
  intros Hx Hvs. unfold Route.add_vehicle. simpl.
  rewrite (bind_ok _ _ _ _ _ (deref_some CRoute route_store self w x Hx)).
  now rewrite Hvs.
Qed.

(** C10. Creation does not look at ids, so equal ids coexist; every lookup
    returns the first element, in insertion order, whose id matches; no
    lookup changes the world. *)
Theorem C10_first_match_without_uniqueness :
  (∀ w self s r,
     system_store w !! self = Some s →
     TransportSystem.create_route self (VObj CRoute r) w =
       (inr tt, with_system self
                  (TransportSystem_ (routes s ++ [r]) (passengers s) (schedules s)) w)) ∧
  (∀ w self s p,
     system_store w !! self = Some s →
     TransportSystem.create_passenger self (VObj CPassenger p) w =
       (inr tt, with_system self
                  (TransportSystem_ (routes s) (passengers s ++ [p]) (schedules s)) w)) ∧
  (∀ w self x vs v,
     route_store w !! self = Some x → vehicles x = VList vs →
     Route.add_vehicle self (VObj CVehicle v) w =
       (inr tt, with_route self
                  (Route_ (route_id x) (number x) (start_point x) (end_point x)
                          (VList (vs ++ [VObj CVehicle v])) (shadowed x)) w)) ∧
  (∀ w self s r r',
     system_store w !! self = Some s →
     ∃ w', (let* _ := TransportSystem.create_route self (VObj CRoute r) in
            TransportSystem.create_route self (VObj CRoute r')) w = (inr tt, w') ∧
           route_store w' = route_store w ∧
           ∃ s', system_store w' !! self = Some s' ∧
                 routes s' = (routes s ++ [r; r'])) ∧
  (∀ w self s id r,
     system_store w !! self = Some s →
     TransportSystem.find_route self id w = (inr (Some r), w) ↔
     first_such (route_has_id w id false) (route_has_id w id true) (routes s) r) ∧
  (∀ w self s id r,
     system_store w !! self = Some s →
     TransportSystem.read_route self id w = (inr r, w) ↔
     first_such (route_has_id w id false) (route_has_id w id true) (routes s) r) ∧
  (∀ w self x vs id v,
     route_store w !! self = Some x → vehicles x = VList vs →
     (Route.find_vehicle self id w = (inr v, w) ∧ truthy v = true) ↔
     first_such (vehicle_has_id w id false) (vehicle_has_id w id true) vs v) ∧
  (∀ w self s id p,
     system_store w !! self = Some s →
     TransportSystem.read_passenger self id w = (inr p, w) ↔
     first_such (passenger_has_id w id false) (passenger_has_id w id true)
                (passengers s) p) ∧
  (∀ w self id,
     snd (TransportSystem.find_route self id w) = w ∧
     snd (TransportSystem.read_route self id w) = w ∧
     snd (Route.find_vehicle self id w) = w ∧
     snd (TransportSystem.read_passenger self id w) = w).
Proof.
  split; [exact create_route_ok|].
  split; [exact create_passenger_ok|].
  split; [exact add_vehicle_ok|].
  split.
  { intros w self s r r' Hs.
    eexists. split.
    - rewrite (bind_ok _ _ _ _ _ (create_route_ok w self s r Hs)).
      apply create_route_ok. eapply with_system_lookup; eassumption.
    - split; [reflexivity|]. eexists. split.
      + eapply with_system_lookup. eapply with_system_lookup; eassumption.
      + simpl. now rewrite <- app_assoc. }
  split.
  { intros w self s id r Hs. rewrite (find_route_unfold self s id w Hs). split.
    - apply find_route_in_some.
    - intros (pre & post & -> & Hpre & Hhit). now apply find_route_in_hit. }
  split.
  { intros w self s id r Hs. split.
    - intros H. apply read_route_inv in H as [H _].
      rewrite (find_route_unfold self s id w Hs) in H.
      eapply find_route_in_some; eassumption.
    - intros (pre & post & Hl & Hpre & Hhit). apply read_route_found.
      rewrite (find_route_unfold self s id w Hs), Hl. now apply find_route_in_hit. }
  split.
  { intros w self x vs id v Hx Hvs.
    rewrite (find_vehicle_unfold self x vs id w Hx Hvs). split.
    - intros [H Ht]. apply find_vehicle_in_inv in H as [[-> _]|[_ H]]; [discriminate|exact H].
    - intros (pre & post & -> & Hpre & Hhit). split.
      + now apply find_vehicle_in_hit.
      + destruct Hhit as (i & Hi & _).
        apply getattr_inv in Hi as [_ (c & r & ->)]. reflexivity. }
  split.
  { intros w self s id p Hs. unfold TransportSystem.read_passenger.
    rewrite (bind_ok _ _ _ _ _ (deref_some CTransportSystem system_store self w s Hs)).
    split.
    - apply read_passenger_in_some.
    - intros (pre & post & -> & Hpre & Hhit). now apply read_passenger_in_hit. }
  intros w self id. repeat split.
  - apply find_route_state.
  - apply read_route_state.
  - apply find_vehicle_state.
  - apply read_passenger_state.
Qed.

Lemma C10_witness :
  TransportSystem.create_route 1 (VObj CRoute 2) sample =
    (inr tt, with_system 1 (TransportSystem_ [0; 1; 2; 2] [0] [0]) sample) ∧
  TransportSystem.read_route 1 (VInt 1) sample = (inr 0, sample).
Proof.
  destruct C10_first_match_without_uniqueness as (Hc & _ & _ & _ & _ & Hr & _).
  split.
  - apply (Hc sample 1 (TransportSystem_ [0; 1; 2] [0] [0]) 2). reflexivity.
  - apply (Hr sample 1 (TransportSystem_ [0; 1; 2] [0] [0]) (VInt 1) 0); [reflexivity|].
    exists [], [1; 2]. split; [reflexivity|]. split; [constructor|].
    eexists. split; reflexivity.
Defined.

(** ** Creating and reading back *)

Lemma first_such_app_r {A} (miss hit : A → Prop) l x y :
  first_such miss hit l x → first_such miss hit (l ++ [y]) x.
Proof.
  intros (pre & post & -> & Hpre & Hhit).
  exists pre, (post ++ [y]). rewrite <- app_assoc. auto.
Qed.

(** C3, amended. The read after a create returns the first route whose id
    matches: the created one when the registry held no route with an
    equal id, the older one otherwise.  (That the id equals itself holds
    of every well-formed value, see [py_eq_refl].) *)
Theorem C3_read_after_create :
  ∀ w self s r x,
    system_store w !! self = Some s →
    route_store w !! r = Some x →
    let w1 := with_system self
                (TransportSystem_ (routes s ++ [r]) (passengers s) (schedules s)) w in
    TransportSystem.create_route self (VObj CRoute r) w = (inr tt, w1) ∧
    (py_eq (route_id x) (route_id x) = true →
     Forall (route_has_id w (route_id x) false) (routes s) →
     TransportSystem.read_route self (route_id x) w1 = (inr r, w1) ∧
     route_store w1 !! r = Some x) ∧
    (∀ r0,
       first_such (route_has_id w (route_id x) false)
                  (route_has_id w (route_id x) true) (routes s) r0 →
       TransportSystem.read_route self (route_id x) w1 = (inr r0, w1)).
Proof.
  intros w self s r x Hs Hx w1.
  assert (Hs1 : system_store w1 !! self =
                Some (TransportSystem_ (routes s ++ [r]) (passengers s) (schedules s)))
    by (eapply with_system_lookup; eassumption).
  split; [now apply create_route_ok|]. split.
  - intros Hrefl Hnone. split; [|exact Hx].
    apply read_route_found. rewrite (find_route_unfold self _ _ w1 Hs1). simpl.
    apply find_route_in_hit; [exact Hnone|]. exists x. auto.
  - intros r0 Hfirst. apply read_route_found.
    rewrite (find_route_unfold self _ _ w1 Hs1). simpl.
    destruct (first_such_app_r _ _ _ _ r Hfirst) as (pre & post & -> & Hpre & Hhit).
    now apply find_route_in_hit.
Qed.

Lemma C3_witness :
  TransportSystem.create_route 2 (VObj CRoute 1) sample =
    (inr tt, with_system 2 (TransportSystem_ [1] [] []) sample) ∧
  TransportSystem.read_route 2 (VInt 2)
    (with_system 2 (TransportSystem_ [1] [] []) sample) =
    (inr 1, with_system 2 (TransportSystem_ [1] [] []) sample).
Proof.
  destruct (C3_read_after_create sample 2 (TransportSystem_ [] [] []) 1
              (Route_ (VInt 2) (VStr "37") (VStr "Kursky") (VStr "Vladimirskaya")
                      (VList []) ∅) eq_refl eq_refl) as (Hc & Hr & _).
  split; [exact Hc|]. apply Hr; [reflexivity|constructor].
Defined.

(** C3 as stated fails: the registry already holds route 0 with id 1, so
    after creating route 2, which has id 1 as well, the read returns
    route 0, whose fields differ. *)
Lemma C3_counterexample : ¬ read_returns_created.
Proof.
  intros H.
  destruct (H sample 0 (TransportSystem_ [0; 1] [0; 1] [0]) 2
              (Route_ (VInt 1) (VStr "141") (VStr "Molostovykh") (VStr "Semyonovskaya")
                      (VList [VObj CVehicle 1; VObj CVehicle 1]) ∅)
              eq_refl eq_refl) as (w1 & found & w2 & Hc & Hr & Hf).
  vm_compute in Hc. inversion Hc; subst w1; clear Hc.
  vm_compute in Hr. inversion Hr; subst found w2; clear Hr.
  vm_compute in Hf. discriminate Hf.
Qed.

(** ** Deleting *)

Lemma remove_ref_first pre r post :
  r ∉ pre → remove_ref r (pre ++ r :: post) = Some (pre ++ post).
Proof.
  induction pre as [|r0 pre IH]; simpl; intros Hnin.
  - now rewrite Nat.eqb_refl.
  - apply not_elem_of_cons in Hnin as [Hne Hnin].
    destruct (Nat.eqb_spec r0 r) as [->|_]; [congruence|].
    now rewrite IH.
Qed.

Lemma miss_not_hit w id pre r :
  Forall (route_has_id w id false) pre → route_has_id w id true r → r ∉ pre.
Proof.
  intros Hpre (x & Hx & Hid) Hin.
  rewrite Forall_forall in Hpre. destruct (Hpre r Hin) as (x' & Hx' & Hid').
  congruence.
Qed.

(** C4, amended. Deleting removes the first route whose id matches and
    nothing else; the following read returns the first later route that
    has the id when there is one, and fails with the route-not-found error
    when there is none, for an id that has a text of its own (an id that
    is itself a route, a passenger or a schedule is formatted by its
    [__str__] when the message is built, and that can fail first). *)
Theorem C4_delete_then_read :
  ∀ w self s id pre r post,
    system_store w !! self = Some s →
    routes s = (pre ++ r :: post) →
    Forall (route_has_id w id false) pre →
    route_has_id w id true r →
    let w1 := with_system self
                (TransportSystem_ (pre ++ post) (passengers s) (schedules s)) w in
    TransportSystem.delete_route self id w = (inr tt, w1) ∧
    S (length (pre ++ post)) = length (routes s) ∧
    (Forall (route_has_id w id false) post →
     own_text id = true →
     TransportSystem.read_route self id w1 =
       (inl (Raise RouteNotFoundError [Lit "Маршрут с ID "; Str id; Lit " не найден"]),
        w1)) ∧
    (∀ r', first_such (route_has_id w id false) (route_has_id w id true) post r' →
           TransportSystem.read_route self id w1 = (inr r', w1)).
Proof.
  intros w self s id pre r post Hs Hl Hpre Hhit w1.
  assert (Hs1 : system_store w1 !! self =
                Some (TransportSystem_ (pre ++ post) (passengers s) (schedules s)))
    by (eapply with_system_lookup; eassumption).
  split; [|split; [|split]].
  - unfold TransportSystem.delete_route.
    assert (Hfind : TransportSystem.find_route self id w = (inr (Some r), w)).
    { rewrite (find_route_unfold self s id w Hs), Hl. now apply find_route_in_hit. }
    rewrite (bind_ok _ _ _ _ _ (read_route_found self id w r Hfind)).
    rewrite (bind_ok _ _ _ _ _ (deref_some CTransportSystem system_store self w s Hs)).
    rewrite Hl, remove_ref_first; [reflexivity|].
    eapply miss_not_hit; eassumption.
  - rewrite Hl, !length_app. simpl. lia.
  - intros Hpost Hid. apply read_route_missing_own; [|exact Hid].
    rewrite (find_route_unfold self _ _ w1 Hs1). simpl.
    apply find_route_in_miss. apply Forall_app. split; assumption.
  - intros r' (pre' & post' & -> & Hpre' & Hhit'). apply read_route_found.
    rewrite (find_route_unfold self _ _ w1 Hs1). simpl.
    rewrite app_assoc. apply find_route_in_hit; [|exact Hhit'].
    apply Forall_app. split; assumption.
Qed.

Lemma C4_witness :
  TransportSystem.delete_route 0 (VInt 1) sample =
    (inr tt, with_system 0 (TransportSystem_ [1] [0; 1] [0]) sample) ∧
  TransportSystem.read_route 0 (VInt 1)
    (with_system 0 (TransportSystem_ [1] [0; 1] [0]) sample) =
    (inl (Raise RouteNotFoundError [Lit "Маршрут с ID "; Str (VInt 1); Lit " не найден"]),
     with_system 0 (TransportSystem_ [1] [0; 1] [0]) sample).
Proof.
  assert (Hmiss : route_has_id sample (VInt 1) false 1) by (eexists; split; reflexivity).
  assert (Hhit : route_has_id sample (VInt 1) true 0) by (eexists; split; reflexivity).
  destruct (C4_delete_then_read sample 0 (TransportSystem_ [0; 1] [0; 1] [0]) (VInt 1)
              [] 0 [1] eq_refl eq_refl ltac:(constructor) Hhit) as (Hd & _ & Hr & _).
  split; [exact Hd|]. apply Hr; [|reflexivity]. constructor; [exact Hmiss|constructor].
Defined.

(** C4 as stated fails: registry 1 holds routes 0 and 2, both with id 1;
    deleting id 1 removes route 0, and the read that follows returns
    route 2. *)
Lemma C4_counterexample : ¬ read_fails_after_delete.
Proof.
  intros H.
  destruct (H sample 1 (TransportSystem_ [0; 1; 2] [0] [0]) (VInt 1) 0 eq_refl eq_refl)
    as (w1 & s1 & e & Hd & _ & _ & Hr & _).
  vm_compute in Hd. inversion Hd; subst w1; clear Hd.
  vm_compute in Hr. discriminate Hr.
Qed.

(** ** Updating *)

Lemma world_eta w :
  World (vehicle_store w) (route_store w) (passenger_store w) (schedule_store w)
        (system_store w) (disk w) = w.
Proof. now destruct w. Qed.

Lemma with_route_same r x w :
  route_store w !! r = Some x → with_route r x w = w.
Proof.
  intros H. unfold with_route, set_route_store.
  rewrite list_insert_id by exact H. apply world_eta.
Qed.

Lemma with_route_twice r x y w :
  with_route r y (with_route r x w) = with_route r y w.
Proof.
  unfold with_route, set_route_store. simpl. now rewrite list_insert_insert_eq.
Qed.

Lemma update_loop r kwargs : ∀ x w,
  route_store w !! r = Some x →
  for_each kwargs (fun kv =>
    if Route.hasattr (fst kv) then
      let* y := get_route r in
      put_route r (Route.setattr y (fst kv) (snd kv))
    else ret tt) w
  = (inr tt, with_route r (apply_kwargs x kwargs) w).
Proof.
  induction kwargs as [|[k v] kwargs IH]; intros x w Hx; simpl.
  - unfold ret. now rewrite with_route_same.
  - destruct (Route.hasattr k) eqn:Hk.
    + unfold bind at 1.
      rewrite (bind_ok _ _ _ _ _ (deref_some CRoute route_store r w x Hx)).
      unfold put_route.
      rewrite (IH (Route.setattr x k v)) by (eapply with_route_lookup; eassumption).
      now rewrite with_route_twice.
    + unfold bind at 1. unfold ret at 1. now apply IH.
Qed.

(** The keyword, if any, that repeats a parameter of [update_route]. *)
Lemma keywords_bind kwargs :
  keywords kwargs →
  List.find (fun kv => existsb (String.eqb (fst kv)) TransportSystem.parameters) kwargs
    = None.
Proof.
  induction 1 as [|kv kwargs Hkv _ IH]; [reflexivity|].
  cbn [List.find]. unfold keyword in Hkv. apply andb_true_iff in Hkv as [Hkv _].
  apply negb_true_iff in Hkv. now rewrite Hkv.
Qed.

Lemma keywords_not_special kwargs :
  keywords kwargs → Forall (fun kv => Route.special (fst kv) = false) kwargs.
Proof.
  intros H. eapply Forall_impl; [exact H|]. intros kv Hkv. unfold keyword in Hkv.
  apply andb_true_iff in Hkv as [_ Hkv]. now apply negb_true_iff in Hkv.
Qed.

Lemma update_route_ok w self id r x kwargs :
  List.find (fun kv => existsb (String.eqb (fst kv)) TransportSystem.parameters) kwargs
    = None →
  TransportSystem.find_route self id w = (inr (Some r), w) →
  route_store w !! r = Some x →
  TransportSystem.update_route self id kwargs w =
    (inr tt, with_route r (apply_kwargs x kwargs) w).
Proof.
  intros Hb Hf Hx. unfold TransportSystem.update_route. rewrite Hb.
  rewrite (bind_ok _ _ _ _ _ (read_route_found self id w r Hf)).
  now apply update_loop.
Qed.

(** A call that passes [route_id] or [self] among the keywords fails while
    its arguments are bound. *)
Lemma update_route_rebound self id kwargs w :
  (∃ k v, (k, v) ∈ kwargs ∧ k ∈ TransportSystem.parameters) →
  ∃ e, TransportSystem.update_route self id kwargs w = (inl e, w) ∧
       exn_type e = TypeError.
Proof.
  intros (k & v & Hin & Hk). unfold TransportSystem.update_route.
  destruct (List.find _ kwargs) as [kv|] eqn:E.
  - eexists. split; reflexivity.
  - exfalso. apply list_elem_of_In in Hin.
    pose proof (find_none _ _ E _ Hin) as H. cbn [fst] in H.
    apply list_elem_of_In in Hk.
    assert (existsb (String.eqb k) TransportSystem.parameters = true)
      by (apply existsb_exists; exists k; split; [exact Hk|apply String.eqb_refl]).
    congruence.
Qed.




Lemma setattr_same y k v :
  Route.hasattr k = true → route_attr (Route.setattr y k v) k = Some v.
Proof.
  intros _. unfold Route.setattr, route_attr.
  destruct (k =? "route_id") eqn:E1; [reflexivity|].
  destruct (k =? "number") eqn:E2; [reflexivity|].
  destruct (k =? "start_point") eqn:E3; [reflexivity|].
  destruct (k =? "end_point") eqn:E4; [reflexivity|].
  destruct (k =? "vehicles") eqn:E5; [reflexivity|].
  simpl. apply lookup_insert_eq.
Qed.

Lemma setattr_other y k v key :
  key ≠ k → route_attr (Route.setattr y k v) key = route_attr y key.
Proof.
  intros Hne. unfold Route.setattr, route_attr.
  destruct (String.eqb_spec k "route_id") as [->|?];
    [apply String.eqb_neq in Hne; now rewrite Hne|].
  destruct (String.eqb_spec k "number") as [->|?];
    [apply String.eqb_neq in Hne; now rewrite Hne|].
  destruct (String.eqb_spec k "start_point") as [->|?];
    [apply String.eqb_neq in Hne; now rewrite Hne|].
  destruct (String.eqb_spec k "end_point") as [->|?];
    [apply String.eqb_neq in Hne; now rewrite Hne|].
  destruct (String.eqb_spec k "vehicles") as [->|?];
    [apply String.eqb_neq in Hne; now rewrite Hne|].
  simpl. repeat (destruct (String.eqb key _); [reflexivity|]).
  apply lookup_insert_ne. congruence.
Qed.

Lemma apply_kwargs_snoc x kwargs k v :
  apply_kwargs x (kwargs ++ [(k, v)]) =
  if Route.hasattr k then Route.setattr (apply_kwargs x kwargs) k v
  else apply_kwargs x kwargs.
Proof. unfold apply_kwargs. now rewrite fold_left_app. Qed.

(** After the loop an attribute holds the value of the last keyword
    argument that names it. *)
Lemma apply_kwargs_last x kwargs key v :
  Route.hasattr key = true →
  assoc key (rev kwargs) = Some v →
  route_attr (apply_kwargs x kwargs) key = Some v.
Proof.
  intros Hkey. induction kwargs as [|[k v'] kwargs IH] using rev_ind; simpl.
  - discriminate.
  - rewrite rev_app_distr. simpl. rewrite apply_kwargs_snoc.
    destruct (String.eqb_spec key k) as [->|Hne].
    + intros [= ->]. rewrite Hkey. now apply setattr_same.
    + intros H. destruct (Route.hasattr k); [|now apply IH].
      rewrite setattr_other by exact Hne. now apply IH.
Qed.

Lemma getattr_route r x key v w :
  route_store w !! r = Some x → route_attr x key = Some v →
  getattr (VObj CRoute r) key w = (inr v, w).
Proof. intros Hx Hv. unfold getattr. rewrite Hx. simpl. now rewrite Hv. Qed.

Lemma setattr_route_id y k v :
  k ≠ "route_id" → route_id (Route.setattr y k v) = route_id y.
Proof.
  intros Hk. unfold Route.setattr.
  destruct (k =? "route_id") eqn:E; [apply String.eqb_eq in E; contradiction|].
  destruct (k =? "number"); [reflexivity|].
  destruct (k =? "start_point"); [reflexivity|].
  destruct (k =? "end_point"); [reflexivity|].
  destruct (k =? "vehicles"); reflexivity.
Qed.

Lemma apply_kwargs_route_id kwargs : ∀ x,
  Forall (fun kv => fst kv ≠ "route_id") kwargs →
  route_id (apply_kwargs x kwargs) = route_id x.
Proof.
  unfold apply_kwargs.
  induction kwargs as [|[k v] kwargs IH]; intros x H; simpl; [reflexivity|].
  inversion H as [|? ? Hk Hrest]; subst. rewrite IH by exact Hrest.
  destruct (Route.hasattr k); [now apply setattr_route_id|reflexivity].
Qed.

Lemma keywords_not_route_id kwargs :
  keywords kwargs → Forall (fun kv => fst kv ≠ "route_id") kwargs.
Proof.
  intros H. eapply Forall_impl; [exact H|]. intros [k v] Hkv Hk. simpl in Hk.
  subst k. discriminate Hkv.
Qed.

(** Replacing a route by one with the same id leaves every search by id
    with the same answer. *)
Lemma find_route_in_with_route rs id r x x' w :
  route_store w !! r = Some x →
  route_id x' = route_id x →
  TransportSystem.find_route_in rs id (with_route r x' w) =
    (fst (TransportSystem.find_route_in rs id w), with_route r x' w).
Proof.
  intros Hx Hid.
  induction rs as [|route rest IH]; [reflexivity|].
  cbn [TransportSystem.find_route_in]. unfold bind, get_route, deref in *. simpl.
  destruct (decide (r = route)) as [<-|Hne].
  - rewrite (list_lookup_insert_eq (route_store w) r)
      by (apply lookup_lt_is_Some; now exists x).
    rewrite Hx, Hid.
    destruct (py_eq (route_id x) id); [reflexivity|exact IH].
  - rewrite list_lookup_insert_ne by exact Hne.
    destruct (route_store w !! route) as [y|]; [|reflexivity].
    destruct (py_eq (route_id y) id); [reflexivity|exact IH].
Qed.

Lemma find_route_with_route self id r x x' w :
  route_store w !! r = Some x →
  route_id x' = route_id x →
  TransportSystem.find_route self id (with_route r x' w) =
    (fst (TransportSystem.find_route self id w), with_route r x' w).
Proof.
  intros Hx Hid. unfold TransportSystem.find_route, bind, get_system, deref. simpl.
  destruct (system_store w !! self) as [s|]; [|reflexivity].
  now apply (find_route_in_with_route (routes s) id r x x' w).
Qed.

(** C9, amended. An update succeeds on every route found and overwrites
    each attribute that a keyword names, the vehicle list included, whose
    place any value can take.  The id is not among them: [route_id] is a
    parameter of [update_route], a call that passes it as a keyword fails
    with [TypeError] while its arguments are bound and changes nothing, so
    after every update the route is found under the id it had.  (The
    keywords are those a call can pass, without the names that begin with
    two underscores, which [object] provides.) *)
Theorem C9_update_overwrites_any_attribute :
  ∀ w self id r x kwargs,
    TransportSystem.find_route self id w = (inr (Some r), w) →
    route_store w !! r = Some x →
    (keywords kwargs →
     let x' := apply_kwargs x kwargs in
     let w' := with_route r x' w in
     TransportSystem.update_route self id kwargs w = (inr tt, w') ∧
     route_store w' !! r = Some x' ∧
     (∀ key v,
        Route.hasattr key = true →
        assoc key (rev kwargs) = Some v →
        getattr (VObj CRoute r) key w' = (inr v, w')) ∧
     (∀ v, assoc "vehicles" (rev kwargs) = Some v → vehicles x' = v) ∧
     route_id x' = route_id x ∧
     TransportSystem.find_route self id w' = (inr (Some r), w')) ∧
    ((∃ v, ("route_id", v) ∈ kwargs) →
     ∃ e, TransportSystem.update_route self id kwargs w = (inl e, w) ∧
          exn_type e = TypeError).
Proof.
  intros w self id r x kwargs Hf Hx. split.
  - intros Hkw x' w'.
    assert (Hx' : route_store w' !! r = Some x')
      by (eapply with_route_lookup; eassumption).
    assert (Hid : route_id x' = route_id x)
      by (apply apply_kwargs_route_id, keywords_not_route_id, Hkw).
    split; [exact (update_route_ok w self id r x kwargs (keywords_bind _ Hkw) Hf Hx)|].
    split; [exact Hx'|]. split; [|split; [|split]].
    + intros key v Hkey Hlast. eapply getattr_route; [exact Hx'|].
      now apply apply_kwargs_last.
    + intros v Hlast.
      pose proof (apply_kwargs_last x kwargs "vehicles" v eq_refl Hlast) as H.
      unfold route_attr in H. simpl in H. now injection H.
    + exact Hid.
    + unfold w'. rewrite (find_route_with_route self id r x x' w Hx Hid).
      now rewrite Hf.
  - intros (v & Hin). apply update_route_rebound.
    exists "route_id", v. split; [exact Hin|]. unfold TransportSystem.parameters.
    apply elem_of_cons. right. apply elem_of_cons. now left.
Qed.

Lemma C9_witness :
  (∃ w',
     TransportSystem.update_route 0 (VInt 1)
       [("number", VStr "78"); ("vehicles", VStr "none")] sample = (inr tt, w') ∧
     getattr (VObj CRoute 0) "vehicles" w' = (inr (VStr "none"), w') ∧
     TransportSystem.find_route 0 (VInt 1) w' = (inr (Some 0), w')) ∧
  ∃ e,
    TransportSystem.update_route 0 (VInt 1) [("route_id", VInt 7)] sample = (inl e, sample) ∧
    exn_type e = TypeError.
Proof.
  split.
  - destruct (C9_update_overwrites_any_attribute sample 0 (VInt 1) 0
                (Route_ (VInt 1) (VStr "t77") (VStr "Ivanovskoe") (VStr "Perovo")
                        (VList [VObj CVehicle 0; VObj CVehicle 1]) ∅)
                [("number", VStr "78"); ("vehicles", VStr "none")]
                eq_refl eq_refl) as (H & _).
    destruct H as (Hu & _ & Hget & _ & _ & Hfind).
    + constructor; [reflexivity|]. constructor; [reflexivity|constructor].
    + eexists. split; [exact Hu|]. split; [|exact Hfind].
      apply Hget; reflexivity.
  - destruct (C9_update_overwrites_any_attribute sample 0 (VInt 1) 0
                (Route_ (VInt 1) (VStr "t77") (VStr "Ivanovskoe") (VStr "Perovo")
                        (VList [VObj CVehicle 0; VObj CVehicle 1]) ∅)
                [("route_id", VInt 7)] eq_refl eq_refl) as (_ & H).
    apply H. exists (VInt 7). apply elem_of_cons. now left.
Defined.

(** C9 as stated fails: no call can name [route_id] among the keywords.
    The update that is to rename route 0 of the sample raises and leaves
    it under its id. *)
Lemma C9_counterexample : ¬ update_overwrites_route_id.
Proof.
  intros H.
  destruct (H sample 0 (VInt 1) 0
              (Route_ (VInt 1) (VStr "t77") (VStr "Ivanovskoe") (VStr "Perovo")
                      (VList [VObj CVehicle 0; VObj CVehicle 1]) ∅)
              (VInt 7) eq_refl eq_refl) as (w' & x' & Hu & _).
  vm_compute in Hu. discriminate Hu.
Qed.

(** ** Removing a vehicle *)










(** ** Rebuilding from a mapping *)

Lemma subscript_dict kvs k :
  subscript (VDict kvs) k =
  match assoc k kvs with
  | Some v => inr v
  | None => inl (Raise KeyError [Repr (VStr k)])
  end.
Proof. reflexivity. Qed.

Lemma vehicle_from_dict_run data w :
  Vehicle.from_dict data w =
  match vehicle_of_dict data with
  | inl e => (inl e, w)
  | inr x => (inr (length (vehicle_store w)), set_vehicle_store (fun s => s ++ [x]) w)
  end.
Proof.
  unfold Vehicle.from_dict, vehicle_of_dict, bind, lift, res_bind.
  destruct (subscript data "vehicle_id"); [reflexivity|].
  destruct (subscript data "model"); [reflexivity|].
  destruct (subscript data "capacity"); [reflexivity|].
  destruct (subscript data "type"); reflexivity.
Qed.

Lemma passenger_from_dict_run data w :
  Passenger.from_dict data w =
  match passenger_of_dict data with
  | inl e => (inl e, w)
  | inr x => (inr (length (passenger_store w)),
              set_passenger_store (fun s => s ++ [x]) w)
  end.
Proof.
  unfold Passenger.from_dict, passenger_of_dict, bind, lift, res_bind.
  destruct (subscript data "passenger_id"); [reflexivity|].
  destruct (subscript data "name"); [reflexivity|].
  destruct (subscript data "card_number"); reflexivity.
Qed.

Lemma schedule_from_dict_run data w :
  Schedule.from_dict data w =
  match schedule_of_dict data with
  | inl e => (inl e, w)
  | inr x => (inr (length (schedule_store w)),
              set_schedule_store (fun s => s ++ [x]) w)
  end.
Proof.
  unfold Schedule.from_dict, schedule_of_dict, bind, lift, res_bind.
  destruct (subscript data "schedule_id"); [reflexivity|].
  destruct (subscript data "route_id"); [reflexivity|].
  destruct (subscript data "departure_time"); [reflexivity|].
  destruct (subscript data "arrival_time"); reflexivity.
Qed.

Lemma bind_lift {A B} (r : res A) (k : A → M B) w :
  bind (lift r) k w = match r with inl e => (inl e, w) | inr a => k a w end.
Proof. unfold bind, lift. now destruct r. Qed.

Lemma route_from_dict_run data w :
  Route.from_dict data w =
  match route_of_dict data with
  | inl e => (inl e, w)
  | inr x =>
      let r := length (route_store w) in
      let w1 := set_route_store (fun s => s ++ [x]) w in
      match vehicle_items data with
      | inl e => (inl e, w1)
      | inr items =>
          match Route.add_vehicles r items w1 with
          | (inl e, w2) => (inl e, w2)
          | (inr _, w2) => (inr r, w2)
          end
      end
  end.
Proof.
  unfold Route.from_dict, route_of_dict, vehicle_items, res_bind.
  rewrite bind_lift. destruct (subscript data "route_id"); [reflexivity|].
  rewrite bind_lift. destruct (subscript data "number"); [reflexivity|].
  rewrite bind_lift. destruct (subscript data "start_point"); [reflexivity|].
  rewrite bind_lift. destruct (subscript data "end_point"); [reflexivity|].
  unfold bind at 1. unfold Route.init, new_route. cbv zeta.
  rewrite bind_lift. destruct (dict_get data "vehicles" (VList [])); [reflexivity|].
  rewrite bind_lift. destruct (iter _); [reflexivity|].
  unfold bind. destruct (Route.add_vehicles _ _ _) as [[e|[]] w2]; reflexivity.
Qed.

Lemma first_missing_vehicle kvs k :
  first_missing vehicle_keys kvs = Some k →
  vehicle_of_dict (VDict kvs) = inl (Raise KeyError [Repr (VStr k)]).
Proof.
  unfold vehicle_of_dict, res_bind. rewrite !subscript_dict. simpl.
  repeat (destruct (assoc _ kvs); [|intros [= <-]; reflexivity]).
  discriminate.
Qed.

Lemma first_missing_passenger kvs k :
  first_missing passenger_keys kvs = Some k →
  passenger_of_dict (VDict kvs) = inl (Raise KeyError [Repr (VStr k)]).
Proof.
  unfold passenger_of_dict, res_bind. rewrite !subscript_dict. simpl.
  repeat (destruct (assoc _ kvs); [|intros [= <-]; reflexivity]).
  discriminate.
Qed.

Lemma first_missing_schedule kvs k :
  first_missing schedule_keys kvs = Some k →
  schedule_of_dict (VDict kvs) = inl (Raise KeyError [Repr (VStr k)]).
Proof.
  unfold schedule_of_dict, res_bind. rewrite !subscript_dict. simpl.
  repeat (destruct (assoc _ kvs); [|intros [= <-]; reflexivity]).
  discriminate.
Qed.

Lemma first_missing_route kvs k :
  first_missing route_keys kvs = Some k →
  route_of_dict (VDict kvs) = inl (Raise KeyError [Repr (VStr k)]).
Proof.
  unfold route_of_dict, res_bind. rewrite !subscript_dict. simpl.
  repeat (destruct (assoc _ kvs); [|intros [= <-]; reflexivity]).
  discriminate.
Qed.

Lemma first_missing_some keys kvs k :
  k ∈ keys → assoc k kvs = None →
  ∃ k', first_missing keys kvs = Some k' ∧ k' ∈ keys ∧ assoc k' kvs = None.
Proof.
  induction keys as [|k0 keys IH]; intros Hin Hk.
  - inversion Hin.
  - simpl. destruct (assoc k0 kvs) eqn:E.
    + apply elem_of_cons in Hin as [->|Hin]; [congruence|].
      destruct (IH Hin Hk) as (k' & H1 & H2 & H3).
      exists k'. repeat split; auto. apply elem_of_cons. now right.
    + exists k0. repeat split; auto. apply elem_of_cons. now left.
Qed.

(** ** Allocation only adds instances *)

Lemma grows_refl w : grows w w.
Proof. repeat split; reflexivity. Qed.

Lemma prefix_of_insert_beyond {A} (l k : list A) r x :
  l `prefix_of` k → (length l ≤ r)%nat → l `prefix_of` <[r := x]> k.
Proof.
  intros [t ->] Hr. exists (<[r - length l := x]> t).
  now rewrite insert_app_r_alt.
Qed.

Lemma grows_with_route w0 w (r : ref) x :
  grows w0 w → (length (route_store w0) ≤ r)%nat → grows w0 (with_route r x w).
Proof.
  intros (A1 & A2 & A3 & A4 & A5 & A6) Hr.
  repeat split; simpl; auto. now apply prefix_of_insert_beyond.
Qed.

Lemma grows_new_vehicle w0 w x :
  grows w0 w → grows w0 (set_vehicle_store (fun s => s ++ [x]) w).
Proof.
  intros (A1 & A2 & A3 & A4 & A5 & A6). repeat split; simpl; auto.
  etrans; [exact A1|]. now apply prefix_app_r.
Qed.

Lemma grows_new_route w0 w x :
  grows w0 w → grows w0 (set_route_store (fun s => s ++ [x]) w).
Proof.
  intros (A1 & A2 & A3 & A4 & A5 & A6). repeat split; simpl; auto.
  etrans; [exact A2|]. now apply prefix_app_r.
Qed.

Lemma grows_new_passenger w0 w x :
  grows w0 w → grows w0 (set_passenger_store (fun s => s ++ [x]) w).
Proof.
  intros (A1 & A2 & A3 & A4 & A5 & A6). repeat split; simpl; auto.
  etrans; [exact A3|]. now apply prefix_app_r.
Qed.

Lemma grows_new_schedule w0 w x :
  grows w0 w → grows w0 (set_schedule_store (fun s => s ++ [x]) w).
Proof.
  intros (A1 & A2 & A3 & A4 & A5 & A6). repeat split; simpl; auto.
  etrans; [exact A4|]. now apply prefix_app_r.
Qed.

Lemma vehicle_from_dict_grows w0 data w :
  grows w0 w → grows w0 (snd (Vehicle.from_dict data w)).
Proof.
  intros H. rewrite vehicle_from_dict_run.
  destruct (vehicle_of_dict data); simpl; [exact H|now apply grows_new_vehicle].
Qed.

Lemma passenger_from_dict_grows w0 data w :
  grows w0 w → grows w0 (snd (Passenger.from_dict data w)).
Proof.
  intros H. rewrite passenger_from_dict_run.
  destruct (passenger_of_dict data); simpl; [exact H|now apply grows_new_passenger].
Qed.

Lemma schedule_from_dict_grows w0 data w :
  grows w0 w → grows w0 (snd (Schedule.from_dict data w)).
Proof.
  intros H. rewrite schedule_from_dict_run.
  destruct (schedule_of_dict data); simpl; [exact H|now apply grows_new_schedule].
Qed.

Lemma add_vehicle_grows w0 (r : ref) v w :
  grows w0 w → (length (route_store w0) ≤ r)%nat →
  grows w0 (snd (Route.add_vehicle r v w)).
Proof.
  intros H Hr. unfold Route.add_vehicle.
  destruct (negb (isinstance v CVehicle)); [exact H|].
  unfold bind, get_route, deref, no_attribute, lift, put_route.
  destruct (route_store w !! r) as [x|]; [|exact H].
  destruct (vehicles x); try exact H.
  now apply grows_with_route.
Qed.

Lemma add_vehicles_grows w0 (r : ref) items : ∀ w,
  grows w0 w → (length (route_store w0) ≤ r)%nat →
  grows w0 (snd (Route.add_vehicles r items w)).
Proof.
  unfold Route.add_vehicles.
  induction items as [|d items IH]; intros w H Hr; simpl; [exact H|].
  unfold bind at 1. unfold bind at 1.
  pose proof (vehicle_from_dict_grows w0 d w H) as H1.
  destruct (Vehicle.from_dict d w) as [[e|v] w1]; simpl in *; [exact H1|].
  pose proof (add_vehicle_grows w0 r (VObj CVehicle v) w1 H1 Hr) as H2.
  destruct (Route.add_vehicle r (VObj CVehicle v) w1) as [[e|[]] w2]; simpl in *;
    [exact H2|].
  now apply IH.
Qed.

Lemma route_from_dict_grows w0 data w :
  grows w0 w → grows w0 (snd (Route.from_dict data w)).
Proof.
  intros H. rewrite route_from_dict_run.
  destruct (route_of_dict data) as [e|x]; simpl; [exact H|].
  pose proof (grows_new_route w0 w x H) as H1.
  destruct (vehicle_items data) as [e|items]; simpl; [exact H1|].
  assert (Hr : (length (route_store w0) ≤ length (route_store w))%nat).
  { destruct H as (_ & A2 & _). now apply prefix_length. }
  pose proof (add_vehicles_grows w0 (length (route_store w)) items _ H1 Hr) as H2.
  destruct (Route.add_vehicles _ _ _) as [[e|[]] w2]; exact H2.
Qed.

Lemma comprehension_grows {A} (f : A → M ref) w0 items :
  (∀ d w, grows w0 w → grows w0 (snd (f d w))) →
  ∀ w, grows w0 w → grows w0 (snd (comprehension f items w)).
Proof.
  intros Hf. induction items as [|d items IH]; intros w H; simpl; [exact H|].
  unfold bind at 1. pose proof (Hf d w H) as H1.
  destruct (f d w) as [[e|y] w1]; simpl in *; [exact H1|].
  unfold bind at 1. pose proof (IH w1 H1) as H2.
  destruct (comprehension f items w1) as [[e|ys] w2]; simpl in *; exact H2.
Qed.

Lemma load_list_grows from_dict data key w0 :
  (∀ d w, grows w0 w → grows w0 (snd (from_dict d w))) →
  ∀ w, grows w0 w → grows w0 (snd (TransportSystem.load_list from_dict data key w)).
Proof.
  intros Hf w H. unfold TransportSystem.load_list.
  rewrite bind_lift. destruct (dict_get data key (VList [])); [exact H|].
  rewrite bind_lift. destruct (iter v); [exact H|].
  now apply comprehension_grows.
Qed.

(** ** What the loops of [from_dict] and [load_from_json] build *)

Lemma with_vehicles_id x acc : vehicles x = VList acc → with_vehicles x (VList acc) = x.
Proof. destruct x; simpl; intros ->; reflexivity. Qed.

Lemma add_vehicles_ok (r : ref) items : ∀ vs w x acc,
  map_res vehicle_of_dict items = inr vs →
  route_store w !! r = Some x →
  vehicles x = VList acc →
  Route.add_vehicles r items w =
    (inr tt,
     World (vehicle_store w ++ vs)
           (<[r := with_vehicles x
                     (VList (acc ++ fresh CVehicle (length (vehicle_store w)) (length vs)))]>
              (route_store w))
           (passenger_store w) (schedule_store w) (system_store w) (disk w)).
Proof.
  unfold Route.add_vehicles.
  induction items as [|d items IH]; intros vs w x acc Hvs Hx Hacc; simpl in *.
  - inversion Hvs; subst. simpl. unfold ret. f_equal.
    rewrite !app_nil_r, (with_vehicles_id x acc Hacc), list_insert_id by exact Hx.
    symmetry. apply world_eta.
  - destruct (vehicle_of_dict d) as [e|v] eqn:Hd; [discriminate|].
    destruct (map_res vehicle_of_dict items) as [e|vs'] eqn:Hrest; [discriminate|].
    inversion Hvs; subst vs; clear Hvs.
    unfold bind at 1. unfold bind at 1.
    rewrite vehicle_from_dict_run, Hd.
    set (w1 := set_vehicle_store (fun s => (s ++ [v])) w).
    assert (Hx1 : route_store w1 !! r = Some x) by exact Hx.
    rewrite (add_vehicle_ok w1 r x acc _ Hx1 Hacc).
    erewrite IH; [|reflexivity|eapply with_route_lookup; exact Hx1|reflexivity].
    f_equal. simpl. rewrite list_insert_insert_eq. unfold with_vehicles. simpl.
    rewrite length_app. simpl. rewrite Nat.add_1_r, <- !app_assoc. reflexivity.
Qed.

Lemma add_vehicles_err (r : ref) items : ∀ e w x acc,
  map_res vehicle_of_dict items = inl e →
  route_store w !! r = Some x →
  vehicles x = VList acc →
  ∃ w', Route.add_vehicles r items w = (inl e, w').
Proof.
  unfold Route.add_vehicles.
  induction items as [|d items IH]; intros e w x acc He Hx Hacc; simpl in *.
  - discriminate.
  - unfold bind at 1. unfold bind at 1. rewrite vehicle_from_dict_run.
    destruct (vehicle_of_dict d) as [e'|v] eqn:Hd.
    + inversion He; subst. eauto.
    + destruct (map_res vehicle_of_dict items) as [e'|vs'] eqn:Hrest; [|discriminate].
      inversion He; subst e'; clear He.
      set (w1 := set_vehicle_store (fun s => (s ++ [v])) w).
      assert (Hx1 : route_store w1 !! r = Some x) by exact Hx.
      rewrite (add_vehicle_ok w1 r x acc _ Hx1 Hacc).
      eapply IH; [reflexivity|eapply with_route_lookup; exact Hx1|reflexivity].
Qed.

Lemma lookup_new {A} (l : list A) x : (l ++ [x]) !! length l = Some x.
Proof. rewrite lookup_app_r by lia. now rewrite Nat.sub_diag. Qed.

Lemma insert_new {A} (l : list A) x y : <[length l := y]> (l ++ [x]) = (l ++ [y]).
Proof.
  rewrite insert_app_r_alt by lia. now rewrite Nat.sub_diag.
Qed.

Lemma route_from_dict_ok data x vs w :
  route_entry data = inr (x, vs) →
  Route.from_dict data w =
    (inr (length (route_store w)),
     World (vehicle_store w ++ vs)
           (route_store w ++
              [with_vehicles x (VList (fresh CVehicle (length (vehicle_store w)) (length vs)))])
           (passenger_store w) (schedule_store w) (system_store w) (disk w)).
Proof.
  unfold route_entry, res_bind. intros H. rewrite route_from_dict_run.
  destruct (route_of_dict data) as [e|x0] eqn:Hx0; [discriminate|].
  destruct (vehicle_items data) as [e|items]; [discriminate|].
  destruct (map_res vehicle_of_dict items) as [e|vs0] eqn:Hvs; [discriminate|].
  inversion H; subst x0 vs0; clear H. cbv zeta.
  assert (Hacc : vehicles x = VList []).
  { unfold route_of_dict, res_bind in Hx0.
    repeat (destruct (subscript data _); [discriminate|]).
    now inversion Hx0. }
  erewrite add_vehicles_ok; [|exact Hvs|apply lookup_new|exact Hacc].
  simpl. now rewrite insert_new.
Qed.

Lemma route_from_dict_err data e w :
  route_entry data = inl e →
  ∃ w', Route.from_dict data w = (inl e, w').
Proof.
  unfold route_entry, res_bind. intros H. rewrite route_from_dict_run.
  destruct (route_of_dict data) as [e0|x0] eqn:Hx0; [inversion H; eauto|].
  destruct (vehicle_items data) as [e0|items]; [inversion H; eauto|].
  destruct (map_res vehicle_of_dict items) as [e0|vs0] eqn:Hvs; [|discriminate].
  inversion H; subst e0; clear H. cbv zeta.
  assert (Hacc : vehicles x0 = VList []).
  { unfold route_of_dict, res_bind in Hx0.
    repeat (destruct (subscript data _); [discriminate|]).
    now inversion Hx0. }
  destruct (add_vehicles_err (length (route_store w)) items e
              (set_route_store (fun s => (s ++ [x0])) w) x0 [] Hvs
              (lookup_new _ _) Hacc) as (w' & ->).
  eauto.
Qed.

Lemma routes_ok items : ∀ es w,
  map_res route_entry items = inr es →
  comprehension Route.from_dict items w =
    (inr (seq (length (route_store w)) (length es)),
     World (vehicle_store w ++ all_vehicles es)
           (route_store w ++ placed (length (vehicle_store w)) es)
           (passenger_store w) (schedule_store w) (system_store w) (disk w)).
Proof.
  induction items as [|d items IH]; intros es w Hes; simpl in *.
  - inversion Hes; subst. unfold ret. simpl. rewrite !app_nil_r.
    now rewrite world_eta.
  - destruct (route_entry d) as [e|[x vs]] eqn:Hd; [discriminate|].
    destruct (map_res route_entry items) as [e|es'] eqn:Hrest; [discriminate|].
    inversion Hes; subst es; clear Hes.
    rewrite (bind_ok _ _ _ _ _ (route_from_dict_ok d x vs w Hd)).
    erewrite bind_ok; [|apply IH; reflexivity].
    unfold ret, all_vehicles. simpl.
    rewrite !length_app. simpl. rewrite Nat.add_1_r, <- !app_assoc. reflexivity.
Qed.

Lemma bind_err_ex {A B} (m : M A) (k : A → M B) w e :
  (∃ w', m w = (inl e, w')) → ∃ w', bind m k w = (inl e, w').
Proof. intros (w' & H). exists w'. now apply bind_err. Qed.

Lemma bind_ok_ex {A B} (m : M A) (k : A → M B) w a w1 e :
  m w = (inr a, w1) → (∃ w', k a w1 = (inl e, w')) → ∃ w', bind m k w = (inl e, w').
Proof. intros H (w' & Hk). exists w'. now rewrite (bind_ok _ _ _ _ _ H). Qed.

Lemma routes_err items : ∀ e w,
  map_res route_entry items = inl e →
  ∃ w', comprehension Route.from_dict items w = (inl e, w').
Proof.
  induction items as [|d items IH]; intros e w He; simpl in *; [discriminate|].
  destruct (route_entry d) as [e'|[x vs]] eqn:Hd.
  - inversion He; subst e'. apply bind_err_ex. now apply route_from_dict_err.
  - destruct (map_res route_entry items) as [e'|es'] eqn:Hrest; [|discriminate].
    inversion He; subst e'.
    eapply bind_ok_ex; [apply route_from_dict_ok; exact Hd|].
    apply bind_err_ex. now apply IH.
Qed.

Lemma passengers_ok items : ∀ ps w,
  map_res passenger_of_dict items = inr ps →
  comprehension Passenger.from_dict items w =
    (inr (seq (length (passenger_store w)) (length ps)),
     World (vehicle_store w) (route_store w) (passenger_store w ++ ps)
           (schedule_store w) (system_store w) (disk w)).
Proof.
  induction items as [|d items IH]; intros ps w Hps; simpl in *.
  - inversion Hps; subst. unfold ret. simpl. rewrite app_nil_r.
    now rewrite world_eta.
  - destruct (passenger_of_dict d) as [e|x] eqn:Hd; [discriminate|].
    destruct (map_res passenger_of_dict items) as [e|ps'] eqn:Hrest; [discriminate|].
    inversion Hps; subst ps; clear Hps.
    unfold bind at 1. rewrite passenger_from_dict_run, Hd.
    erewrite bind_ok; [|apply IH; reflexivity].
    unfold ret. simpl.
    rewrite !length_app. simpl. rewrite Nat.add_1_r, <- !app_assoc. reflexivity.
Qed.

Lemma passengers_err items : ∀ e w,
  map_res passenger_of_dict items = inl e →
  ∃ w', comprehension Passenger.from_dict items w = (inl e, w').
Proof.
  induction items as [|d items IH]; intros e w He; simpl in *; [discriminate|].
  unfold bind at 1. rewrite passenger_from_dict_run.
  destruct (passenger_of_dict d) as [e'|x] eqn:Hd.
  - inversion He; subst e'. eauto.
  - destruct (map_res passenger_of_dict items) as [e'|ps'] eqn:Hrest; [|discriminate].
    inversion He; subst e'.
    apply bind_err_ex. now apply IH.
Qed.

Lemma schedules_ok items : ∀ ss w,
  map_res schedule_of_dict items = inr ss →
  comprehension Schedule.from_dict items w =
    (inr (seq (length (schedule_store w)) (length ss)),
     World (vehicle_store w) (route_store w) (passenger_store w)
           (schedule_store w ++ ss) (system_store w) (disk w)).
Proof.
  induction items as [|d items IH]; intros ss w Hss; simpl in *.
  - inversion Hss; subst. unfold ret. simpl. rewrite app_nil_r.
    now rewrite world_eta.
  - destruct (schedule_of_dict d) as [e|x] eqn:Hd; [discriminate|].
    destruct (map_res schedule_of_dict items) as [e|ss'] eqn:Hrest; [discriminate|].
    inversion Hss; subst ss; clear Hss.
    unfold bind at 1. rewrite schedule_from_dict_run, Hd.
    erewrite bind_ok; [|apply IH; reflexivity].
    unfold ret. simpl.
    rewrite !length_app. simpl. rewrite Nat.add_1_r, <- !app_assoc. reflexivity.
Qed.

Lemma schedules_err items : ∀ e w,
  map_res schedule_of_dict items = inl e →
  ∃ w', comprehension Schedule.from_dict items w = (inl e, w').
Proof.
  induction items as [|d items IH]; intros e w He; simpl in *; [discriminate|].
  unfold bind at 1. rewrite schedule_from_dict_run.
  destruct (schedule_of_dict d) as [e'|x] eqn:Hd.
  - inversion He; subst e'. eauto.
  - destruct (map_res schedule_of_dict items) as [e'|ss'] eqn:Hrest; [|discriminate].
    inversion He; subst e'.
    apply bind_err_ex. now apply IH.
Qed.

(** [load_list] follows [entries]: the same error, or fresh references in
    document order. *)
Lemma load_list_ok {A} from_dict (decode : value → res A) data key xs refs w' w :
  (∀ items ys w0,
     map_res decode items = inr ys →
     comprehension from_dict items w0 = (inr (refs ys w0), w' ys w0)) →
  entries decode data key = inr xs →
  TransportSystem.load_list from_dict data key w = (inr (refs xs w), w' xs w).
Proof.
  intros Hok. unfold entries, res_bind, TransportSystem.load_list.
  rewrite bind_lift. destruct (dict_get data key (VList [])); [discriminate|].
  rewrite bind_lift. destruct (iter v); [discriminate|].
  apply Hok.
Qed.

Lemma load_list_err {A} from_dict (decode : value → res A) data key e w :
  (∀ items e0 w0,
     map_res decode items = inl e0 →
     ∃ w', comprehension from_dict items w0 = (inl e0, w')) →
  entries decode data key = inl e →
  ∃ w', TransportSystem.load_list from_dict data key w = (inl e, w').
Proof.
  intros Herr. unfold entries, res_bind, TransportSystem.load_list.
  rewrite bind_lift. destruct (dict_get data key (VList [])); [intros [= ->]; eauto|].
  rewrite bind_lift. destruct (iter v); [intros [= ->]; eauto|].
  apply Herr.
Qed.

(** ** Loading *)

Lemma grows_keeps w w' : grows w w' → keeps_instances w w'.
Proof. intros (A1 & A2 & A3 & A4 & A5 & A6). repeat split; assumption. Qed.

Lemma run_grows {A} (m : M A) w r w' :
  m w = (r, w') → grows w (snd (m w)) → grows w w'.
Proof. intros ->. auto. Qed.

Lemma load_routes_grows data w r w' :
  TransportSystem.load_list Route.from_dict data "routes" w = (r, w') → grows w w'.
Proof.
  intros H. eapply run_grows; [exact H|].
  apply load_list_grows; [|apply grows_refl].
  intros d w0. apply route_from_dict_grows.
Qed.

Lemma load_passengers_grows data w r w' :
  TransportSystem.load_list Passenger.from_dict data "passengers" w = (r, w') →
  grows w w'.
Proof.
  intros H. eapply run_grows; [exact H|].
  apply load_list_grows; [|apply grows_refl].
  intros d w0. apply passenger_from_dict_grows.
Qed.

Lemma load_schedules_grows data w r w' :
  TransportSystem.load_list Schedule.from_dict data "schedules" w = (r, w') →
  grows w w'.
Proof.
  intros H. eapply run_grows; [exact H|].
  apply load_list_grows; [|apply grows_refl].
  intros d w0. apply schedule_from_dict_grows.
Qed.

Lemma assign_err_routes self data w e :
  entries route_entry data "routes" = inl e →
  ∃ w', TransportSystem.assign_collections self data w = (inl e, w') ∧ grows w w'.
Proof.
  intros Hr.
  destruct (load_list_err Route.from_dict route_entry data "routes" e w routes_err Hr)
    as (w' & H).
  exists w'. split.
  - unfold TransportSystem.assign_collections. now apply bind_err.
  - eapply load_routes_grows; exact H.
Qed.

Lemma assign_err_passengers self s data w es e :
  system_store w !! self = Some s →
  entries route_entry data "routes" = inr es →
  entries passenger_of_dict data "passengers" = inl e →
  ∃ w',
    TransportSystem.assign_collections self data w = (inl e, w') ∧
    keeps_instances w w' ∧
    system_store w' =
      <[self := TransportSystem_ (seq (length (route_store w)) (length es))
                                 (passengers s) (schedules s)]> (system_store w).
Proof.
  intros Hs Hr Hp.
  pose proof (load_list_ok Route.from_dict route_entry data "routes" es
                (fun ys w0 => seq (length (route_store w0)) (length ys))
                (fun ys w0 =>
                   World (vehicle_store w0 ++ all_vehicles ys)
                         (route_store w0 ++ placed (length (vehicle_store w0)) ys)
                         (passenger_store w0) (schedule_store w0) (system_store w0)
                         (disk w0))
                w routes_ok Hr) as H1.
  cbv beta in H1.
  set (w1 := World _ _ _ _ _ _) in H1.
  set (s1 := TransportSystem_ (seq (length (route_store w)) (length es))
                              (passengers s) (schedules s)).
  destruct (load_list_err Passenger.from_dict passenger_of_dict data "passengers" e
              (with_system self s1 w1) passengers_err Hp) as (w' & H2).
  exists w'. split; [|split].
  - unfold TransportSystem.assign_collections.
    rewrite (bind_ok _ _ _ _ _ H1).
    rewrite (bind_ok _ _ _ _ _ (deref_some CTransportSystem system_store self w1 s Hs)).
    unfold bind at 1. unfold put_system at 1.
    now apply bind_err.
  - apply load_passengers_grows in H2. apply grows_keeps in H2.
    destruct H2 as (A1 & A2 & A3 & A4 & A5).
    apply load_routes_grows in H1. apply grows_keeps in H1.
    destruct H1 as (B1 & B2 & B3 & B4 & B5).
    repeat split.
    + etrans; [exact B1|exact A1].
    + etrans; [exact B2|exact A2].
    + etrans; [exact B3|exact A3].
    + etrans; [exact B4|exact A4].
    + rewrite A5. exact B5.
  - apply load_passengers_grows in H2. destruct H2 as (_ & _ & _ & _ & -> & _).
    reflexivity.
Qed.

Lemma keeps_instances_trans w1 w2 w3 :
  keeps_instances w1 w2 → keeps_instances w2 w3 → keeps_instances w1 w3.
Proof.
  intros (A1 & A2 & A3 & A4 & A5) (B1 & B2 & B3 & B4 & B5).
  repeat split; try (etrans; eassumption).
Qed.

Lemma load_routes_ok data es w :
  entries route_entry data "routes" = inr es →
  TransportSystem.load_list Route.from_dict data "routes" w =
    (inr (seq (length (route_store w)) (length es)),
     World (vehicle_store w ++ all_vehicles es)
           (route_store w ++ placed (length (vehicle_store w)) es)
           (passenger_store w) (schedule_store w) (system_store w) (disk w)).
Proof.
  intros H.
  exact (load_list_ok Route.from_dict route_entry data "routes" es
           (fun ys w0 => seq (length (route_store w0)) (length ys))
           (fun ys w0 =>
              World (vehicle_store w0 ++ all_vehicles ys)
                    (route_store w0 ++ placed (length (vehicle_store w0)) ys)
                    (passenger_store w0) (schedule_store w0) (system_store w0)
                    (disk w0))
           w routes_ok H).
Qed.

Lemma load_passengers_ok data ps w :
  entries passenger_of_dict data "passengers" = inr ps →
  TransportSystem.load_list Passenger.from_dict data "passengers" w =
    (inr (seq (length (passenger_store w)) (length ps)),
     World (vehicle_store w) (route_store w) (passenger_store w ++ ps)
           (schedule_store w) (system_store w) (disk w)).
Proof.
  intros H.
  exact (load_list_ok Passenger.from_dict passenger_of_dict data "passengers" ps
           (fun ys w0 => seq (length (passenger_store w0)) (length ys))
           (fun ys w0 =>
              World (vehicle_store w0) (route_store w0) (passenger_store w0 ++ ys)
                    (schedule_store w0) (system_store w0) (disk w0))
           w passengers_ok H).
Qed.

Lemma load_schedules_ok data ss w :
  entries schedule_of_dict data "schedules" = inr ss →
  TransportSystem.load_list Schedule.from_dict data "schedules" w =
    (inr (seq (length (schedule_store w)) (length ss)),
     World (vehicle_store w) (route_store w) (passenger_store w)
           (schedule_store w ++ ss) (system_store w) (disk w)).
Proof.
  intros H.
  exact (load_list_ok Schedule.from_dict schedule_of_dict data "schedules" ss
           (fun ys w0 => seq (length (schedule_store w0)) (length ys))
           (fun ys w0 =>
              World (vehicle_store w0) (route_store w0) (passenger_store w0)
                    (schedule_store w0 ++ ys) (system_store w0) (disk w0))
           w schedules_ok H).
Qed.

Lemma assign_err_schedules self s data w es ps e :
  system_store w !! self = Some s →
  entries route_entry data "routes" = inr es →
  entries passenger_of_dict data "passengers" = inr ps →
  entries schedule_of_dict data "schedules" = inl e →
  ∃ w',
    TransportSystem.assign_collections self data w = (inl e, w') ∧
    keeps_instances w w' ∧
    system_store w' =
      <[self := TransportSystem_ (seq (length (route_store w)) (length es))
                                 (seq (length (passenger_store w)) (length ps))
                                 (schedules s)]> (system_store w).
Proof.
  intros Hs Hr Hp Hss.
  pose proof (load_routes_ok data es w Hr) as H1.
  set (w1 := World _ _ _ _ _ _) in H1.
  set (s1 := TransportSystem_ (seq (length (route_store w)) (length es))
                              (passengers s) (schedules s)).
  pose proof (load_passengers_ok data ps (with_system self s1 w1) Hp) as H2.
  set (w2 := World _ _ _ _ _ _) in H2.
  assert (Hs2 : system_store w2 !! self = Some s1).
  { eapply (with_system_lookup self s1 w1 s). exact Hs. }
  set (s2 := TransportSystem_ (routes s1) (seq (length (passenger_store w)) (length ps))
                              (schedules s1)).
  destruct (load_list_err Schedule.from_dict schedule_of_dict data "schedules" e
              (with_system self s2 w2) schedules_err Hss) as (w' & H3).
  exists w'. split; [|split].
  - unfold TransportSystem.assign_collections.
    rewrite (bind_ok _ _ _ _ _ H1).
    rewrite (bind_ok _ _ _ _ _ (deref_some CTransportSystem system_store self w1 s Hs)).
    unfold bind at 1. unfold put_system at 1.
    rewrite (bind_ok _ _ _ _ _ H2).
    rewrite (bind_ok _ _ _ _ _ (deref_some CTransportSystem system_store self w2 s1 Hs2)).
    unfold bind at 1. unfold put_system at 1.
    now apply bind_err.
  - apply load_schedules_grows in H3. apply grows_keeps in H3.
    eapply keeps_instances_trans; [|exact H3].
    repeat split; simpl; try reflexivity; try (now apply prefix_app_r).
  - apply load_schedules_grows in H3. destruct H3 as (_ & _ & _ & _ & -> & _).
    simpl. now rewrite list_insert_insert_eq.
Qed.

Lemma assign_ok self s data w es ps ss :
  system_store w !! self = Some s →
  entries route_entry data "routes" = inr es →
  entries passenger_of_dict data "passengers" = inr ps →
  entries schedule_of_dict data "schedules" = inr ss →
  TransportSystem.assign_collections self data w = (inr tt, loaded w self es ps ss).
Proof.
  intros Hs Hr Hp Hss.
  pose proof (load_routes_ok data es w Hr) as H1.
  set (w1 := World _ _ _ _ _ _) in H1.
  set (s1 := TransportSystem_ (seq (length (route_store w)) (length es))
                              (passengers s) (schedules s)).
  pose proof (load_passengers_ok data ps (with_system self s1 w1) Hp) as H2.
  set (w2 := World _ _ _ _ _ _) in H2.
  assert (Hs2 : system_store w2 !! self = Some s1).
  { eapply (with_system_lookup self s1 w1 s). exact Hs. }
  set (s2 := TransportSystem_ (routes s1) (seq (length (passenger_store w)) (length ps))
                              (schedules s1)).
  pose proof (load_schedules_ok data ss (with_system self s2 w2) Hss) as H3.
  set (w3 := World _ _ _ _ _ _) in H3.
  assert (Hs3 : system_store w3 !! self = Some s2).
  { eapply (with_system_lookup self s2 w2 s1). exact Hs2. }
  unfold TransportSystem.assign_collections.
  rewrite (bind_ok _ _ _ _ _ H1).
  rewrite (bind_ok _ _ _ _ _ (deref_some CTransportSystem system_store self w1 s Hs)).
  unfold bind at 1. unfold put_system at 1.
  rewrite (bind_ok _ _ _ _ _ H2).
  rewrite (bind_ok _ _ _ _ _ (deref_some CTransportSystem system_store self w2 s1 Hs2)).
  unfold bind at 1. unfold put_system at 1.
  rewrite (bind_ok _ _ _ _ _ H3).
  rewrite (bind_ok _ _ _ _ _ (deref_some CTransportSystem system_store self w3 s2 Hs3)).
  unfold put_system, loaded, with_system, set_system_store. simpl.
  now rewrite !list_insert_insert_eq.
Qed.

Lemma load_from_json_wraps self filename w :
  TransportSystem.load_from_json self filename w =
  match TransportSystem.load_from_json_try self filename w with
  | (inr tt, w') => (inr tt, w')
  | (inl e, w') => (inl (load_failure e), w')
  end.
Proof.
  unfold TransportSystem.load_from_json, try_except.
  destruct (TransportSystem.load_from_json_try self filename w) as [[e|[]] w']; reflexivity.
Qed.

Lemma load_try_unreadable self filename w :
  match disk w !! filename with
  | None =>
      TransportSystem.load_from_json_try self filename w = (inl (no_such_file filename), w)
  | Some (Locked e) | Some (Malformed e) =>
      TransportSystem.load_from_json_try self filename w = (inl e, w)
  | Some (Document data) =>
      TransportSystem.load_from_json_try self filename w =
      TransportSystem.assign_collections self data w
  end.
Proof.
  unfold TransportSystem.load_from_json_try, bind, json_load.
  destruct (disk w !! filename) as [[data|e|e]|]; reflexivity.
Qed.

(** Every run of [load_from_json], by what is on the disk and by the
    first collection that fails to rebuild. *)
Lemma load_from_json_cases w self s filename :
  system_store w !! self = Some s →
  match disk w !! filename with
  | None =>
      TransportSystem.load_from_json self filename w =
        (inl (load_failure (no_such_file filename)), w)
  | Some (Locked e) | Some (Malformed e) =>
      TransportSystem.load_from_json self filename w = (inl (load_failure e), w)
  | Some (Document data) =>
      match entries route_entry data "routes" with
      | inl e =>
          ∃ w', TransportSystem.load_from_json self filename w = (inl (load_failure e), w') ∧
                grows w w'
      | inr es =>
          match entries passenger_of_dict data "passengers" with
          | inl e =>
              ∃ w',
                TransportSystem.load_from_json self filename w = (inl (load_failure e), w') ∧
                keeps_instances w w' ∧
                system_store w' =
                  <[self := TransportSystem_ (seq (length (route_store w)) (length es))
                                             (passengers s) (schedules s)]>
                    (system_store w)
          | inr ps =>
              match entries schedule_of_dict data "schedules" with
              | inl e =>
                  ∃ w',
                    TransportSystem.load_from_json self filename w =
                      (inl (load_failure e), w') ∧
                    keeps_instances w w' ∧
                    system_store w' =
                      <[self := TransportSystem_
                                  (seq (length (route_store w)) (length es))
                                  (seq (length (passenger_store w)) (length ps))
                                  (schedules s)]>
                        (system_store w)
              | inr ss =>
                  TransportSystem.load_from_json self filename w =
                    (inr tt, loaded w self es ps ss)
              end
          end
      end
  end.
Proof.
  intros Hs. rewrite load_from_json_wraps.
  pose proof (load_try_unreadable self filename w) as Htry.
  destruct (disk w !! filename) as [[data|e|e]|]; try (now rewrite Htry).
  rewrite Htry.
  destruct (entries route_entry data "routes") as [e|es] eqn:Hr.
  { destruct (assign_err_routes self data w e Hr) as (w' & -> & Hg). eauto. }
  destruct (entries passenger_of_dict data "passengers") as [e|ps] eqn:Hp.
  { destruct (assign_err_passengers self s data w es e Hs Hr Hp) as (w' & -> & Hk & Hsys).
    eauto. }
  destruct (entries schedule_of_dict data "schedules") as [e|ss] eqn:Hss.
  { destruct (assign_err_schedules self s data w es ps e Hs Hr Hp Hss)
      as (w' & -> & Hk & Hsys).
    eauto. }
  now rewrite (assign_ok self s data w es ps ss Hs Hr Hp Hss).
Qed.

Lemma map_res_first_error {A B} (f : A → res B) good bad rest gs e :
  map_res f good = inr gs → f bad = inl e →
  map_res f (good ++ bad :: rest) = inl e.
Proof.
  revert gs. induction good as [|g good IH]; intros gs Hg Hb; simpl in *.
  - now rewrite Hb.
  - destruct (f g); [discriminate|].
    destruct (map_res f good) eqn:E; [discriminate|].
    now rewrite (IH l eq_refl Hb).
Qed.

Lemma entries_first_error {A} (decode : value → res A) kvs key good bad rest gs e :
  assoc key kvs = Some (VList (good ++ bad :: rest)) →
  map_res decode good = inr gs → decode bad = inl e →
  entries decode (VDict kvs) key = inl e.
Proof.
  intros Hk Hg Hb. unfold entries, res_bind. simpl. rewrite Hk. simpl.
  eapply map_res_first_error; eassumption.
Qed.

Lemma entries_missing_key {A} (decode : value → res A) kvs key :
  assoc key kvs = None → entries decode (VDict kvs) key = inr [].
Proof. intros Hk. unfold entries, res_bind. simpl. now rewrite Hk. Qed.

Lemma first_missing_route_entry kvs k :
  first_missing route_keys kvs = Some k →
  route_entry (VDict kvs) = inl (Raise KeyError [Repr (VStr k)]).
Proof.
  intros H. unfold route_entry, res_bind. now rewrite (first_missing_route kvs k H).
Qed.

Lemma route_of_dict_complete kvs :
  first_missing route_keys kvs = None → ∃ x, route_of_dict (VDict kvs) = inr x.
Proof.
  unfold route_of_dict, res_bind. rewrite !subscript_dict. simpl.
  repeat (destruct (assoc _ kvs); [|discriminate]). eauto.
Qed.

Lemma nested_vehicle_missing kvs good bad rest gs k :
  first_missing route_keys kvs = None →
  assoc "vehicles" kvs = Some (VList (good ++ VDict bad :: rest)) →
  map_res vehicle_of_dict good = inr gs →
  first_missing vehicle_keys bad = Some k →
  route_entry (VDict kvs) = inl (Raise KeyError [Repr (VStr k)]).
Proof.
  intros Hr Hv Hg Hb. unfold route_entry, res_bind.
  destruct (route_of_dict_complete kvs Hr) as (x & ->).
  unfold vehicle_items, res_bind. simpl. rewrite Hv. simpl.
  erewrite map_res_first_error; [reflexivity|exact Hg|].
  now apply first_missing_vehicle.
Qed.

Lemma seq_beyond {A} (l : list A) n :
  Forall (fun r => l !! r = None) (seq (length l) n).
Proof.
  apply Forall_forall. intros r Hr. apply elem_of_seq in Hr.
  apply lookup_ge_None. lia.
Qed.

Lemma decode_inv data es ps ss :
  decode data = inr (es, ps, ss) →
  entries route_entry data "routes" = inr es ∧
  entries passenger_of_dict data "passengers" = inr ps ∧
  entries schedule_of_dict data "schedules" = inr ss.
Proof.
  unfold decode, res_bind.
  destruct (entries route_entry data "routes"); [discriminate|].
  destruct (entries passenger_of_dict data "passengers"); [discriminate|].
  destruct (entries schedule_of_dict data "schedules"); [discriminate|].
  intros [= -> -> ->]. auto.
Qed.

Lemma load_from_json_ok w self s filename data es ps ss :
  system_store w !! self = Some s →
  disk w !! filename = Some (Document data) →
  decode data = inr (es, ps, ss) →
  TransportSystem.load_from_json self filename w = (inr tt, loaded w self es ps ss).
Proof.
  intros Hs Hf Hd. apply decode_inv in Hd as (Hr & Hp & Hss).
  pose proof (load_from_json_cases w self s filename Hs) as H.
  now rewrite Hf, Hr, Hp, Hss in H.
Qed.

Lemma load_from_json_err w self s filename data e :
  system_store w !! self = Some s →
  disk w !! filename = Some (Document data) →
  decode data = inl e →
  ∃ w', TransportSystem.load_from_json self filename w = (inl (load_failure e), w').
Proof.
  intros Hs Hf Hd.
  pose proof (load_from_json_cases w self s filename Hs) as H.
  rewrite Hf in H. unfold decode, res_bind in Hd.
  destruct (entries route_entry data "routes").
  { inversion Hd; subst. destruct H as (w' & H & _). eauto. }
  destruct (entries passenger_of_dict data "passengers").
  { inversion Hd; subst. destruct H as (w' & H & _). eauto. }
  destruct (entries schedule_of_dict data "schedules"); [|discriminate].
  inversion Hd; subst. destruct H as (w' & H & _). eauto.
Qed.

(** C7. A load that goes through replaces the three collections by
    references to the instances rebuilt from the document, none of which
    existed before; a top-level key that is missing gives an empty
    collection; a missing file, a file that is not JSON and an entity that
    lacks a required field all end in a file-operation error whose message
    is the prefix followed by the message of the cause; and there is no
    other outcome. *)
Theorem C7_load_replaces_and_wraps :
  ∀ w self s filename,
    system_store w !! self = Some s →
    (∀ data es ps ss,
       disk w !! filename = Some (Document data) →
       decode data = inr (es, ps, ss) →
       TransportSystem.load_from_json self filename w =
         (inr tt, loaded w self es ps ss) ∧
       system_store (loaded w self es ps ss) !! self =
         Some (TransportSystem_ (seq (length (route_store w)) (length es))
                                (seq (length (passenger_store w)) (length ps))
                                (seq (length (schedule_store w)) (length ss))) ∧
       Forall (fun r => route_store w !! r = None)
              (seq (length (route_store w)) (length es)) ∧
       Forall (fun r => passenger_store w !! r = None)
              (seq (length (passenger_store w)) (length ps)) ∧
       Forall (fun r => schedule_store w !! r = None)
              (seq (length (schedule_store w)) (length ss))) ∧
    (∀ kvs es ps ss,
       decode (VDict kvs) = inr (es, ps, ss) →
       (assoc "routes" kvs = None → es = []) ∧
       (assoc "passengers" kvs = None → ps = []) ∧
       (assoc "schedules" kvs = None → ss = [])) ∧
    (disk w !! filename = None →
     TransportSystem.load_from_json self filename w =
       (inl (load_failure (no_such_file filename)), w)) ∧
    (∀ e, disk w !! filename = Some (Malformed e) →
          TransportSystem.load_from_json self filename w = (inl (load_failure e), w)) ∧
    (∀ e, disk w !! filename = Some (Locked e) →
          TransportSystem.load_from_json self filename w = (inl (load_failure e), w)) ∧
    (∀ data e,
       disk w !! filename = Some (Document data) →
       decode data = inl e →
       ∃ w', TransportSystem.load_from_json self filename w =
               (inl (load_failure e), w')) ∧
    (∀ kvs k, first_missing route_keys kvs = Some k →
              route_entry (VDict kvs) = inl (Raise KeyError [Repr (VStr k)])) ∧
    (∀ kvs good bad rest gs k,
       first_missing route_keys kvs = None →
       assoc "vehicles" kvs = Some (VList (good ++ VDict bad :: rest)) →
       map_res vehicle_of_dict good = inr gs →
       first_missing vehicle_keys bad = Some k →
       route_entry (VDict kvs) = inl (Raise KeyError [Repr (VStr k)])) ∧
    (∀ kvs k, first_missing passenger_keys kvs = Some k →
              passenger_of_dict (VDict kvs) = inl (Raise KeyError [Repr (VStr k)])) ∧
    (∀ kvs k, first_missing schedule_keys kvs = Some k →
              schedule_of_dict (VDict kvs) = inl (Raise KeyError [Repr (VStr k)])) ∧
    (∀ A (dec : value → res A) kvs key good bad rest gs e,
       assoc key kvs = Some (VList (good ++ bad :: rest)) →
       map_res dec good = inr gs → dec bad = inl e →
       entries dec (VDict kvs) key = inl e) ∧
    (∃ r w', TransportSystem.load_from_json self filename w = (r, w') ∧
             (r = inr tt ∨ ∃ e, r = inl (load_failure e))).
Proof.
  intros w self s filename Hs.
  pose proof (load_from_json_cases w self s filename Hs) as Hcases.
  split.
  { intros data es ps ss Hf Hd. split; [eapply load_from_json_ok; eassumption|].
    split; [|repeat split; apply seq_beyond].
    simpl. apply list_lookup_insert_eq. eapply lookup_lt_Some; eassumption. }
  split.
  { intros kvs es ps ss Hd. apply decode_inv in Hd as (Hr & Hp & Hss).
    repeat split; intros Hk.
    - rewrite (entries_missing_key _ _ _ Hk) in Hr. now inversion Hr.
    - rewrite (entries_missing_key _ _ _ Hk) in Hp. now inversion Hp.
    - rewrite (entries_missing_key _ _ _ Hk) in Hss. now inversion Hss. }
  split; [intros Hf; now rewrite Hf in Hcases|].
  split; [intros e Hf; now rewrite Hf in Hcases|].
  split; [intros e Hf; now rewrite Hf in Hcases|].
  split; [intros data e Hf Hd; eapply load_from_json_err; eassumption|].
  split; [exact first_missing_route_entry|].
  split; [exact nested_vehicle_missing|].
  split; [exact first_missing_passenger|].
  split; [exact first_missing_schedule|].
  split; [intros A dec; apply entries_first_error|].
  rewrite load_from_json_wraps.
  destruct (TransportSystem.load_from_json_try self filename w) as [[e|[]] w'];
    eauto 6.
Qed.

Lemma C7_witness :
  TransportSystem.load_from_json 0 "good.json" on_disk =
    (inr tt,
     loaded on_disk 0
       [(Route_ (VInt 1) (VStr "t77") (VStr "A") (VStr "C") (VList []) ∅,
         [Vehicle_ (VInt 1) (VStr "Bus") (VInt 50) (VStr "Bus")])]
       [Passenger_ (VInt 1) (VStr "Ivan") (VStr "0021095222")]
       [Schedule_ (VInt 1) (VInt 1) (VStr "08:00") (VStr "08:45")]) ∧
  TransportSystem.load_from_json 0 "absent.json" on_disk =
    (inl (load_failure (no_such_file "absent.json")), on_disk) ∧
  TransportSystem.load_from_json 0 "junk.json" on_disk =
    (inl (load_failure (Raise JSONDecodeError [Lit "Expecting value"])), on_disk) ∧
  ∃ w', TransportSystem.load_from_json 0 "broken.json" on_disk =
          (inl (load_failure (Raise KeyError [Repr (VStr "card_number")])), w').
Proof.
  destruct (C7_load_replaces_and_wraps on_disk 0 (TransportSystem_ [0; 1] [0; 1] [0])
              "good.json" eq_refl) as (Hok & _).
  destruct (C7_load_replaces_and_wraps on_disk 0 (TransportSystem_ [0; 1] [0; 1] [0])
              "absent.json" eq_refl) as (_ & _ & Habsent & _).
  destruct (C7_load_replaces_and_wraps on_disk 0 (TransportSystem_ [0; 1] [0; 1] [0])
              "junk.json" eq_refl) as (_ & _ & _ & Hjunk & _).
  destruct (C7_load_replaces_and_wraps on_disk 0 (TransportSystem_ [0; 1] [0; 1] [0])
              "broken.json" eq_refl) as (_ & _ & _ & _ & _ & Hbroken & _).
  split; [|split; [|split]].
  - apply (Hok good_document); reflexivity.
  - apply Habsent. reflexivity.
  - apply Hjunk. reflexivity.
  - apply (Hbroken broken_document); reflexivity.
Defined.

(** ** Missing keys *)

Lemma route_entry_of_parts kvs id num sp ep items vs :
  assoc "route_id" kvs = Some id →
  assoc "number" kvs = Some num →
  assoc "start_point" kvs = Some sp →
  assoc "end_point" kvs = Some ep →
  assoc "vehicles" kvs = Some (VList items) ∨ (assoc "vehicles" kvs = None ∧ items = []) →
  map_res vehicle_of_dict items = inr vs →
  route_entry (VDict kvs) = inr (Route_ id num sp ep (VList []) ∅, vs).
Proof.
  intros H1 H2 H3 H4 H5 H6.
  unfold route_entry, route_of_dict, vehicle_items, res_bind.
  rewrite !subscript_dict, H1, H2, H3, H4. simpl.
  destruct H5 as [->|[-> ->]]; simpl.
  - now rewrite H6.
  - simpl in H6. now inversion H6.
Qed.

(** C8. [from_dict] on a mapping that lacks a required key raises
    [KeyError] for the first such key and builds nothing; [Route.from_dict]
    on a complete mapping builds a route whose list refers to one new
    vehicle for each nested mapping, in order. *)
Theorem C8_from_dict_requires_keys :
  (∀ kvs k w,
     k ∈ vehicle_keys → assoc k kvs = None →
     ∃ k', k' ∈ vehicle_keys ∧ assoc k' kvs = None ∧
           Vehicle.from_dict (VDict kvs) w = (inl (Raise KeyError [Repr (VStr k')]), w)) ∧
  (∀ kvs k w,
     k ∈ route_keys → assoc k kvs = None →
     ∃ k', k' ∈ route_keys ∧ assoc k' kvs = None ∧
           Route.from_dict (VDict kvs) w = (inl (Raise KeyError [Repr (VStr k')]), w)) ∧
  (∀ kvs k w,
     k ∈ passenger_keys → assoc k kvs = None →
     ∃ k', k' ∈ passenger_keys ∧ assoc k' kvs = None ∧
           Passenger.from_dict (VDict kvs) w = (inl (Raise KeyError [Repr (VStr k')]), w)) ∧
  (∀ kvs k w,
     k ∈ schedule_keys → assoc k kvs = None →
     ∃ k', k' ∈ schedule_keys ∧ assoc k' kvs = None ∧
           Schedule.from_dict (VDict kvs) w = (inl (Raise KeyError [Repr (VStr k')]), w)) ∧
  (∀ kvs id num sp ep items vs w,
     assoc "route_id" kvs = Some id →
     assoc "number" kvs = Some num →
     assoc "start_point" kvs = Some sp →
     assoc "end_point" kvs = Some ep →
     assoc "vehicles" kvs = Some (VList items) ∨ (assoc "vehicles" kvs = None ∧ items = []) →
     map_res vehicle_of_dict items = inr vs →
     Route.from_dict (VDict kvs) w =
       (inr (length (route_store w)),
        World (vehicle_store w ++ vs)
              (route_store w ++
                 [Route_ id num sp ep
                         (VList (fresh CVehicle (length (vehicle_store w)) (length vs))) ∅])
              (passenger_store w) (schedule_store w) (system_store w) (disk w))).
Proof.
  split; [|split; [|split; [|split]]].
  - intros kvs k w Hin Hk.
    destruct (first_missing_some _ _ _ Hin Hk) as (k' & Hf & Hin' & Hk').
    exists k'. repeat split; auto.
    now rewrite vehicle_from_dict_run, (first_missing_vehicle kvs k' Hf).
  - intros kvs k w Hin Hk.
    destruct (first_missing_some _ _ _ Hin Hk) as (k' & Hf & Hin' & Hk').
    exists k'. repeat split; auto.
    now rewrite route_from_dict_run, (first_missing_route kvs k' Hf).
  - intros kvs k w Hin Hk.
    destruct (first_missing_some _ _ _ Hin Hk) as (k' & Hf & Hin' & Hk').
    exists k'. repeat split; auto.
    now rewrite passenger_from_dict_run, (first_missing_passenger kvs k' Hf).
  - intros kvs k w Hin Hk.
    destruct (first_missing_some _ _ _ Hin Hk) as (k' & Hf & Hin' & Hk').
    exists k'. repeat split; auto.
    now rewrite schedule_from_dict_run, (first_missing_schedule kvs k' Hf).
  - intros kvs id num sp ep items vs w H1 H2 H3 H4 H5 H6.
    now rewrite (route_from_dict_ok _ _ _ w
                   (route_entry_of_parts kvs id num sp ep items vs H1 H2 H3 H4 H5 H6)).
Qed.

Lemma C8_witness :
  (∃ k', k' ∈ vehicle_keys ∧
         Vehicle.from_dict (VDict [("vehicle_id", VInt 1); ("model", VStr "Bus")]) sample
           = (inl (Raise KeyError [Repr (VStr k')]), sample)) ∧
  Route.from_dict
    (VDict [("route_id", VInt 1); ("number", VStr "t77");
            ("start_point", VStr "A"); ("end_point", VStr "C");
            ("vehicles",
             VList [VDict [("vehicle_id", VInt 1); ("model", VStr "Bus");
                           ("capacity", VInt 50); ("type", VStr "Bus")]])]) sample =
    (inr 3,
     World (vehicle_store sample ++ [Vehicle_ (VInt 1) (VStr "Bus") (VInt 50) (VStr "Bus")])
           (route_store sample ++
              [Route_ (VInt 1) (VStr "t77") (VStr "A") (VStr "C")
                      (VList [VObj CVehicle 2]) ∅])
           (passenger_store sample) (schedule_store sample) (system_store sample)
           (disk sample)).
Proof.
  destruct C8_from_dict_requires_keys as (Hv & _ & _ & _ & Hr).
  split.
  - destruct (Hv [("vehicle_id", VInt 1); ("model", VStr "Bus")] "type" sample)
      as (k' & Hin & _ & Hrun).
    + unfold vehicle_keys. rewrite !elem_of_cons. auto.
    + reflexivity.
    + exists k'. auto.
  - apply (Hr _ (VInt 1) (VStr "t77") (VStr "A") (VStr "C")
              [VDict [("vehicle_id", VInt 1); ("model", VStr "Bus");
                      ("capacity", VInt 50); ("type", VStr "Bus")]]
              [Vehicle_ (VInt 1) (VStr "Bus") (VInt 50) (VStr "Bus")]);
      try reflexivity.
    left. reflexivity.
Defined.

(** ** Failures and the state they leave *)

(** A computation that never changes the world leaves it unchanged when
    it raises. *)
Lemma raises_unchanged {A} (m : M A) w e w' :
  snd (m w) = w → m w = (inl e, w') → w' = w.
Proof. intros Hs H. rewrite H in Hs. exact Hs. Qed.

Lemma find_route_found_exists self id w r w' :
  TransportSystem.find_route self id w = (inr (Some r), w') →
  ∃ x, route_store w !! r = Some x.
Proof.
  unfold TransportSystem.find_route. intros H.
  apply bind_inv_ok in H as (s & w1 & Hs & H).
  apply deref_inv in Hs as [_ ->].
  apply find_route_in_some in H as (pre & post & _ & _ & x & Hx & _). eauto.
Qed.

Lemma create_route_raises self v w e w' :
  TransportSystem.create_route self v w = (inl e, w') → w' = w.
Proof.
  unfold TransportSystem.create_route, raise, bind, get_system, deref, put_system.
  destruct v as [| | | | | |[] r]; try (intros [= _ <-]; reflexivity).
  destruct (system_store w !! self); intros H; inversion H; reflexivity.
Qed.

Lemma create_passenger_raises self v w e w' :
  TransportSystem.create_passenger self v w = (inl e, w') → w' = w.
Proof.
  unfold TransportSystem.create_passenger, raise, bind, get_system, deref, put_system.
  destruct v as [| | | | | |[] r]; try (intros [= _ <-]; reflexivity).
  destruct (system_store w !! self); intros H; inversion H; reflexivity.
Qed.

Lemma update_route_raises self id kwargs w e w' :
  TransportSystem.update_route self id kwargs w = (inl e, w') → w' = w.
Proof.
  unfold TransportSystem.update_route. intros H.
  destruct (List.find _ kwargs); [now inversion H|].
  apply bind_inv_err in H as [H|(r & w1 & Hr & H)].
  - eapply raises_unchanged; [apply read_route_state|exact H].
  - apply read_route_inv in Hr as [Hf ->].
    destruct (find_route_found_exists _ _ _ _ _ Hf) as (x & Hx).
    rewrite (update_loop r kwargs x w Hx) in H. discriminate.
Qed.

Lemma delete_route_raises self id w e w' :
  TransportSystem.delete_route self id w = (inl e, w') → w' = w.
Proof.
  unfold TransportSystem.delete_route. intros H.
  apply bind_inv_err in H as [H|(r & w1 & Hr & H)].
  - eapply raises_unchanged; [apply read_route_state|exact H].
  - apply read_route_inv in Hr as [_ ->].
    apply bind_inv_err in H as [H|(s & w1 & Hs & H)].
    + eapply raises_unchanged; [apply deref_state|exact H].
    + apply deref_inv in Hs as [_ ->].
      destruct (remove_ref r (routes s)); inversion H. reflexivity.
Qed.

Lemma add_vehicle_raises self v w e w' :
  Route.add_vehicle self v w = (inl e, w') → w' = w.
Proof.
  unfold Route.add_vehicle.
  destruct (negb (isinstance v CVehicle)); [intros [= _ <-]; reflexivity|].
  intros H. apply bind_inv_err in H as [H|(x & w1 & Hx & H)].
  - eapply raises_unchanged; [apply deref_state|exact H].
  - apply deref_inv in Hx as [_ ->].
    destruct (vehicles x); inversion H; reflexivity.
Qed.

Lemma method_state {A} self name (body : M A) w :
  snd (body w) = w → snd (method self name body w) = w.
Proof.
  intros Hb. unfold method, bind, get_route, deref.
  destruct (route_store w !! self) as [x|]; [|reflexivity].
  destruct (shadowed x !! name); [reflexivity|exact Hb].
Qed.

Lemma remove_vehicle_raises self id w e w' :
  Route.remove_vehicle (str recursion_limit) self id w = (inl e, w') → w' = w.
Proof.
  unfold Route.remove_vehicle. intros H.
  pose proof (method_state self "find_vehicle" (Route.find_vehicle self id) w
                (find_vehicle_state self id w)) as Hst.
  apply bind_inv_err in H as [H|(v & w1 & Hv & H)].
  - eapply raises_unchanged; eassumption.
  - rewrite Hv in Hst. simpl in Hst. subst w1.
    destruct (truthy v);
      [|eapply raises_unchanged; [apply formatted_state|exact H]].
    apply bind_inv_err in H as [H|(x & w1 & Hx & H)].
    + eapply raises_unchanged; [apply deref_state|exact H].
    + apply deref_inv in Hx as [_ ->].
      destruct (vehicles x) as [| | | |vs| |]; try (inversion H; reflexivity).
      destruct (list_remove v vs); inversion H. reflexivity.
Qed.

Lemma save_to_json_objects self filename w :
  same_objects w (snd (TransportSystem.save_to_json self filename w)).
Proof.
  unfold TransportSystem.save_to_json, try_except, TransportSystem.save_to_json_try,
    bind, get_system, deref, TransportSystem.to_dicts, json_dump, raise.
  destruct (system_store w !! self) as [s|]; [|repeat split].
  destruct (map_res _ (routes s)); [repeat split|].
  destruct (map_res _ (passengers s)); [repeat split|].
  destruct (map_res _ (schedules s)); [repeat split|].
  destruct (disk w !! filename) as [[| |]|];
    try (destruct (first_instance _)); repeat split.
Qed.

Lemma load_from_json_raises w self s filename e w' :
  system_store w !! self = Some s →
  TransportSystem.load_from_json self filename w = (inl e, w') →
  keeps_instances w w' ∧
  (∀ r, r ≠ self → system_store w' !! r = system_store w !! r) ∧
  match disk w !! filename with
  | Some (Document data) =>
      match entries route_entry data "routes" with
      | inl _ => system_store w' !! self = Some s
      | inr es =>
          match entries passenger_of_dict data "passengers" with
          | inl _ =>
              system_store w' !! self =
                Some (TransportSystem_ (seq (length (route_store w)) (length es))
                                       (passengers s) (schedules s))
          | inr ps =>
              system_store w' !! self =
                Some (TransportSystem_ (seq (length (route_store w)) (length es))
                                       (seq (length (passenger_store w)) (length ps))
                                       (schedules s))
          end
      end
  | _ => w' = w
  end.
Proof.
  intros Hs Hload.
  pose proof (load_from_json_cases w self s filename Hs) as H.
  assert (Hlt : self < length (system_store w)) by (eapply lookup_lt_Some; eassumption).
  destruct (disk w !! filename) as [[data|e0|e0]|].
  2-4: rewrite H in Hload; inversion Hload; subst;
       repeat split; reflexivity.
  destruct (entries route_entry data "routes") as [e0|es].
  { destruct H as (w'' & H & Hg). rewrite H in Hload. inversion Hload; subst.
    split; [now apply grows_keeps|].
    destruct Hg as (_ & _ & _ & _ & -> & _). auto. }
  destruct (entries passenger_of_dict data "passengers") as [e0|ps].
  { destruct H as (w'' & H & Hk & Hsys). rewrite H in Hload. inversion Hload; subst.
    split; [exact Hk|]. rewrite Hsys. split.
    - intros r Hne. now apply list_lookup_insert_ne.
    - now apply list_lookup_insert_eq. }
  destruct (entries schedule_of_dict data "schedules") as [e0|ss].
  { destruct H as (w'' & H & Hk & Hsys). rewrite H in Hload. inversion Hload; subst.
    split; [exact Hk|]. rewrite Hsys. split.
    - intros r Hne. now apply list_lookup_insert_ne.
    - now apply list_lookup_insert_eq. }
  rewrite H in Hload. discriminate.
Qed.

(** C2, amended. Creating, reading, updating, deleting, adding and
    removing a vehicle leave the world untouched when they raise, and a
    failed save leaves every instance and registry as it was.  For the
    update this is said of keywords without the names that begin with
    two underscores, which [object] provides: assigning to one of those
    can fail after earlier keywords have been applied. A failed
    load keeps every instance and every other registry, and leaves its own
    registry untouched when the file cannot be read or parsed or when a
    route fails to rebuild; when a passenger fails the routes have been
    replaced already, and when a schedule fails so have the routes and the
    passengers. *)
Theorem C2_state_after_failure :
  (∀ self v w e w', TransportSystem.create_route self v w = (inl e, w') → w' = w) ∧
  (∀ self v w e w', TransportSystem.create_passenger self v w = (inl e, w') → w' = w) ∧
  (∀ self id w e w', TransportSystem.find_route self id w = (inl e, w') → w' = w) ∧
  (∀ self id w e w', TransportSystem.read_route self id w = (inl e, w') → w' = w) ∧
  (∀ self id w e w', TransportSystem.read_passenger self id w = (inl e, w') → w' = w) ∧
  (∀ self id kwargs w e w',
     Forall (fun kv => Route.special (fst kv) = false) kwargs →
     TransportSystem.update_route self id kwargs w = (inl e, w') → w' = w) ∧
  (∀ self id w e w', TransportSystem.delete_route self id w = (inl e, w') → w' = w) ∧
  (∀ self v w e w', Route.add_vehicle self v w = (inl e, w') → w' = w) ∧
  (∀ self id w e w',
     Route.remove_vehicle (str recursion_limit) self id w = (inl e, w') → w' = w) ∧
  (∀ self filename w e w',
     TransportSystem.save_to_json self filename w = (inl e, w') → same_objects w w') ∧
  (∀ w self s filename e w',
     system_store w !! self = Some s →
     TransportSystem.load_from_json self filename w = (inl e, w') →
     keeps_instances w w' ∧
     (∀ r, r ≠ self → system_store w' !! r = system_store w !! r) ∧
     match disk w !! filename with
     | Some (Document data) =>
         match entries route_entry data "routes" with
         | inl _ => system_store w' !! self = Some s
         | inr es =>
             match entries passenger_of_dict data "passengers" with
             | inl _ =>
                 system_store w' !! self =
                   Some (TransportSystem_ (seq (length (route_store w)) (length es))
                                          (passengers s) (schedules s))
             | inr ps =>
                 system_store w' !! self =
                   Some (TransportSystem_ (seq (length (route_store w)) (length es))
                                          (seq (length (passenger_store w)) (length ps))
                                          (schedules s))
             end
         end
     | _ => w' = w
     end).
Proof.
  split; [exact create_route_raises|].
  split; [exact create_passenger_raises|].
  split; [intros self id w e w'; apply raises_unchanged, find_route_state|].
  split; [intros self id w e w'; apply raises_unchanged, read_route_state|].
  split; [intros self id w e w'; apply raises_unchanged, read_passenger_state|].
  split; [intros self id kwargs w e w' _; apply update_route_raises|].
  split; [exact delete_route_raises|].
  split; [exact add_vehicle_raises|].
  split; [exact remove_vehicle_raises|].
  split.
  - intros self filename w e w' H.
    pose proof (save_to_json_objects self filename w) as Hs. now rewrite H in Hs.
  - exact load_from_json_raises.
Qed.

Lemma C2_witness :
  ∃ w',
    TransportSystem.load_from_json 0 "broken.json" on_disk =
      (inl (load_failure (Raise KeyError [Repr (VStr "card_number")])), w') ∧
    system_store w' !! 0 = Some (TransportSystem_ [3] [0; 1] [0]) ∧
    system_store w' !! 1 = Some (TransportSystem_ [0; 1; 2] [0] [0]).
Proof.
  destruct C2_state_after_failure as (_ & _ & _ & _ & _ & _ & _ & _ & _ & _ & Hload).
  eexists. split; [vm_compute; reflexivity|].
  match goal with
  | |- system_store ?w' !! 0 = _ ∧ _ =>
      destruct (Hload on_disk 0 (TransportSystem_ [0; 1] [0; 1] [0]) "broken.json"
                  (load_failure (Raise KeyError [Repr (VStr "card_number")])) w'
                  eq_refl) as (_ & Hother & Hself)
  end.
  - vm_compute. reflexivity.
  - split; [exact Hself|]. etrans; [apply (Hother 1); discriminate|reflexivity].
Defined.

(** C2 as stated fails: in [broken.json] the route is complete and the
    passenger lacks [card_number]; the load raises after it has replaced
    the routes of the registry. *)
Lemma C2_counterexample : ¬ load_is_atomic.
Proof.
  intros H.
  pose proof (H on_disk 0 (TransportSystem_ [0; 1] [0; 1] [0]) "broken.json"
                (load_failure (Raise KeyError [Repr (VStr "card_number")]))
                (snd (TransportSystem.load_from_json 0 "broken.json" on_disk))
                eq_refl) as Hs.
  assert (Hrun : TransportSystem.load_from_json 0 "broken.json" on_disk =
                 (inl (load_failure (Raise KeyError [Repr (VStr "card_number")])),
                  snd (TransportSystem.load_from_json 0 "broken.json" on_disk)))
    by (vm_compute; reflexivity).
  specialize (Hs Hrun). vm_compute in Hs. discriminate Hs.
Qed.

(** ** Round trip *)

(** *** Decoding undoes the dict form *)

Lemma vehicle_of_to_dict v : vehicle_of_dict (Vehicle.to_dict v) = inr v.
Proof. now destruct v. Qed.

Lemma passenger_of_to_dict p : passenger_of_dict (Passenger.to_dict p) = inr p.
Proof. now destruct p. Qed.

Lemma schedule_of_to_dict s : schedule_of_dict (Schedule.to_dict s) = inr s.
Proof. now destruct s. Qed.

Lemma map_res_map {A} (f : value → res A) (g : A → value) xs :
  (∀ x, f (g x) = inr x) → map_res f (map g xs) = inr xs.
Proof.
  intros Hfg. induction xs as [|x xs IH]; simpl; [reflexivity|].
  now rewrite Hfg, IH.
Qed.


Lemma route_entry_doc e : fields_only e → route_entry (route_doc e) = inr e.
Proof.
  destruct e as [[a b c d vs sh] l]. intros [Hv Hs]. simpl in Hv, Hs. subst.
  unfold route_entry, route_doc, res_bind. simpl.
  now rewrite (map_res_map vehicle_of_dict Vehicle.to_dict l vehicle_of_to_dict).
Qed.


Lemma view_route_fields_only w r e : view_route w r = Some e → fields_only e.
Proof.
  unfold view_route. destruct (route_store w !! r) as [x|]; simpl; [|discriminate].
  destruct (vehicles x); try discriminate.
  destruct (mapM (vehicle_at w) xs); simpl; [|discriminate].
  intros [= <-]. split; reflexivity.
Qed.

Lemma bind_Some_inv {A B} (o : option A) (f : A → option B) b :
  o ≫= f = Some b → ∃ a, o = Some a ∧ f a = Some b.
Proof. destruct o; simpl; [eauto|discriminate]. Qed.

Lemma snapshot_inv w self es ps ss :
  snapshot w self = Some (es, ps, ss) →
  ∃ s, system_store w !! self = Some s ∧
       Forall2 (fun r e => view_route w r = Some e) (routes s) es ∧
       Forall2 (fun r p => passenger_store w !! r = Some p) (passengers s) ps ∧
       Forall2 (fun r x => schedule_store w !! r = Some x) (schedules s) ss.
Proof.
  unfold snapshot. intros H.
  apply bind_Some_inv in H as (s & Hs & H).
  apply bind_Some_inv in H as (es' & Hes & H).
  apply bind_Some_inv in H as (ps' & Hps & H).
  apply bind_Some_inv in H as (ss' & Hss & H).
  inversion H; subst. exists s.
  repeat split; auto; now apply mapM_Some_1.
Qed.

Lemma snapshot_intro w self s es ps ss :
  system_store w !! self = Some s →
  Forall2 (fun r e => view_route w r = Some e) (routes s) es →
  Forall2 (fun r p => passenger_store w !! r = Some p) (passengers s) ps →
  Forall2 (fun r x => schedule_store w !! r = Some x) (schedules s) ss →
  snapshot w self = Some (es, ps, ss).
Proof.
  intros Hs Hes Hps Hss. unfold snapshot. rewrite Hs. simpl.
  rewrite (mapM_Some_2 _ _ _ Hes). simpl.
  rewrite (mapM_Some_2 _ _ _ Hps). simpl.
  now rewrite (mapM_Some_2 _ _ _ Hss).
Qed.


(** *** More instances do not change what a registry holds *)

Lemma vehicle_at_mono w w' v x :
  vehicle_store w `prefix_of` vehicle_store w' →
  vehicle_at w v = Some x → vehicle_at w' v = Some x.
Proof.
  intros Hp. destruct v as [| | | | | |[] r]; simpl; try discriminate.
  intros H. eapply prefix_lookup_Some; eassumption.
Qed.

Lemma view_route_mono w w' r e :
  vehicle_store w `prefix_of` vehicle_store w' →
  route_store w `prefix_of` route_store w' →
  view_route w r = Some e → view_route w' r = Some e.
Proof.
  intros Hv Hr. unfold view_route. intros H.
  apply bind_Some_inv in H as (x & Hx & H).
  rewrite (prefix_lookup_Some _ _ _ _ Hx Hr). simpl.
  destruct (vehicles x) as [| | | |vs| |]; try discriminate.
  apply bind_Some_inv in H as (vs' & Hvs & H).
  apply mapM_Some_1 in Hvs.
  rewrite (mapM_Some_2 (vehicle_at w') vs vs'); [exact H|].
  eapply Forall2_impl; [exact Hvs|]. intros v y. now apply vehicle_at_mono.
Qed.

Lemma snapshot_mono w w' self snap :
  vehicle_store w `prefix_of` vehicle_store w' →
  route_store w `prefix_of` route_store w' →
  passenger_store w `prefix_of` passenger_store w' →
  schedule_store w `prefix_of` schedule_store w' →
  system_store w' !! self = system_store w !! self →
  snapshot w self = Some snap → snapshot w' self = Some snap.
Proof.
  intros Hv Hr Hp Hs Hsys. destruct snap as [[es ps] ss]. intros H.
  apply snapshot_inv in H as (s & Hself & Hes & Hps & Hss).
  apply (snapshot_intro w' self s); [congruence| | |].
  - eapply Forall2_impl; [exact Hes|]. intros r e. now apply view_route_mono.
  - eapply Forall2_impl; [exact Hps|]. intros r p Hl.
    exact (prefix_lookup_Some _ _ _ _ Hl Hp).
  - eapply Forall2_impl; [exact Hss|]. intros r p Hl.
    exact (prefix_lookup_Some _ _ _ _ Hl Hs).
Qed.

(** *** What a load leaves in the new registry *)

Lemma Forall2_seq_app {A} (k : list A) : ∀ l,
  Forall2 (fun r x => (l ++ k) !! r = Some x) (seq (length l) (length k)) k.
Proof.
  induction k as [|x k IH]; intros l; simpl; constructor.
  - rewrite lookup_app_r by lia. now rewrite Nat.sub_diag.
  - specialize (IH (l ++ [x])). rewrite length_app, Nat.add_1_r in IH.
    eapply Forall2_impl; [exact IH|]. intros r y. simpl. now rewrite <- app_assoc.
Qed.

Lemma vehicles_fresh W vs : ∀ V,
  (∀ j v, vs !! j = Some v → vehicle_store W !! (V + j) = Some v) →
  Forall2 (fun v x => vehicle_at W v = Some x) (fresh CVehicle V (length vs)) vs.
Proof.
  induction vs as [|x vs IH]; intros V H; simpl; constructor.
  - simpl. rewrite <- (Nat.add_0_r V). now apply H.
  - apply IH. intros j v Hj. rewrite Nat.add_succ_comm. now apply H.
Qed.

Lemma view_placed W es : ∀ R V,
  (∀ i x, placed V es !! i = Some x → route_store W !! (R + i) = Some x) →
  (∀ j v, all_vehicles es !! j = Some v → vehicle_store W !! (V + j) = Some v) →
  Forall fields_only es →
  Forall2 (fun r e => view_route W r = Some e) (seq R (length es)) es.
Proof.
  induction es as [|[hdr vs] es IH]; intros R V H1 H2 Hf; simpl; constructor.
  - apply Forall_cons in Hf as [[Hv Hsh] _]. simpl in Hv, Hsh.
    unfold view_route.
    rewrite <- (Nat.add_0_r R), (H1 0 _ eq_refl). simpl.
    rewrite (mapM_Some_2 (vehicle_at W) _ vs).
    + simpl. destruct hdr; simpl in *; now subst.
    + apply vehicles_fresh. intros j v Hj. apply H2.
      unfold all_vehicles. simpl. now apply lookup_app_l_Some.
  - apply Forall_cons in Hf as [_ Hf].
    apply (IH (S R) (V + length vs)); [| |exact Hf].
    + intros i x Hi. rewrite Nat.add_succ_comm. now apply H1.
    + intros j v Hj. rewrite <- Nat.add_assoc. apply H2.
      unfold all_vehicles. simpl. rewrite lookup_app_r by lia.
      now replace (length vs + j - length vs) with j by lia.
Qed.

Lemma snapshot_loaded w self es ps ss :
  self < length (system_store w) →
  Forall fields_only es →
  snapshot (loaded w self es ps ss) self = Some (es, ps, ss).
Proof.
  intros Hlt Hf.
  eapply snapshot_intro.
  - simpl. now apply list_lookup_insert_eq.
  - simpl. apply (view_placed _ es (length (route_store w)) (length (vehicle_store w)));
      [| |exact Hf].
    + intros i x Hi. simpl. rewrite lookup_app_r by lia.
      now replace (length (route_store w) + i - length (route_store w)) with i by lia.
    + intros j v Hj. simpl. rewrite lookup_app_r by lia.
      now replace (length (vehicle_store w) + j - length (vehicle_store w)) with j by lia.
  - simpl. apply Forall2_seq_app.
  - simpl. apply Forall2_seq_app.
Qed.

(** *** What a save writes *)

Lemma to_dict_vehicles d w vs xs :
  Forall2 (fun v x => vehicle_at w v = Some x) vs xs →
  map_res (call_to_dict (S d) w) vs = inr (map Vehicle.to_dict xs).
Proof.
  induction 1 as [|v x vs xs Hv _ IH]; [reflexivity|].
  cbn [map_res map]. rewrite IH.
  destruct v as [| | | | | |[] r]; simpl in Hv; try discriminate.
  simpl. now rewrite Hv.
Qed.

Lemma call_to_dict_route_eq d w r :
  call_to_dict (S d) w (VObj CRoute r) =
  match route_store w !! r with
  | Some x =>
      match shadowed x !! "to_dict" with
      | Some f => not_callable f
      | None => Route.to_dict (call_to_dict d w) x
      end
  | None => no_attribute (VObj CRoute r) "to_dict"
  end.
Proof. reflexivity. Qed.

Lemma call_to_dict_route d w r e :
  view_route w r = Some e →
  unshadowed w "to_dict" r = true →
  call_to_dict (S (S d)) w (VObj CRoute r) = inr (route_doc e).
Proof.
  unfold view_route, unshadowed. intros Hview Hsh.
  rewrite call_to_dict_route_eq.
  destruct (route_store w !! r) as [x|]; [|discriminate]. simpl in Hview.
  destruct (shadowed x !! "to_dict"); [discriminate|].
  unfold Route.to_dict.
  destruct (vehicles x) as [| | | |vs| |]; try discriminate.
  apply bind_Some_inv in Hview as (xs & Hxs & Hview).
  inversion Hview; subst e; clear Hview.
  apply mapM_Some_1 in Hxs. cbn [iter].
  now rewrite (to_dict_vehicles d w vs xs Hxs).
Qed.

Lemma recursion_limit_enough : ∃ d, recursion_limit = S (S d).
Proof. exists 998. reflexivity. Qed.

Lemma to_dicts_routes w rs es :
  Forall2 (fun r e => view_route w r = Some e) rs es →
  forallb (unshadowed w "to_dict") rs = true →
  TransportSystem.to_dicts CRoute rs w = (inr (map route_doc es), w).
Proof.
  intros Hes Hsh. unfold TransportSystem.to_dicts. f_equal.
  destruct recursion_limit_enough as (d & ->).
  induction Hes as [|r e rs es Hr _ IH]; [reflexivity|].
  simpl in Hsh. apply andb_true_iff in Hsh as [Hsh1 Hsh2].
  cbn [map_res map]. rewrite (call_to_dict_route d w r e Hr Hsh1).
  now rewrite (IH Hsh2).
Qed.

Lemma to_dicts_passengers w rs ps :
  Forall2 (fun r p => passenger_store w !! r = Some p) rs ps →
  TransportSystem.to_dicts CPassenger rs w = (inr (map Passenger.to_dict ps), w).
Proof.
  intros Hps. unfold TransportSystem.to_dicts. f_equal.
  destruct recursion_limit_enough as (d & ->).
  induction Hps as [|r p rs ps Hr _ IH]; [reflexivity|].
  cbn [map_res map]. rewrite IH. simpl. now rewrite Hr.
Qed.

Lemma to_dicts_schedules w rs ss :
  Forall2 (fun r x => schedule_store w !! r = Some x) rs ss →
  TransportSystem.to_dicts CSchedule rs w = (inr (map Schedule.to_dict ss), w).
Proof.
  intros Hss. unfold TransportSystem.to_dicts. f_equal.
  destruct recursion_limit_enough as (d & ->).
  induction Hss as [|r x rs ss Hr _ IH]; [reflexivity|].
  cbn [map_res map]. rewrite IH. simpl. now rewrite Hr.
Qed.

Lemma saveable_inv w self :
  saveable w self = true →
  ∃ s es ps ss,
    system_store w !! self = Some s ∧
    snapshot w self = Some (es, ps, ss) ∧
    forallb (unshadowed w "to_dict") (routes s) = true ∧
    first_instance (document (es, ps, ss)) = None.
Proof.
  unfold saveable.
  destruct (system_store w !! self) as [s|] eqn:Hs; [|discriminate].
  destruct (snapshot w self) as [[[es ps] ss]|] eqn:Hsnap; [|discriminate].
  intros H. apply andb_true_iff in H as [Hsh Hplain].
  exists s, es, ps, ss. repeat split; auto.
  now destruct (first_instance (document (es, ps, ss))).
Qed.





(** * Further properties *)

(** ** Dict forms of single entities *)

(** X1. A vehicle, a passenger or a schedule rebuilt from its own dict
    form is a new instance with the same fields, and building it changes
    nothing else. *)
Theorem X1_flat_entities_round_trip :
  (∀ x w,
     Vehicle.from_dict (Vehicle.to_dict x) w =
       (inr (length (vehicle_store w)), set_vehicle_store (fun s => s ++ [x]) w)) ∧
  (∀ x w,
     Passenger.from_dict (Passenger.to_dict x) w =
       (inr (length (passenger_store w)), set_passenger_store (fun s => s ++ [x]) w)) ∧
  (∀ x w,
     Schedule.from_dict (Schedule.to_dict x) w =
       (inr (length (schedule_store w)), set_schedule_store (fun s => s ++ [x]) w)).
Proof.
  split; [|split]; intros x w.
  - now rewrite vehicle_from_dict_run, vehicle_of_to_dict.
  - now rewrite passenger_from_dict_run, passenger_of_to_dict.
  - now rewrite schedule_from_dict_run, schedule_of_to_dict.
Qed.

Lemma view_new_route w x vs :
  fields_only (x, vs) →
  view_route
    (World (vehicle_store w ++ vs)
           (route_store w ++
              [with_vehicles x (VList (fresh CVehicle (length (vehicle_store w)) (length vs)))])
           (passenger_store w) (schedule_store w) (system_store w) (disk w))
    (length (route_store w)) = Some (x, vs).
Proof.
  intros Hf.
  set (W := World _ _ _ _ _ _).
  pose proof (view_placed W [(x, vs)] (length (route_store w)) (length (vehicle_store w)))
    as H.
  assert (HF : Forall2 (fun r e => view_route W r = Some e)
                       (seq (length (route_store w)) 1) [(x, vs)]).
  { apply H.
    - intros i y Hi. subst W. simpl. rewrite lookup_app_r by lia.
      now replace (length (route_store w) + i - length (route_store w)) with i by lia.
    - intros j v Hj. subst W. simpl. rewrite lookup_app_r by lia.
      replace (length (vehicle_store w) + j - length (vehicle_store w)) with j by lia.
      unfold all_vehicles in Hj. simpl in Hj. now rewrite app_nil_r in Hj.
    - constructor; [exact Hf|constructor]. }
  now inversion HF.
Qed.

(** X2. The dict form of a route whose list holds vehicles rebuilds into a
    new route with the same fields and, in order, vehicles with the same
    fields.  The copy is deep: its list refers to vehicles allocated by
    the rebuilding, none of which existed before, and the original route
    is as it was. *)
Theorem X2_route_round_trip_is_a_deep_copy :
  ∀ w r e,
    view_route w r = Some e →
    unshadowed w "to_dict" r = true →
    call_to_dict recursion_limit w (VObj CRoute r) = inr (route_doc e) ∧
    ∃ w' x',
      Route.from_dict (route_doc e) w = (inr (length (route_store w)), w') ∧
      view_route w' (length (route_store w)) = Some e ∧
      view_route w' r = Some e ∧
      route_store w' !! length (route_store w) = Some x' ∧
      vehicles x' = VList (fresh CVehicle (length (vehicle_store w)) (length (snd e))) ∧
      Forall (fun n => vehicle_store w !! n = None)
             (seq (length (vehicle_store w)) (length (snd e))).
Proof.
  intros w r [x vs] Hview Hsh.
  pose proof (view_route_fields_only w r _ Hview) as Hf.
  split.
  { destruct recursion_limit_enough as (d & ->). now apply call_to_dict_route. }
  eexists. eexists.
  split; [apply route_from_dict_ok; now apply route_entry_doc|].
  split; [now apply view_new_route|].
  split.
  { eapply view_route_mono; [| |exact Hview]; simpl; now apply prefix_app_r. }
  split; [simpl; apply lookup_new|].
  split; [reflexivity|apply seq_beyond].
Qed.

Lemma X2_witness :
  ∃ w',
    Route.from_dict
      (route_doc (Route_ (VInt 1) (VStr "t77") (VStr "Ivanovskoe") (VStr "Perovo")
                         (VList []) ∅,
                  [Vehicle_ (VInt 1) (VStr "NefAZ 5299") (VInt 77) (VStr "bus");
                   Vehicle_ (VInt 2) (VStr "MAZ-203") (VInt 80) (VStr "bus")])) sample
      = (inr 3, w') ∧
    view_route w' 3 = view_route sample 0.
Proof.
  destruct (X2_route_round_trip_is_a_deep_copy sample 0 _ eq_refl eq_refl)
    as (_ & w' & x' & Hrun & Hnew & _).
  exists w'. split; [exact Hrun|exact Hnew].
Defined.

(** ** Guards and misses *)

(** X3. [create_route], [create_passenger] and [add_vehicle] refuse
    whatever is not an instance of their class, a string or an instance of
    another class alike, with the invalid-data error, and change nothing. *)
Theorem X3_guards_refuse_other_types :
  (∀ self v w,
     isinstance v CRoute = false →
     TransportSystem.create_route self v w =
       (inl (Raise InvalidDataError [Lit "Можно добавить только объект Route"]), w)) ∧
  (∀ self v w,
     isinstance v CPassenger = false →
     TransportSystem.create_passenger self v w =
       (inl (Raise InvalidDataError [Lit "Можно добавить только объект Passenger"]), w)) ∧
  (∀ self v w,
     isinstance v CVehicle = false →
     Route.add_vehicle self v w =
       (inl (Raise InvalidDataError [Lit "Можно добавить только объект Vehicle"]), w)).
Proof.
  split; [|split]; intros self v w Hv.
  - destruct v as [| | | | | |[] r]; try reflexivity; discriminate.
  - destruct v as [| | | | | |[] r]; try reflexivity; discriminate.
  - unfold Route.add_vehicle. now rewrite Hv.
Qed.

Lemma X3_witness :
  TransportSystem.create_route 0 (VStr "invalid_data") sample =
    (inl (Raise InvalidDataError [Lit "Можно добавить только объект Route"]), sample) ∧
  TransportSystem.create_passenger 0 (VObj CRoute 0) sample =
    (inl (Raise InvalidDataError [Lit "Можно добавить только объект Passenger"]), sample) ∧
  Route.add_vehicle 0 (VObj CPassenger 0) sample =
    (inl (Raise InvalidDataError [Lit "Можно добавить только объект Vehicle"]), sample).
Proof.
  destruct X3_guards_refuse_other_types as (Hr & Hp & Hv).
  split; [|split].
  - apply Hr. reflexivity.
  - apply Hp. reflexivity.
  - apply Hv. reflexivity.
Defined.




Lemma find_route_in_total rs id w :
  Forall (fun r => is_Some (route_store w !! r)) rs →
  TransportSystem.find_route_in rs id w = (inr None, w) ∨
  ∃ r, TransportSystem.find_route_in rs id w = (inr (Some r), w).
Proof.
  induction 1 as [|r rs [x Hx] _ IH]; [now left|].
  cbn [TransportSystem.find_route_in].
  rewrite (bind_ok _ _ _ _ _ (deref_some CRoute route_store r w x Hx)).
  destruct (py_eq (route_id x) id); [right; now exists r|exact IH].
Qed.

Lemma read_passenger_in_total ps id w :
  Forall (fun p => is_Some (passenger_store w !! p)) ps →
  own_text id = true →
  TransportSystem.read_passenger_in ps id w =
    (inl (Raise TransportError [Lit "Пассажир с ID "; Str id; Lit " не найден"]), w) ∨
  ∃ p, TransportSystem.read_passenger_in ps id w = (inr p, w).
Proof.
  intros H Hid. induction H as [|p ps [x Hx] _ IH].
  - left. cbn [TransportSystem.read_passenger_in].
    exact (raise_formatted _ id _ _ _ w [Str id] (str_own_text _ id w Hid)).
  - cbn [TransportSystem.read_passenger_in].
    rewrite (bind_ok _ _ _ _ _ (deref_some CPassenger passenger_store p w x Hx)).
    destruct (py_eq (passenger_id x) id); [right; now exists p|exact IH].
Qed.

(** X5. On a registry whose lists refer to existing instances, whatever
    their fields hold, and for an id that has a text of its own,
    [read_route], [delete_route] and [update_route] with keywords that a
    call can pass (the names that begin with two underscores left out) end
    in one of two ways: they go through, or they raise the
    route-not-found error and change nothing.  So [list.remove] in
    [delete_route] never raises [ValueError].  In the same way
    [read_passenger] returns a passenger of the list or raises
    [TransportError]. *)
Theorem X5_two_outcomes :
  ∀ w self s id,
    system_store w !! self = Some s →
    own_text id = true →
    let not_found :=
      Raise RouteNotFoundError [Lit "Маршрут с ID "; Str id; Lit " не найден"] in
    (Forall (fun r => is_Some (route_store w !! r)) (routes s) →
     ((∃ r, r ∈ routes s ∧ TransportSystem.read_route self id w = (inr r, w)) ∨
      TransportSystem.read_route self id w = (inl not_found, w)) ∧
     (∀ kwargs,
        keywords kwargs →
        (∃ w', TransportSystem.update_route self id kwargs w = (inr tt, w')) ∨
        TransportSystem.update_route self id kwargs w = (inl not_found, w)) ∧
     ((∃ w', TransportSystem.delete_route self id w = (inr tt, w')) ∨
      TransportSystem.delete_route self id w = (inl not_found, w))) ∧
    (Forall (fun p => is_Some (passenger_store w !! p)) (passengers s) →
     (∃ p, p ∈ passengers s ∧ TransportSystem.read_passenger self id w = (inr p, w)) ∨
     TransportSystem.read_passenger self id w =
       (inl (Raise TransportError [Lit "Пассажир с ID "; Str id; Lit " не найден"]), w)).
Proof.
  intros w self s id Hs Hid not_found. split.
  - intros Hex.
    pose proof (find_route_unfold self s id w Hs) as Hunf.
    destruct (find_route_in_total (routes s) id w Hex) as [Hnone|[r Hsome]].
    + rewrite <- Hunf in Hnone.
      pose proof (read_route_missing_own self id w Hnone Hid) as Hread.
      split; [now right|]. split.
      * intros kwargs Hkw. right. unfold TransportSystem.update_route.
        rewrite (keywords_bind kwargs Hkw).
        now rewrite (bind_err _ _ _ _ _ Hread).
      * right. unfold TransportSystem.delete_route.
        now rewrite (bind_err _ _ _ _ _ Hread).
    + destruct (find_route_in_some _ _ _ _ _ Hsome) as (pre & post & Hl & Hpre & Hhit).
      rewrite <- Hunf in Hsome.
      pose proof (read_route_found self id w r Hsome) as Hread.
      split; [|split].
      * left. exists r. split; [|exact Hread].
        rewrite Hl. apply elem_of_app. right. apply elem_of_cons. now left.
      * intros kwargs Hkw. left. destruct Hhit as (x & Hx & _).
        eexists.
        exact (update_route_ok w self id r x kwargs (keywords_bind _ Hkw) Hsome Hx).
      * left. unfold TransportSystem.delete_route.
        rewrite (bind_ok _ _ _ _ _ Hread).
        rewrite (bind_ok _ _ _ _ _ (deref_some CTransportSystem system_store self w s Hs)).
        rewrite Hl, (remove_ref_first pre r post (miss_not_hit w id pre r Hpre Hhit)).
        now eexists.
  - intros Hex. unfold TransportSystem.read_passenger.
    rewrite (bind_ok _ _ _ _ _ (deref_some CTransportSystem system_store self w s Hs)).
    destruct (read_passenger_in_total (passengers s) id w Hex Hid) as [Hnone|[p Hsome]].
    + now right.
    + left. exists p. split; [|exact Hsome].
      destruct (read_passenger_in_some _ _ _ _ _ Hsome) as (pre & post & Hl & _).
      rewrite Hl. apply elem_of_app. right. apply elem_of_cons. now left.
Qed.

Lemma X5_witness :
  (∃ w', TransportSystem.delete_route 1 (VInt 1) sample = (inr tt, w')) ∨
  TransportSystem.delete_route 1 (VInt 1) sample =
    (inl (Raise RouteNotFoundError [Lit "Маршрут с ID "; Str (VInt 1); Lit " не найден"]),
     sample).
Proof.
  destruct (X5_two_outcomes sample 1 _ (VInt 1) eq_refl eq_refl) as (Hr & _).
  apply Hr. repeat constructor; eexists; reflexivity.
Defined.

(** ** Operations that undo each other *)

Lemma with_system_same self s w :
  system_store w !! self = Some s → with_system self s w = w.
Proof.
  intros H. unfold with_system, set_system_store.
  rewrite list_insert_id by exact H. apply world_eta.
Qed.

Lemma with_system_twice self s1 s2 w :
  with_system self s2 (with_system self s1 w) = with_system self s2 w.
Proof.
  unfold with_system, set_system_store. simpl. now rewrite list_insert_insert_eq.
Qed.

Lemma transport_system_eta s :
  TransportSystem_ (routes s) (passengers s) (schedules s) = s.
Proof. now destruct s. Qed.

Lemma delete_route_first w self s id pre r post :
  system_store w !! self = Some s →
  routes s = pre ++ r :: post →
  Forall (route_has_id w id false) pre →
  route_has_id w id true r →
  TransportSystem.delete_route self id w =
    (inr tt, with_system self
               (TransportSystem_ (pre ++ post) (passengers s) (schedules s)) w).
Proof.
  intros Hs Hl Hpre Hhit. unfold TransportSystem.delete_route.
  assert (Hfind : TransportSystem.find_route self id w = (inr (Some r), w)).
  { rewrite (find_route_unfold self s id w Hs), Hl. now apply find_route_in_hit. }
  rewrite (bind_ok _ _ _ _ _ (read_route_found self id w r Hfind)).
  rewrite (bind_ok _ _ _ _ _ (deref_some CTransportSystem system_store self w s Hs)).
  now rewrite Hl, (remove_ref_first pre r post (miss_not_hit w id pre r Hpre Hhit)).
Qed.

(** X7. Registering a route and then deleting by its id gives back the
    registry as it was, provided no route already there carries that id.
    When an earlier route carries it, the pair of calls goes through as
    well, but it is the earlier route that leaves the registry and the new
    one that stays. *)
Theorem X7_create_then_delete :
  ∀ w self s r x,
    system_store w !! self = Some s →
    route_store w !! r = Some x →
    let both :=
      let* _ := TransportSystem.create_route self (VObj CRoute r) in
      TransportSystem.delete_route self (route_id x) in
    (py_eq (route_id x) (route_id x) = true →
     Forall (route_has_id w (route_id x) false) (routes s) →
     both w = (inr tt, w)) ∧
    (∀ pre r0 post,
       routes s = pre ++ r0 :: post →
       Forall (route_has_id w (route_id x) false) pre →
       route_has_id w (route_id x) true r0 →
       both w =
         (inr tt, with_system self
                    (TransportSystem_ (pre ++ post ++ [r]) (passengers s) (schedules s))
                    w)).
Proof.
  intros w self s r x Hs Hx both. subst both.
  pose proof (create_route_ok w self s r Hs) as Hc.
  set (s1 := TransportSystem_ (routes s ++ [r]) (passengers s) (schedules s)) in *.
  assert (Hs1 : system_store (with_system self s1 w) !! self = Some s1)
    by (eapply with_system_lookup; exact Hs).
  split.
  - intros Hrefl Hmiss. rewrite (bind_ok _ _ _ _ _ Hc).
    rewrite (delete_route_first (with_system self s1 w) self s1 (route_id x)
               (routes s) r [] Hs1 eq_refl).
    + simpl. rewrite app_nil_r, transport_system_eta, with_system_twice.
      now rewrite with_system_same.
    + exact Hmiss.
    + now exists x.
  - intros pre r0 post Hl Hpre Hhit. rewrite (bind_ok _ _ _ _ _ Hc).
    rewrite (delete_route_first (with_system self s1 w) self s1 (route_id x)
               pre r0 (post ++ [r]) Hs1).
    + simpl. now rewrite with_system_twice.
    + simpl. rewrite Hl. now rewrite <- app_assoc.
    + exact Hpre.
    + exact Hhit.
Qed.

Lemma X7_witness :
  (let* _ := TransportSystem.create_route 2 (VObj CRoute 1) in
   TransportSystem.delete_route 2 (VInt 2)) sample = (inr tt, sample) ∧
  (let* _ := TransportSystem.create_route 0 (VObj CRoute 2) in
   TransportSystem.delete_route 0 (VInt 1)) sample =
    (inr tt, with_system 0 (TransportSystem_ [1; 2] [0; 1] [0]) sample).
Proof.
  split.
  - destruct (X7_create_then_delete sample 2 _ 1 _ eq_refl eq_refl) as (H & _).
    apply H; [reflexivity|constructor].
  - destruct (X7_create_then_delete sample 0 _ 2 _ eq_refl eq_refl) as (_ & H).
    apply (H [] 0 [1]); [reflexivity|constructor|].
    eexists; split; reflexivity.
Defined.






(** ** Updates in sequence *)

Lemma apply_kwargs_app x kw1 kw2 :
  apply_kwargs x (kw1 ++ kw2) = apply_kwargs (apply_kwargs x kw1) kw2.
Proof. unfold apply_kwargs. apply fold_left_app. Qed.

(** X8. Two updates under the same id, with no keyword in common, act as
    the single call that passes the keywords of the first followed by
    those of the second: same result, same world, whether the id is found
    or not.  (The keywords are those a call can pass, without the names
    that begin with two underscores, which [object] provides.) *)
Theorem X8_updates_compose :
  ∀ w self id kw1 kw2,
    keywords kw1 →
    keywords kw2 →
    distinct (map fst (kw1 ++ kw2)) = true →
    (let* _ := TransportSystem.update_route self id kw1 in
     TransportSystem.update_route self id kw2) w =
    TransportSystem.update_route self id (kw1 ++ kw2) w.
Proof.
  intros w self id kw1 kw2 Hkw1 Hkw2 _.
  assert (Hkw : keywords (kw1 ++ kw2)) by (apply Forall_app; now split).
  pose proof (keywords_bind _ Hkw1) as Hb1.
  pose proof (keywords_bind _ Hkw2) as Hb2.
  pose proof (keywords_bind _ Hkw) as Hb.
  destruct (TransportSystem.read_route self id w) as [[e|r] w0] eqn:Hread.
  - assert (H1 : TransportSystem.update_route self id kw1 w = (inl e, w0)).
    { unfold TransportSystem.update_route. rewrite Hb1.
      now rewrite (bind_err _ _ _ _ _ Hread). }
    rewrite (bind_err _ _ _ _ _ H1).
    unfold TransportSystem.update_route. rewrite Hb.
    now rewrite (bind_err _ _ _ _ _ Hread).
  - apply read_route_inv in Hread as [Hfind ->].
    destruct (find_route_found_exists _ _ _ _ _ Hfind) as [x Hx].
    rewrite (bind_ok _ _ _ _ _ (update_route_ok w self id r x kw1 Hb1 Hfind Hx)).
    rewrite (update_route_ok w self id r x (kw1 ++ kw2) Hb Hfind Hx).
    rewrite (update_route_ok _ self id r (apply_kwargs x kw1) kw2 Hb2).
    + now rewrite with_route_twice, apply_kwargs_app.
    + rewrite (find_route_with_route self id r x _ w Hx)
        by (apply apply_kwargs_route_id, keywords_not_route_id, Hkw1).
      now rewrite Hfind.
    + eapply with_route_lookup. exact Hx.
Qed.

Lemma X8_witness :
  (let* _ := TransportSystem.update_route 0 (VInt 2) [("end_point", VStr "Novogireevo")] in
   TransportSystem.update_route 0 (VInt 2) [("number", VStr "38")]) sample =
  TransportSystem.update_route 0 (VInt 2)
    [("end_point", VStr "Novogireevo"); ("number", VStr "38")] sample.
Proof.
  apply (X8_updates_compose sample 0 (VInt 2)
           [("end_point", VStr "Novogireevo")] [("number", VStr "38")]).
  - constructor; [reflexivity|constructor].
  - constructor; [reflexivity|constructor].
  - reflexivity.
Defined.

(** ** What a load leaves behind *)

Lemma route_entry_fields_only data e : route_entry data = inr e → fields_only e.
Proof.
  unfold route_entry, res_bind.
  destruct (route_of_dict data) as [|x] eqn:Hx; [discriminate|].
  destruct (vehicle_items data) as [|items]; [discriminate|].
  destruct (map_res vehicle_of_dict items) as [|vs]; [discriminate|].
  intros [= <-]. unfold route_of_dict, res_bind in Hx.
  destruct (subscript data "route_id"); [discriminate|].
  destruct (subscript data "number"); [discriminate|].
  destruct (subscript data "start_point"); [discriminate|].
  destruct (subscript data "end_point"); [discriminate|].
  injection Hx as <-. now split.
Qed.

Lemma map_res_Forall {A B} (f : A → res B) (P : B → Prop) xs : ∀ ys,
  (∀ x y, f x = inr y → P y) → map_res f xs = inr ys → Forall P ys.
Proof.
  induction xs as [|x xs IH]; intros ys Hf; simpl.
  - intros [= <-]. constructor.
  - destruct (f x) as [e|y] eqn:Hx; [discriminate|].
    destruct (map_res f xs) as [e|ys']; [discriminate|].
    intros [= <-]. constructor; [now apply (Hf x)|now apply IH].
Qed.

Lemma decode_fields_only data es ps ss :
  decode data = inr (es, ps, ss) → Forall fields_only es.
Proof.
  intros H. apply decode_inv in H as (Hes & _ & _).
  unfold entries, res_bind in Hes.
  destruct (dict_get data "routes" (VList [])) as [|xs]; [discriminate|].
  destruct (iter xs) as [|items]; [discriminate|].
  eapply map_res_Forall; [|exact Hes]. intros x y. apply route_entry_fields_only.
Qed.

Lemma loaded_lookup w self s es ps ss :
  system_store w !! self = Some s →
  system_store (loaded w self es ps ss) !! self =
    Some (TransportSystem_ (seq (length (route_store w)) (length es))
                           (seq (length (passenger_store w)) (length ps))
                           (seq (length (schedule_store w)) (length ss))).
Proof.
  intros Hs. simpl. apply list_lookup_insert_eq.
  apply lookup_lt_is_Some. now exists s.
Qed.

Lemma snapshot_after_load w self s es ps ss :
  system_store w !! self = Some s →
  Forall fields_only es →
  snapshot (loaded w self es ps ss) self = Some (es, ps, ss).
Proof.
  intros Hs Hf. apply snapshot_loaded; [|exact Hf].
  apply lookup_lt_is_Some. now exists s.
Qed.

(** X10. A load that goes through leaves in the registry exactly what the
    document describes, whatever the registry held before, so loading the
    same file a second time changes nothing that the registry shows: the
    entries are not added to those of the first load.  Every other
    registry holds what it held. *)
Theorem X10_load_gives_the_document :
  ∀ w self s filename data snap,
    system_store w !! self = Some s →
    disk w !! filename = Some (Document data) →
    decode data = inr snap →
    ∃ w1 w2,
      TransportSystem.load_from_json self filename w = (inr tt, w1) ∧
      snapshot w1 self = Some snap ∧
      TransportSystem.load_from_json self filename w1 = (inr tt, w2) ∧
      snapshot w2 self = Some snap ∧
      (∀ other held,
         other ≠ self →
         snapshot w other = Some held →
         snapshot w1 other = Some held ∧ snapshot w2 other = Some held).
Proof.
  intros w self s filename data [[es ps] ss] Hs Hd Hdec.
  pose proof (decode_fields_only _ _ _ _ Hdec) as Hf.
  pose proof (load_from_json_ok w self s filename data es ps ss Hs Hd Hdec) as H1.
  set (w1 := loaded w self es ps ss) in *.
  pose proof (loaded_lookup w self s es ps ss Hs) as Hs1. fold w1 in Hs1.
  pose proof (load_from_json_ok w1 self _ filename data es ps ss Hs1 Hd Hdec) as H2.
  exists w1, (loaded w1 self es ps ss).
  split; [exact H1|]. split; [now apply (snapshot_after_load w self s)|].
  split; [exact H2|]. split; [now apply (snapshot_after_load w1 self _ _ _ _ Hs1)|].
  intros other held Hne Hheld.
  assert (Hstep : ∀ w0 held0,
            snapshot w0 other = Some held0 →
            snapshot (loaded w0 self es ps ss) other = Some held0).
  { intros w0 held0. apply snapshot_mono; simpl; try now apply prefix_app_r.
    now apply list_lookup_insert_ne. }
  split; [now apply Hstep|]. apply Hstep. now apply Hstep.
Qed.

Lemma X10_witness :
  ∃ w1 w2,
    TransportSystem.load_from_json 0 "good.json" on_disk = (inr tt, w1) ∧
    TransportSystem.load_from_json 0 "good.json" w1 = (inr tt, w2) ∧
    snapshot w2 0 =
      Some ([(Route_ (VInt 1) (VStr "t77") (VStr "A") (VStr "C") (VList []) ∅,
              [Vehicle_ (VInt 1) (VStr "Bus") (VInt 50) (VStr "Bus")])],
            [Passenger_ (VInt 1) (VStr "Ivan") (VStr "0021095222")],
            [Schedule_ (VInt 1) (VInt 1) (VStr "08:00") (VStr "08:45")]).
Proof.
  destruct (X10_load_gives_the_document on_disk 0 _ "good.json" good_document _
              eq_refl eq_refl eq_refl) as (w1 & w2 & H1 & _ & H2 & H3 & _).
  exists w1, w2. split; [exact H1|]. split; [exact H2|exact H3].
Defined.

Lemma view_route_with_route_ne r x' w r' :
  r ≠ r' → view_route (with_route r x' w) r' = view_route w r'.
Proof.
  intros Hne. unfold view_route. simpl. now rewrite list_lookup_insert_ne.
Qed.

Lemma mapM_view_with_route r x' w rs :
  r ∉ rs → mapM (view_route (with_route r x' w)) rs = mapM (view_route w) rs.
Proof.
  induction rs as [|r' rs IH]; intros Hnin; [reflexivity|].
  apply not_elem_of_cons in Hnin as [Hne Hnin]. simpl.
  now rewrite view_route_with_route_ne, IH.
Qed.

Lemma snapshot_with_route w self s r x' :
  system_store w !! self = Some s → r ∉ routes s →
  snapshot (with_route r x' w) self = snapshot w self.
Proof.
  intros Hs Hnin. unfold snapshot. simpl. rewrite Hs. simpl.
  now rewrite mapM_view_with_route.
Qed.

Lemma update_route_world self s id kwargs w :
  system_store w !! self = Some s →
  snd (TransportSystem.update_route self id kwargs w) = w ∨
  ∃ r x', r ∈ routes s ∧
          snd (TransportSystem.update_route self id kwargs w) = with_route r x' w.
Proof.
  intros Hs.
  destruct (List.find (fun kv => existsb (String.eqb (fst kv)) TransportSystem.parameters)
                      kwargs) as [kv|] eqn:Hb.
  { left. unfold TransportSystem.update_route. now rewrite Hb. }
  destruct (TransportSystem.read_route self id w) as [[e|r] w0] eqn:Hread.
  - left. unfold TransportSystem.update_route. rewrite Hb.
    rewrite (bind_err _ _ _ _ _ Hread).
    pose proof (read_route_state self id w) as H. now rewrite Hread in H.
  - apply read_route_inv in Hread as [Hfind ->].
    destruct (find_route_found_exists _ _ _ _ _ Hfind) as [x Hx].
    right. exists r, (apply_kwargs x kwargs). split.
    + rewrite (find_route_unfold self s id w Hs) in Hfind.
      destruct (find_route_in_some _ _ _ _ _ Hfind) as (pre & post & -> & _).
      apply elem_of_app. right. apply elem_of_cons. now left.
    + now rewrite (update_route_ok w self id r x kwargs Hb Hfind Hx).
Qed.

Lemma add_vehicle_world r v w :
  snd (Route.add_vehicle r v w) = w ∨
  ∃ x', snd (Route.add_vehicle r v w) = with_route r x' w.
Proof.
  unfold Route.add_vehicle.
  destruct (negb (isinstance v CVehicle)); [now left|].
  unfold bind, get_route, deref.
  destruct (route_store w !! r) as [x|]; [|now left].
  destruct (vehicles x); try (now left). right. now eexists.
Qed.

Lemma remove_vehicle_world r id w :
  snd (Route.remove_vehicle (str recursion_limit) r id w) = w ∨
  ∃ x', snd (Route.remove_vehicle (str recursion_limit) r id w) = with_route r x' w.
Proof.
  destruct (Route.remove_vehicle (str recursion_limit) r id w) as [[e|[]] w'] eqn:H.
  - left. simpl. eapply remove_vehicle_raises. exact H.
  - unfold Route.remove_vehicle in H.
    apply bind_inv_ok in H as (veh & w1 & Hm & H).
    pose proof (method_state r "find_vehicle" (Route.find_vehicle r id) w
                  (find_vehicle_state r id w)) as Hw1.
    rewrite Hm in Hw1. simpl in Hw1. subst w1.
    destruct (truthy veh);
      [|apply bind_inv_ok in H as (t & w2 & _ & H); discriminate].
    apply bind_inv_ok in H as (x & w1 & Hx & H).
    apply deref_inv in Hx as [_ ->].
    destruct (vehicles x); try discriminate.
    destruct (list_remove veh xs); [|discriminate].
    right. eexists. simpl. unfold put_route in H. now inversion H.
Qed.

(** X9. The routes that a load rebuilds are new objects that no other
    registry refers to: after the load, an update made through another
    registry, or a vehicle added to or removed from a route that existed
    before, changes nothing in what the loaded registry holds. *)
Theorem X9_loaded_registry_shares_nothing :
  ∀ w self s filename data snap,
    system_store w !! self = Some s →
    disk w !! filename = Some (Document data) →
    decode data = inr snap →
    ∃ w1,
      TransportSystem.load_from_json self filename w = (inr tt, w1) ∧
      snapshot w1 self = Some snap ∧
      (∀ other held id kwargs,
         other ≠ self →
         system_store w !! other = Some held →
         Forall (fun r => r < length (route_store w)) (routes held) →
         snapshot (snd (TransportSystem.update_route other id kwargs w1)) self
           = Some snap) ∧
      (∀ r v id,
         r < length (route_store w) →
         snapshot (snd (Route.add_vehicle r v w1)) self = Some snap ∧
         snapshot (snd (Route.remove_vehicle (str recursion_limit) r id w1)) self
           = Some snap).
Proof.
  intros w self s filename data [[es ps] ss] Hs Hd Hdec.
  pose proof (decode_fields_only _ _ _ _ Hdec) as Hf.
  pose proof (load_from_json_ok w self s filename data es ps ss Hs Hd Hdec) as H1.
  set (w1 := loaded w self es ps ss) in *.
  pose proof (loaded_lookup w self s es ps ss Hs) as Hs1. fold w1 in Hs1.
  pose proof (snapshot_after_load w self s es ps ss Hs Hf) as Hsnap. fold w1 in Hsnap.
  assert (Hold : ∀ r x', r < length (route_store w) →
                         snapshot (with_route r x' w1) self = Some (es, ps, ss)).
  { intros r x' Hr. rewrite (snapshot_with_route w1 self _ r x' Hs1); [exact Hsnap|].
    simpl. rewrite elem_of_seq. lia. }
  exists w1. split; [exact H1|]. split; [exact Hsnap|]. split.
  - intros other held id kwargs Hne Hheld Hrs.
    assert (Hheld1 : system_store w1 !! other = Some held).
    { subst w1. simpl. rewrite list_lookup_insert_ne by (intros E; now apply Hne).
      exact Hheld. }
    destruct (update_route_world other held id kwargs w1 Hheld1)
      as [->|(r & x' & Hin & ->)]; [exact Hsnap|].
    apply Hold. rewrite Forall_forall in Hrs. now apply Hrs.
  - intros r v id Hr. split.
    + destruct (add_vehicle_world r v w1) as [->|(x' & ->)]; [exact Hsnap|].
      now apply Hold.
    + destruct (remove_vehicle_world r id w1) as [->|(x' & ->)]; [exact Hsnap|].
      now apply Hold.
Qed.

Lemma X9_witness :
  ∃ w1,
    TransportSystem.load_from_json 2 "good.json" on_disk = (inr tt, w1) ∧
    snapshot (snd (TransportSystem.update_route 0 (VInt 1) [("number", VStr "78")] w1)) 2
      = snapshot w1 2.
Proof.
  destruct (X9_loaded_registry_shares_nothing on_disk 2 _ "good.json" good_document _
              eq_refl eq_refl eq_refl) as (w1 & H1 & Hsnap & Hupd & _).
  exists w1. split; [exact H1|]. rewrite Hsnap.
  apply (Hupd 0 (TransportSystem_ [0; 1] [0; 1] [0])); [discriminate|reflexivity|].
  repeat constructor.
Defined.

(** ** Saving: what can happen *)

Lemma save_try_disk self filename w :
  (∀ f, f ≠ filename →
        disk (snd (TransportSystem.save_to_json_try self filename w)) !! f = disk w !! f) ∧
  (fst (TransportSystem.save_to_json_try self filename w) = inr tt →
   ∃ data,
     disk (snd (TransportSystem.save_to_json_try self filename w)) !! filename =
       Some (Document data) ∧
     first_instance data = None).
Proof.
  unfold TransportSystem.save_to_json_try, bind, get_system, deref,
    TransportSystem.to_dicts, json_dump.
  destruct (system_store w !! self) as [s|]; [|split; [reflexivity|discriminate]].
  destruct (map_res _ (routes s)) as [|rs]; [split; [reflexivity|discriminate]|].
  destruct (map_res _ (passengers s)) as [|ps]; [split; [reflexivity|discriminate]|].
  destruct (map_res _ (schedules s)) as [|ss]; [split; [reflexivity|discriminate]|].
  set (data := VDict _).
  destruct (disk w !! filename) as [[| |]|] eqn:Hd;
    try (split; [reflexivity|discriminate]);
    destruct (first_instance data) eqn:Hplain; simpl;
    (split; [intros f Hf; now apply lookup_insert_ne|]);
    try discriminate;
    intros _; exists data; (split; [apply lookup_insert_eq|exact Hplain]).
Qed.

(** X12. Whatever the registry and the disk, [save_to_json] creates and
    changes no instance and no registry and touches no file but the one
    named.  It either returns, and then the file holds a document free of
    instances, or raises [FileOperationError] with the prefix of the save
    followed by the message of the cause; no other exception leaves it. *)
Theorem X12_save_outcomes :
  ∀ w self filename,
    ∃ r w',
      TransportSystem.save_to_json self filename w = (r, w') ∧
      same_objects w w' ∧
      (∀ f, f ≠ filename → disk w' !! f = disk w !! f) ∧
      ((r = inr tt ∧
        ∃ data, disk w' !! filename = Some (Document data) ∧ first_instance data = None) ∨
       ∃ e, r = inl (Raise FileOperationError
                       (Lit "Ошибка сохранения JSON: " :: str_exn e))).
Proof.
  intros w self filename.
  pose proof (save_to_json_objects self filename w) as Hobj.
  destruct (save_try_disk self filename w) as [Hother Hfile].
  unfold TransportSystem.save_to_json, try_except in *.
  destruct (TransportSystem.save_to_json_try self filename w) as [[e|[]] w'].
  - eexists _, _. split; [reflexivity|]. split; [exact Hobj|]. split; [exact Hother|].
    right. now exists e.
  - eexists _, _. split; [reflexivity|]. split; [exact Hobj|]. split; [exact Hother|].
    left. split; [reflexivity|]. now apply Hfile.
Qed.

(** X14. When a field of an entity holds an instance, the registry
    converts to dicts and the file opens, but [json.dump] fails on the
    instance: [save_to_json] raises the file-operation error quoting the
    class, and what it leaves under the name is no JSON document, whatever
    the file held before, so every later load of the name fails. *)
Theorem X14_failed_dump_spoils_the_file :
  ∀ w self s snap c filename,
    system_store w !! self = Some s →
    snapshot w self = Some snap →
    forallb (unshadowed w "to_dict") (routes s) = true →
    first_instance (document snap) = Some c →
    writable w filename = true →
    let cause := Raise JSONDecodeError [Cut (document snap)] in
    let w' := set_disk (fun d => <[filename := Malformed cause]> d) w in
    TransportSystem.save_to_json self filename w =
      (inl (Raise FileOperationError
              [Lit "Ошибка сохранения JSON: "; Lit "Object of type ";
               Lit (class_str c); Lit " is not JSON serializable"]), w') ∧
    ∀ other,
      TransportSystem.load_from_json other filename w' = (inl (load_failure cause), w').
Proof.
  intros w self s [[es ps] ss] c filename Hs Hsnap Hsh Hinst Hw cause w'.
  split.
  - apply snapshot_inv in Hsnap as (s' & Hs' & Hes & Hps & Hss).
    rewrite Hs in Hs'. inversion Hs'; subst s'; clear Hs'.
    unfold TransportSystem.save_to_json, try_except, TransportSystem.save_to_json_try.
    rewrite (bind_ok _ _ _ _ _ (deref_some CTransportSystem system_store self w s Hs)).
    rewrite (bind_ok _ _ _ _ _ (to_dicts_routes w _ _ Hes Hsh)).
    rewrite (bind_ok _ _ _ _ _ (to_dicts_passengers w _ _ Hps)).
    rewrite (bind_ok _ _ _ _ _ (to_dicts_schedules w _ _ Hss)).
    unfold json_dump, writable in *.
    change (VDict [("routes", VList (map route_doc es));
                   ("passengers", VList (map Passenger.to_dict ps));
                   ("schedules", VList (map Schedule.to_dict ss))])
      with (document (es, ps, ss)).
    rewrite Hinst.
    destruct (disk w !! filename) as [[| |]|]; try reflexivity. discriminate.
  - intros other. rewrite load_from_json_wraps.
    pose proof (load_try_unreadable other filename w') as H.
    assert (Hd : disk w' !! filename = Some (Malformed cause))
      by (subst w'; simpl; apply lookup_insert_eq).
    rewrite Hd in H. now rewrite H.
Qed.

Lemma X14_witness :
  ∃ e w',
    TransportSystem.save_to_json 0 "good.json"
      (snd (TransportSystem.update_route 0 (VInt 2) [("number", VObj CVehicle 0)] on_disk))
      = (inl e, w') ∧
    exn_type e = FileOperationError ∧
    ∃ e', TransportSystem.load_from_json 2 "good.json" w' = (inl e', w').
Proof.
  destruct (X14_failed_dump_spoils_the_file
              (snd (TransportSystem.update_route 0 (VInt 2)
                      [("number", VObj CVehicle 0)] on_disk))
              0 _ _ CVehicle "good.json"
              eq_refl eq_refl eq_refl eq_refl eq_refl) as [Hsave Hload].
  eexists _, _. split; [exact Hsave|]. split; [reflexivity|].
  eexists. apply Hload.
Defined.

Lemma Forall2_view_with_route r x' w rs es :
  r ∉ rs →
  Forall2 (fun r' e => view_route w r' = Some e) rs es →
  Forall2 (fun r' e => view_route (with_route r x' w) r' = Some e) rs es.
Proof.
  intros Hnin H. induction H as [|r' e rs es Hr _ IH]; [constructor|].
  apply not_elem_of_cons in Hnin as [Hne Hnin].
  constructor; [|now apply IH]. now rewrite view_route_with_route_ne.
Qed.

Lemma forallb_unshadowed_with_route r x' w name rs :
  r ∉ rs →
  forallb (unshadowed (with_route r x' w) name) rs = forallb (unshadowed w name) rs.
Proof.
  induction rs as [|r' rs IH]; intros Hnin; [reflexivity|].
  apply not_elem_of_cons in Hnin as [Hne Hnin]. simpl. rewrite IH by exact Hnin.
  f_equal. unfold unshadowed. simpl. now rewrite list_lookup_insert_ne.
Qed.

(** X13. [update_route] accepts the name of a method as a keyword and
    stores the value on the instance, where it hides the method.  After
    [update_route(id, to_dict=v)] on a registry that could be saved, every
    save raises the file-operation error, because [v] is not callable,
    and raises it before the file is opened: the disk stays as it is. *)
Theorem X13_hidden_to_dict_blocks_save :
  ∀ w self id r x v filename,
    saveable w self = true →
    TransportSystem.find_route self id w = (inr (Some r), w) →
    route_store w !! r = Some x →
    let w1 := with_route r (Route.setattr x "to_dict" v) w in
    TransportSystem.update_route self id [("to_dict", v)] w = (inr tt, w1) ∧
    TransportSystem.save_to_json self filename w1 =
      (inl (Raise FileOperationError
              [Lit "Ошибка сохранения JSON: "; Lit "'"; Lit (type_name v);
               Lit "' object is not callable"]), w1) ∧
    disk w1 = disk w.
Proof.
  intros w self id r x v filename Hsave Hfind Hx w1.
  split; [apply (update_route_ok w self id r x); [reflexivity|exact Hfind|exact Hx]|].
  split; [|reflexivity].
  apply saveable_inv in Hsave as (s & es & ps & ss & Hs & Hsnap & Hsh & _).
  apply snapshot_inv in Hsnap as (s' & Hs' & Hes & _).
  rewrite Hs in Hs'. inversion Hs'; subst s'; clear Hs'.
  pose proof Hfind as Hin. rewrite (find_route_unfold self s id w Hs) in Hin.
  destruct (find_route_in_some _ _ _ _ _ Hin) as (pre & post & Hl & Hpre & Hhit).
  pose proof (miss_not_hit w id pre r Hpre Hhit) as Hnin.
  rewrite Hl in Hes, Hsh.
  apply Forall2_app_inv_l in Hes as (es1 & es2 & Hes1 & _ & _).
  rewrite forallb_app in Hsh. apply andb_true_iff in Hsh as [Hsh1 _].
  pose proof (to_dicts_routes w1 pre es1
                (Forall2_view_with_route r _ w pre es1 Hnin Hes1)) as Hgood.
  unfold w1 in Hgood at 1.
  rewrite forallb_unshadowed_with_route in Hgood by exact Hnin.
  specialize (Hgood Hsh1).
  assert (Hgood' : map_res (fun r0 => call_to_dict recursion_limit w1 (VObj CRoute r0)) pre
                   = inr (map route_doc es1))
    by exact (f_equal fst Hgood).
  assert (Hbad : call_to_dict recursion_limit w1 (VObj CRoute r) =
                 not_callable v).
  { destruct recursion_limit_enough as (d & ->). rewrite call_to_dict_route_eq.
    unfold w1. rewrite (with_route_lookup r _ w x Hx).
    unfold Route.setattr. simpl. now rewrite lookup_insert_eq. }
  unfold TransportSystem.save_to_json, try_except, TransportSystem.save_to_json_try.
  rewrite (bind_ok _ _ _ s w1)
    by (apply (deref_some CTransportSystem system_store self w1 s); exact Hs).
  rewrite (bind_err _ _ _ (Raise TypeError
                             [Lit "'"; Lit (type_name v); Lit "' object is not callable"])
             w1); [reflexivity|].
  unfold TransportSystem.to_dicts. rewrite Hl. f_equal.
  exact (map_res_first_error _ pre r post _ _ Hgood' Hbad).
Qed.

Lemma X13_witness :
  ∃ w1,
    TransportSystem.update_route 0 (VInt 2) [("to_dict", VInt 5)] sample = (inr tt, w1) ∧
    TransportSystem.save_to_json 0 "transport_data.json" w1 =
      (inl (Raise FileOperationError
              [Lit "Ошибка сохранения JSON: "; Lit "'"; Lit "int";
               Lit "' object is not callable"]), w1).
Proof.
  destruct (X13_hidden_to_dict_blocks_save sample 0 (VInt 2) 1 _ (VInt 5)
              "transport_data.json" eq_refl eq_refl eq_refl) as (Hu & Hs & _).
  eexists. split; [exact Hu|exact Hs].
Defined.

(** ** Mappings with other keys *)

Lemma dict_ext_vehicle kvs kvs' :
  (∀ k, k ∈ vehicle_keys → assoc k kvs = assoc k kvs') →
  vehicle_of_dict (VDict kvs) = vehicle_of_dict (VDict kvs').
Proof.
  intros H. unfold vehicle_of_dict, subscript.
  now rewrite (H "vehicle_id" ltac:(repeat constructor)),
    (H "model" ltac:(repeat constructor)), (H "capacity" ltac:(repeat constructor)),
    (H "type" ltac:(repeat constructor)).
Qed.

Lemma dict_ext_passenger kvs kvs' :
  (∀ k, k ∈ passenger_keys → assoc k kvs = assoc k kvs') →
  passenger_of_dict (VDict kvs) = passenger_of_dict (VDict kvs').
Proof.
  intros H. unfold passenger_of_dict, subscript.
  now rewrite (H "passenger_id" ltac:(repeat constructor)),
    (H "name" ltac:(repeat constructor)), (H "card_number" ltac:(repeat constructor)).
Qed.

Lemma dict_ext_schedule kvs kvs' :
  (∀ k, k ∈ schedule_keys → assoc k kvs = assoc k kvs') →
  schedule_of_dict (VDict kvs) = schedule_of_dict (VDict kvs').
Proof.
  intros H. unfold schedule_of_dict, subscript.
  now rewrite (H "schedule_id" ltac:(repeat constructor)),
    (H "route_id" ltac:(repeat constructor)),
    (H "departure_time" ltac:(repeat constructor)),
    (H "arrival_time" ltac:(repeat constructor)).
Qed.

(** X15. [from_dict] looks at the keys it needs and at no other: two
    mappings that agree on them, in whatever order they list them and
    whatever else they hold, build the same instance.  [Route.from_dict]
    reads its four keys and ["vehicles"]. *)
Theorem X15_from_dict_reads_only_its_keys :
  ∀ kvs kvs' w,
    ((∀ k, k ∈ vehicle_keys → assoc k kvs = assoc k kvs') →
     Vehicle.from_dict (VDict kvs) w = Vehicle.from_dict (VDict kvs') w) ∧
    ((∀ k, k ∈ passenger_keys → assoc k kvs = assoc k kvs') →
     Passenger.from_dict (VDict kvs) w = Passenger.from_dict (VDict kvs') w) ∧
    ((∀ k, k ∈ schedule_keys → assoc k kvs = assoc k kvs') →
     Schedule.from_dict (VDict kvs) w = Schedule.from_dict (VDict kvs') w) ∧
    ((∀ k, k ∈ "vehicles" :: route_keys → assoc k kvs = assoc k kvs') →
     Route.from_dict (VDict kvs) w = Route.from_dict (VDict kvs') w).
Proof.
  intros kvs kvs' w. repeat split; intros H.
  - now rewrite !vehicle_from_dict_run, (dict_ext_vehicle kvs kvs').
  - now rewrite !passenger_from_dict_run, (dict_ext_passenger kvs kvs').
  - now rewrite !schedule_from_dict_run, (dict_ext_schedule kvs kvs').
  - rewrite !route_from_dict_run.
    assert (Hr : route_of_dict (VDict kvs) = route_of_dict (VDict kvs')).
    { unfold route_of_dict, subscript.
      now rewrite (H "route_id" ltac:(repeat constructor)),
        (H "number" ltac:(repeat constructor)),
        (H "start_point" ltac:(repeat constructor)),
        (H "end_point" ltac:(repeat constructor)). }
    assert (Hv : vehicle_items (VDict kvs) = vehicle_items (VDict kvs')).
    { unfold vehicle_items, dict_get.
      now rewrite (H "vehicles" ltac:(repeat constructor)). }
    now rewrite Hr, Hv.
Qed.

Lemma X15_witness :
  Vehicle.from_dict
    (VDict [("colour", VStr "red"); ("type", VStr "bus"); ("capacity", VInt 77);
            ("model", VStr "NefAZ"); ("vehicle_id", VInt 1)]) sample =
  Vehicle.from_dict
    (VDict [("vehicle_id", VInt 1); ("model", VStr "NefAZ"); ("capacity", VInt 77);
            ("type", VStr "bus")]) sample.
Proof.
  apply X15_from_dict_reads_only_its_keys.
  intros k Hk. unfold vehicle_keys in Hk.
  repeat (apply elem_of_cons in Hk as [->|Hk]; [reflexivity|]).
  now apply elem_of_nil in Hk.
Defined.

(** ** Saving what was loaded *)

Lemma first_instance_list xs :
  first_instance (VList xs) = None ↔ Forall (fun x => first_instance x = None) xs.
Proof.
  induction xs as [|x xs IH].
  - split; [constructor|reflexivity].
  - change (first_instance (VList (x :: xs)))
      with (match first_instance x with
            | Some c => Some c
            | None => first_instance (VList xs)
            end).
    split.
    + destruct (first_instance x) eqn:E; [discriminate|].
      intros H. constructor; [exact E|now apply IH].
    + intros H. inversion H as [|? ? Hx Hxs]; subst. rewrite Hx. now apply IH.
Qed.

Lemma first_instance_dict kvs :
  first_instance (VDict kvs) = None ↔
  Forall (fun kv => first_instance (snd kv) = None) kvs.
Proof.
  induction kvs as [|[k x] kvs IH].
  - split; [constructor|reflexivity].
  - change (first_instance (VDict ((k, x) :: kvs)))
      with (match first_instance x with
            | Some c => Some c
            | None => first_instance (VDict kvs)
            end).
    split.
    + destruct (first_instance x) eqn:E; [discriminate|].
      intros H. constructor; [exact E|now apply IH].
    + intros H. inversion H as [|? ? Hx Hxs]; subst. simpl in Hx. rewrite Hx.
      now apply IH.
Qed.

















(** ** Lists that hold something else than vehicles *)

Lemma dicts_after_change w r x' rs es :
  r ∉ rs →
  Forall2 (fun r' e => view_route w r' = Some e) rs es →
  forallb (unshadowed w "to_dict") rs = true →
  map_res (fun r0 => call_to_dict recursion_limit (with_route r x' w) (VObj CRoute r0)) rs
    = inr (map route_doc es).
Proof.
  intros Hnin Hes Hsh.
  pose proof (to_dicts_routes (with_route r x' w) rs es
                (Forall2_view_with_route r x' w rs es Hnin Hes)) as H.
  rewrite forallb_unshadowed_with_route in H by exact Hnin.
  exact (f_equal fst (H Hsh)).
Qed.

Lemma save_blocked w self id r x' e filename :
  saveable w self = true →
  TransportSystem.find_route self id w = (inr (Some r), w) →
  call_to_dict recursion_limit (with_route r x' w) (VObj CRoute r) = inl e →
  TransportSystem.save_to_json self filename (with_route r x' w) =
    (inl (Raise FileOperationError (Lit "Ошибка сохранения JSON: " :: str_exn e)),
     with_route r x' w).
Proof.
  intros Hsave Hfind Hbad.
  apply saveable_inv in Hsave as (s & es & ps & ss & Hs & Hsnap & Hsh & _).
  apply snapshot_inv in Hsnap as (s' & Hs' & Hes & _).
  rewrite Hs in Hs'. inversion Hs'; subst s'; clear Hs'.
  rewrite (find_route_unfold self s id w Hs) in Hfind.
  destruct (find_route_in_some _ _ _ _ _ Hfind) as (pre & post & Hl & Hpre & Hhit).
  pose proof (miss_not_hit w id pre r Hpre Hhit) as Hnin.
  rewrite Hl in Hes, Hsh.
  apply Forall2_app_inv_l in Hes as (es1 & es2 & Hes1 & _ & _).
  rewrite forallb_app in Hsh. apply andb_true_iff in Hsh as [Hsh1 _].
  pose proof (dicts_after_change w r x' pre es1 Hnin Hes1 Hsh1) as Hgood.
  unfold TransportSystem.save_to_json, try_except, TransportSystem.save_to_json_try.
  rewrite (bind_ok _ _ _ s (with_route r x' w))
    by (apply (deref_some CTransportSystem system_store self (with_route r x' w) s);
        exact Hs).
  rewrite (bind_err _ _ _ e (with_route r x' w)); [reflexivity|].
  unfold TransportSystem.to_dicts. rewrite Hl. f_equal.
  exact (map_res_first_error _ pre r post _ _ Hgood Hbad).
Qed.

Lemma own_list_recursion w r x rest : ∀ d,
  route_store w !! r = Some x →
  vehicles x = VList (VObj CRoute r :: rest) →
  shadowed x !! "to_dict" = None →
  call_to_dict d w (VObj CRoute r) =
    inl (Raise RecursionError [Lit "maximum recursion depth exceeded"]).
Proof.
  intros d Hx Hvs Hsh. induction d as [|d IH]; [reflexivity|].
  rewrite call_to_dict_route_eq, Hx, Hsh. unfold Route.to_dict.
  rewrite Hvs. cbn [iter map_res]. now rewrite IH.
Qed.

(** X16. [update_route] can put a route into its own list of vehicles.
    From then on [to_dict] of that route calls itself without end and
    raises [RecursionError], whatever the recursion limit, so a save of
    the registry raises the file-operation error and leaves the disk as
    it is. *)
Theorem X16_route_in_its_own_list :
  ∀ w self id r x rest filename,
    saveable w self = true →
    TransportSystem.find_route self id w = (inr (Some r), w) →
    route_store w !! r = Some x →
    let w1 := with_route r (Route.setattr x "vehicles" (VList (VObj CRoute r :: rest))) w in
    TransportSystem.update_route self id [("vehicles", VList (VObj CRoute r :: rest))] w
      = (inr tt, w1) ∧
    ∃ e,
      exn_type e = RecursionError ∧
      (∀ depth, call_to_dict depth w1 (VObj CRoute r) = inl e) ∧
      TransportSystem.save_to_json self filename w1 =
        (inl (Raise FileOperationError (Lit "Ошибка сохранения JSON: " :: str_exn e)), w1) ∧
      disk w1 = disk w.
Proof.
  intros w self id r x rest filename Hsave Hfind Hx w1.
  split; [apply (update_route_ok w self id r x); [reflexivity|exact Hfind|exact Hx]|].
  assert (Hsh : shadowed x !! "to_dict" = None).
  { pose proof Hsave as H.
    apply saveable_inv in H as (s & es & ps & ss & Hs & _ & Hsh & _).
    pose proof Hfind as Hin. rewrite (find_route_unfold self s id w Hs) in Hin.
    destruct (find_route_in_some _ _ _ _ _ Hin) as (pre & post & Hl & _).
    rewrite Hl, forallb_app in Hsh. apply andb_true_iff in Hsh as [_ Hsh].
    simpl in Hsh. apply andb_true_iff in Hsh as [Hsh _].
    unfold unshadowed in Hsh. rewrite Hx in Hsh.
    now destruct (shadowed x !! "to_dict"). }
  assert (Hrec : ∀ depth, call_to_dict depth w1 (VObj CRoute r) =
                          inl (Raise RecursionError [Lit "maximum recursion depth exceeded"])).
  { intros depth.
    apply (own_list_recursion w1 r
             (Route.setattr x "vehicles" (VList (VObj CRoute r :: rest))) rest depth).
    - unfold w1. eapply with_route_lookup. exact Hx.
    - reflexivity.
    - exact Hsh. }
  eexists. split; [|split; [exact Hrec|split; [|reflexivity]]]; [reflexivity|].
  apply (save_blocked w self id r _ _ filename Hsave Hfind). apply Hrec.
Qed.

Lemma X16_witness :
  ∃ w1 e,
    TransportSystem.update_route 0 (VInt 2) [("vehicles", VList [VObj CRoute 1])] sample
      = (inr tt, w1) ∧
    TransportSystem.save_to_json 0 "transport_data.json" w1 = (inl e, w1) ∧
    exn_type e = FileOperationError.
Proof.
  destruct (X16_route_in_its_own_list sample 0 (VInt 2) 1 _ [] "transport_data.json"
              eq_refl eq_refl eq_refl) as (Hu & e & _ & _ & Hs & _).
  eexists _, _. split; [exact Hu|]. split; [exact Hs|reflexivity].
Defined.






(** ** What the screen shows *)

Lemma str_plain d v w : first_instance v = None → str d v w = (inr [Str v], w).
Proof. destruct d, v as [| | | | | |[] r]; try reflexivity; discriminate. Qed.

Lemma plain_dict_fields kvs :
  first_instance (VDict kvs) = None →
  Forall (fun kv => first_instance (snd kv) = None) kvs.
Proof. apply first_instance_dict. Qed.

Lemma str_passenger d w r x :
  passenger_store w !! r = Some x →
  first_instance (Passenger.to_dict x) = None →
  ∃ t, str (S d) (VObj CPassenger r) w = (inr t, w) ∧
       passenger_line x = Lit "  " :: t.
Proof.
  intros Hx Hp. apply plain_dict_fields in Hp.
  rewrite !Forall_cons in Hp. cbn [snd] in Hp. destruct Hp as (H1 & H2 & H3 & _).
  eexists. split; [|reflexivity].
  rewrite str_passenger_eq. unfold Passenger.__str__.
  rewrite (bind_ok _ _ _ _ _ (deref_some CPassenger passenger_store r w x Hx)).
  rewrite (bind_ok _ _ _ _ _ (str_plain d _ w H2)).
  rewrite (bind_ok _ _ _ _ _ (str_plain d _ w H3)).
  rewrite (bind_ok _ _ _ _ _ (str_plain d _ w H1)).
  reflexivity.
Qed.

Lemma str_schedule d w r x :
  schedule_store w !! r = Some x →
  first_instance (Schedule.to_dict x) = None →
  ∃ t, str (S d) (VObj CSchedule r) w = (inr t, w) ∧
       schedule_line x = Lit "  " :: t.
Proof.
  intros Hx Hp. apply plain_dict_fields in Hp.
  rewrite !Forall_cons in Hp. cbn [snd] in Hp.
  destruct Hp as (H1 & H2 & H3 & H4 & _).
  eexists. split; [|reflexivity].
  rewrite str_schedule_eq. unfold Schedule.__str__.
  rewrite (bind_ok _ _ _ _ _ (deref_some CSchedule schedule_store r w x Hx)).
  rewrite (bind_ok _ _ _ _ _ (str_plain d _ w H1)).
  rewrite (bind_ok _ _ _ _ _ (str_plain d _ w H3)).
  rewrite (bind_ok _ _ _ _ _ (str_plain d _ w H4)).
  rewrite (bind_ok _ _ _ _ _ (str_plain d _ w H2)).
  reflexivity.
Qed.

Lemma vehicles_info_parts d w vs ys :
  Forall2 (fun v y => vehicle_at w v = Some y) vs ys →
  Forall (fun y => first_instance (Vehicle.to_dict y) = None) ys →
  comprehension (fun v =>
      let* model := getattr v "model" in
      let* m := str d model in
      let* vehicle_id := getattr v "vehicle_id" in
      let* i := str d vehicle_id in
      ret (m ++ [Lit "(ID:"] ++ i ++ [Lit ")"])) vs w =
    (inr (map (fun y => [Str (model y); Lit "(ID:"; Str (vehicle_id y); Lit ")"]) ys), w).
Proof.
  induction 1 as [|v y vs ys Hv _ IH]; intros Hp; [reflexivity|].
  inversion Hp as [|? ? Hy Hys]; subst.
  apply plain_dict_fields in Hy. rewrite !Forall_cons in Hy. cbn [snd] in Hy.
  destruct Hy as (H1 & H2 & _).
  destruct v as [| | | | | |[] r]; try discriminate. simpl in Hv.
  cbn [comprehension].
  assert (Gm : getattr (VObj CVehicle r) "model" w = (inr (model y), w))
    by (unfold getattr; now rewrite Hv).
  assert (Gi : getattr (VObj CVehicle r) "vehicle_id" w = (inr (vehicle_id y), w))
    by (unfold getattr; now rewrite Hv).
  rewrite (bind_ok _ _ _ [Str (model y); Lit "(ID:"; Str (vehicle_id y); Lit ")"] w).
  - rewrite (bind_ok _ _ _ _ _ (IH Hys)). reflexivity.
  - rewrite (bind_ok _ _ _ _ _ Gm).
    rewrite (bind_ok _ _ _ _ _ (str_plain d _ w H2)).
    rewrite (bind_ok _ _ _ _ _ Gi).
    rewrite (bind_ok _ _ _ _ _ (str_plain d _ w H1)).
    reflexivity.
Qed.

Lemma str_route d w r e :
  view_route w r = Some e →
  first_instance (route_doc e) = None →
  ∃ t, str (S d) (VObj CRoute r) w = (inr t, w) ∧ route_line e = Lit "  " :: t.
Proof.
  intros Hv Hp. unfold view_route in Hv.
  destruct (route_store w !! r) as [x|] eqn:Hx; [|discriminate]. simpl in Hv.
  destruct (vehicles x) as [| | | |vs| |] eqn:Hvs; try discriminate.
  destruct (mapM (vehicle_at w) vs) as [ys|] eqn:Hys; [|discriminate].
  simpl in Hv. injection Hv as <-.
  apply mapM_Some in Hys.
  apply plain_dict_fields in Hp. rewrite !Forall_cons in Hp. cbn [snd fst] in Hp.
  destruct Hp as (_ & H2 & H3 & H4 & H5 & _).
  apply first_instance_list in H5. rewrite Forall_map in H5.
  eexists. split; [|reflexivity].
  rewrite str_route_eq. unfold Route.__str__.
  rewrite (bind_ok _ _ _ _ _ (deref_some CRoute route_store r w x Hx)).
  rewrite Hvs. unfold lift at 1. cbn [iter].
  rewrite (bind_ok _ _ _ vs w) by reflexivity.
  rewrite (bind_ok _ _ _ _ _ (vehicles_info_parts d w vs ys Hys H5)).
  rewrite (bind_ok _ _ _ _ _ (str_plain d _ w H2)).
  rewrite (bind_ok _ _ _ _ _ (str_plain d _ w H3)).
  rewrite (bind_ok _ _ _ _ _ (str_plain d _ w H4)).
  reflexivity.
Qed.

Lemma print_each_lines {A} c (line : A → text) w rs ys :
  Forall2 (fun r y => ∃ t, str recursion_limit (VObj c r) w = (inr t, w) ∧
                           line y = Lit "  " :: t) rs ys →
  print_each c rs w = (map line ys, inr tt).
Proof.
  induction 1 as [|r y rs ys (t & Ht & Hl) _ IH]; [reflexivity|].
  cbn [print_each]. rewrite Ht, IH. cbn [fst map]. now rewrite Hl.
Qed.

(** X18. On a registry whose lists hold routes with vehicles, passengers
    and schedules and whose fields hold no instances,
    [display_all_data] raises nothing and prints the heading, then one
    line for each route, passenger and schedule in the order of the
    lists, each built from the fields alone.  So two registries with the
    same contents, such as a registry and the one loaded from its save,
    print the same. *)
Theorem X18_display_shows_the_contents :
  ∀ w self snap,
    snapshot w self = Some snap →
    first_instance (document snap) = None →
    TransportSystem.display_all_data self w = (screen snap, inr tt) ∧
    (∀ w' other,
       snapshot w' other = Some snap →
       TransportSystem.display_all_data other w' =
       TransportSystem.display_all_data self w).
Proof.
  assert (Hmain : ∀ w self snap,
            snapshot w self = Some snap →
            first_instance (document snap) = None →
            TransportSystem.display_all_data self w = (screen snap, inr tt)).
  { intros w self [[es ps] ss] Hsnap Hplain.
    apply snapshot_inv in Hsnap as (s & Hs & Hes & Hps & Hss).
    apply plain_dict_fields in Hplain. rewrite !Forall_cons in Hplain.
    cbn [snd fst] in Hplain. destruct Hplain as (Hp1 & Hp2 & Hp3 & _).
    apply first_instance_list in Hp1, Hp2, Hp3.
    rewrite Forall_map in Hp1, Hp2, Hp3.
    destruct recursion_limit_enough as (d & Hd).
    assert (R : print_each CRoute (routes s) w = (map route_line es, inr tt)).
    { apply print_each_lines. rewrite Hd. clear -Hes Hp1.
      induction Hes as [|r e rs es He _ IH]; [constructor|].
      inversion Hp1; subst. constructor; [now apply str_route|now apply IH]. }
    assert (P : print_each CPassenger (passengers s) w = (map passenger_line ps, inr tt)).
    { apply print_each_lines. rewrite Hd. clear -Hps Hp2.
      induction Hps as [|r e rs es He _ IH]; [constructor|].
      inversion Hp2; subst. constructor; [now apply str_passenger|now apply IH]. }
    assert (S : print_each CSchedule (schedules s) w = (map schedule_line ss, inr tt)).
    { apply print_each_lines. rewrite Hd. clear -Hss Hp3.
      induction Hss as [|r e rs es He _ IH]; [constructor|].
      inversion Hp3; subst. constructor; [now apply str_schedule|now apply IH]. }
    unfold TransportSystem.display_all_data.
    unfold get_system.
    rewrite (deref_some CTransportSystem system_store self w s Hs).
    cbn [fst]. rewrite R, P, S. reflexivity. }
  intros w self snap Hsnap Hplain.
  split; [now apply Hmain|].
  intros w' other Hsnap'.
  now rewrite (Hmain w self snap), (Hmain w' other snap).
Qed.

Lemma X18_witness :
  TransportSystem.display_all_data 0 sample =
    ([[Lit (nl ++ rule)]; [Lit "ДАННЫЕ ТРАНСПОРТНОЙ СИСТЕМЫ"]; [Lit rule];
      [Lit (nl ++ "МАРШРУТЫ:")];
      [Lit "  "; Lit "Маршрут "; Str (VStr "t77"); Lit ": "; Str (VStr "Ivanovskoe");
       Lit " - "; Str (VStr "Perovo"); Lit " | Транспорт: [";
       Str (VStr "NefAZ 5299"); Lit "(ID:"; Str (VInt 1); Lit ")"; Lit ", ";
       Str (VStr "MAZ-203"); Lit "(ID:"; Str (VInt 2); Lit ")"; Lit "]"];
      [Lit "  "; Lit "Маршрут "; Str (VStr "37"); Lit ": "; Str (VStr "Kursky");
       Lit " - "; Str (VStr "Vladimirskaya"); Lit " | Транспорт: ["; Lit "]"];
      [Lit (nl ++ "ПАССАЖИРЫ:")];
      [Lit "  "; Lit "Пассажир: "; Str (VStr "Ivan"); Lit " (Карта: ";
       Str (VStr "0021095222"); Lit ", ID: "; Str (VInt 1); Lit ")"];
      [Lit "  "; Lit "Пассажир: "; Str (VStr "Maria"); Lit " (Карта: ";
       Str (VStr "0022112312"); Lit ", ID: "; Str (VInt 1); Lit ")"];
      [Lit (nl ++ "РАСПИСАНИЯ:")];
      [Lit "  "; Lit "Расписание ID "; Str (VInt 1); Lit ": "; Str (VStr "08:00");
       Lit " - "; Str (VStr "08:45"); Lit " (Маршрут ID: "; Str (VInt 1); Lit ")"]],
     inr tt).
Proof.
  destruct (X18_display_shows_the_contents sample 0 _ eq_refl eq_refl) as [H _].
  exact H.
Defined.

Lemma print_each_stop {A} c (line : A → text) w pre ys r post e :
  Forall2 (fun r y => ∃ t, str recursion_limit (VObj c r) w = (inr t, w) ∧
                           line y = Lit "  " :: t) pre ys →
  fst (str recursion_limit (VObj c r) w) = inl e →
  print_each c (pre ++ r :: post) w = (map line ys, inl e).
Proof.
  intros Hpre Hr. induction Hpre as [|r' y rs ys (t & Ht & Hl) _ IH].
  - cbn [app print_each]. now rewrite Hr.
  - cbn [app print_each]. rewrite Ht, IH. cbn [fst map]. now rewrite Hl.
Qed.

Lemma getattr_no_model v w :
  isinstance v CVehicle = false → isinstance v CRoute = false →
  getattr v "model" w = (no_attribute v "model", w).
Proof.
  intros Hv Hr. unfold getattr.
  destruct v as [| | | | | |[] r]; try reflexivity; try discriminate.
  - destruct (passenger_store w !! r); reflexivity.
  - destruct (schedule_store w !! r); reflexivity.
Qed.

(** X19. [display_all_data] has no handler of its own.  Once
    [update_route] has put into the list of a route something that is
    neither a vehicle nor a route, the listing prints the heading and the
    lines of the routes that come before, then stops with the
    [AttributeError] of the missing [model]: the remaining routes, the
    passengers and the schedules are not shown, and the error is not a
    [TransportError]. *)
Theorem X19_display_stops_at_the_first_failure :
  ∀ w self s snap id pre r post x v rest,
    system_store w !! self = Some s →
    snapshot w self = Some snap →
    first_instance (document snap) = None →
    routes s = pre ++ r :: post →
    Forall (route_has_id w id false) pre →
    route_has_id w id true r →
    route_store w !! r = Some x →
    isinstance v CVehicle = false →
    isinstance v CRoute = false →
    let w1 := with_route r (Route.setattr x "vehicles" (VList (v :: rest))) w in
    TransportSystem.update_route self id [("vehicles", VList (v :: rest))] w = (inr tt, w1) ∧
    TransportSystem.display_all_data self w1 =
      (take (4 + length pre) (screen snap),
       inl (Raise AttributeError
              [Lit "'"; Lit (type_name v); Lit "' object has no attribute '";
               Lit "model"; Lit "'"])).
Proof.
  intros w self s [[es ps] ss] id pre r post x v rest Hs Hsnap Hplain Hl Hpre Hhit Hx
    Hv Hr w1.
  assert (Hfind : TransportSystem.find_route self id w = (inr (Some r), w)).
  { rewrite (find_route_unfold self s id w Hs), Hl. now apply find_route_in_hit. }
  split; [apply (update_route_ok w self id r x); [reflexivity|exact Hfind|exact Hx]|].
  apply snapshot_inv in Hsnap as (s' & Hs' & Hes & _).
  rewrite Hs in Hs'. inversion Hs'; subst s'; clear Hs'.
  pose proof (miss_not_hit w id pre r Hpre Hhit) as Hnin.
  rewrite Hl in Hes.
  apply Forall2_app_inv_l in Hes as (es1 & es2 & Hes1 & Hes2 & ->).
  apply plain_dict_fields in Hplain. rewrite !Forall_cons in Hplain.
  cbn [snd fst] in Hplain. destruct Hplain as (Hp1 & _).
  apply first_instance_list in Hp1. rewrite Forall_map, Forall_app in Hp1.
  destruct Hp1 as [Hp1 _].
  set (err := Raise AttributeError _).
  assert (R : print_each CRoute (routes s) w1 = (map route_line es1, inl err)).
  { rewrite Hl. apply print_each_stop.
    - destruct recursion_limit_enough as (d & ->).
      pose proof (Forall2_view_with_route r
                    (Route.setattr x "vehicles" (VList (v :: rest))) w pre es1 Hnin Hes1)
        as Hes1'.
      fold w1 in Hes1'. clear -Hes1' Hp1.
      induction Hes1' as [|r0 e0 rs0 es0 He _ IH]; [constructor|].
      inversion Hp1; subst. constructor; [now apply str_route|now apply IH].
    - destruct recursion_limit_enough as (d & ->).
      rewrite str_route_eq. unfold Route.__str__.
      rewrite (bind_ok _ _ _ (Route.setattr x "vehicles" (VList (v :: rest))) w1)
        by (apply deref_some; unfold w1; eapply with_route_lookup; exact Hx).
      rewrite (bind_ok _ _ _ (v :: rest) w1) by reflexivity.
      rewrite (bind_err _ _ _ err w1); [reflexivity|].
      cbn [comprehension].
      rewrite (bind_err _ _ _ err w1); [reflexivity|].
      rewrite (bind_err _ _ _ err w1); [reflexivity|].
      now apply getattr_no_model. }
  unfold TransportSystem.display_all_data, get_system.
  rewrite (deref_some CTransportSystem system_store self w1 s) by exact Hs.
  cbn [fst]. rewrite R. unfold screen. cbn [fst snd then_print app].
  rewrite (Forall2_length _ _ _ Hes1).
  simpl take. rewrite map_app, <- app_assoc.
  rewrite take_app_length' by (now rewrite length_map).
  reflexivity.
Qed.

Lemma X19_witness :
  ∃ w1,
    TransportSystem.update_route 0 (VInt 2) [("vehicles", VList [VObj CPassenger 0])] sample
      = (inr tt, w1) ∧
    TransportSystem.display_all_data 0 w1 =
      ([[Lit (nl ++ rule)]; [Lit "ДАННЫЕ ТРАНСПОРТНОЙ СИСТЕМЫ"]; [Lit rule];
        [Lit (nl ++ "МАРШРУТЫ:")];
        [Lit "  "; Lit "Маршрут "; Str (VStr "t77"); Lit ": "; Str (VStr "Ivanovskoe");
         Lit " - "; Str (VStr "Perovo"); Lit " | Транспорт: [";
         Str (VStr "NefAZ 5299"); Lit "(ID:"; Str (VInt 1); Lit ")"; Lit ", ";
         Str (VStr "MAZ-203"); Lit "(ID:"; Str (VInt 2); Lit ")"; Lit "]"]],
       inl (Raise AttributeError
              [Lit "'"; Lit "Passenger"; Lit "' object has no attribute '";
               Lit "model"; Lit "'"])).
Proof.
  assert (A1 : Forall (route_has_id sample (VInt 2) false) [0]).
  { constructor; [|constructor]. eexists; split; reflexivity. }
  assert (A2 : route_has_id sample (VInt 2) true 1).
  { eexists; split; reflexivity. }
  destruct (X19_display_stops_at_the_first_failure sample 0
              (TransportSystem_ [0; 1] [0; 1] [0])
              ([(Route_ (VInt 1) (VStr "t77") (VStr "Ivanovskoe") (VStr "Perovo")
                        (VList []) ∅,
                 [Vehicle_ (VInt 1) (VStr "NefAZ 5299") (VInt 77) (VStr "bus");
                  Vehicle_ (VInt 2) (VStr "MAZ-203") (VInt 80) (VStr "bus")]);
                (Route_ (VInt 2) (VStr "37") (VStr "Kursky") (VStr "Vladimirskaya")
                        (VList []) ∅, [])],
               [Passenger_ (VInt 1) (VStr "Ivan") (VStr "0021095222");
                Passenger_ (VInt 1) (VStr "Maria") (VStr "0022112312")],
               [Schedule_ (VInt 1) (VInt 1) (VStr "08:00") (VStr "08:45")])
              (VInt 2) [0] 1 []
              (Route_ (VInt 2) (VStr "37") (VStr "Kursky") (VStr "Vladimirskaya")
                      (VList []) ∅)
              (VObj CPassenger 0) [] eq_refl eq_refl eq_refl eq_refl A1 A2 eq_refl
              eq_refl eq_refl) as (Hu & Hd).
  eexists. split; [exact Hu|exact Hd].
Defined.
